(** * GeminiPoly: the host-side turn and economy engine of [App.tsx]

    A shallow embedding of the networked version of [App.tsx] (the host
    dispatcher [executeGameLogic], its processors, the landing resolver and
    the [game_state_sync] handler) together with the data model of
    [types.ts]; and, around it, the start of a game
    ([handleStartGameRequest] and the [game_started] handler), the purchase
    gate of the screen and the buttons of [ControlPanel], the rule-based
    computer player of [geminiService.ts] with the AI hook that runs it,
    and the board layout [getGridStyle] of [Tile.tsx].

    Conventions.
    - JavaScript numbers that the game logic manipulates are integers; they
      are modelled by [Z].  Array indices obtained from [findIndex] and the
      turn pointer are [nat].
    - An optional field ([price?], [rent?], [ownerId?], ...) is an [option];
      [undefined] and [null] are both [None].
    - Player objects are never replaced inside the [players] array: every
      processor copies the array shallowly and mutates the objects in
      place.  An in-place mutation of [players[i]] is therefore an [alter]
      at index [i], and a reference to a player object (the [winner] field)
      is the index of that object in [players].
    - A computation that throws a [TypeError] (a field read on [undefined])
      or leaves the integers ([NaN], a fractional rent) is a failure of the
      error monad [M]; the embedding is exact wherever it returns a state.
    - The draws of [Math.random] are explicit arguments. *)

From Stdlib Require Import ZArith String Lia.
From stdpp Require Import base tactics option list strings.

#[local] Set Warnings "-clear-no-such-hyp".

Local Open Scope string_scope.
Local Open Scope list_scope.
Local Open Scope Z_scope.

(** ** Data model ([types.ts]) *)

Module ColorGroup.
Inductive t :=
  | BROWN | LIGHT_BLUE | PINK | ORANGE | RED | YELLOW | GREEN | DARK_BLUE
  | STATION | UTILITY | NONE.

#[global] Instance eq_dec : EqDecision t.
Proof. solve_decision. Defined.
End ColorGroup.

Module TileType.
Inductive t :=
  | PROPERTY | START | JAIL | PARKING | GO_TO_JAIL | CHANCE
  | COMMUNITY_CHEST | TAX | STATION | UTILITY.

#[global] Instance eq_dec : EqDecision t.
Proof. solve_decision. Defined.
End TileType.

Module GamePhase.
Inductive t :=
  | LOGIN | LOBBY_ROOMS | ROOM_SETUP | ROLLING | MOVING | ACTION
  | SHOWING_CARD | END_TURN | GAME_OVER.

#[global] Instance eq_dec : EqDecision t.
Proof. solve_decision. Defined.
End GamePhase.

Module Tile.
Record t := mk {
  id : Z;
  name : string;
  type : TileType.t;
  price : option Z;
  rent : option (list Z);      (* [base, 1 house, 2, 3, 4, hotel] *)
  group : ColorGroup.t;
  ownerId : option string;
  houseCost : option Z;
  houseCount : option Z;       (* 5 = hotel *)
  isMortgaged : option bool
}.

Definition set_ownerId (v : option string) (x : t) : t :=
  mk (id x) (name x) (type x) (price x) (rent x) (group x) v
     (houseCost x) (houseCount x) (isMortgaged x).

Definition set_houseCount (v : option Z) (x : t) : t :=
  mk (id x) (name x) (type x) (price x) (rent x) (group x) (ownerId x)
     (houseCost x) v (isMortgaged x).
End Tile.

Module Player.
Record t := mk {
  id : string;
  name : string;
  color : string;
  icon : string;
  isAI : bool;
  money : Z;
  position : Z;
  isInJail : bool;
  jailTurns : Z;
  consecutiveDoubles : Z;
  properties : list Z;
  bankrupt : bool
}.

Definition set_money (v : Z) (x : t) : t :=
  mk (id x) (name x) (color x) (icon x) (isAI x) v (position x)
     (isInJail x) (jailTurns x) (consecutiveDoubles x) (properties x)
     (bankrupt x).

Definition set_position (v : Z) (x : t) : t :=
  mk (id x) (name x) (color x) (icon x) (isAI x) (money x) v
     (isInJail x) (jailTurns x) (consecutiveDoubles x) (properties x)
     (bankrupt x).

Definition set_isInJail (v : bool) (x : t) : t :=
  mk (id x) (name x) (color x) (icon x) (isAI x) (money x) (position x)
     v (jailTurns x) (consecutiveDoubles x) (properties x) (bankrupt x).

Definition set_jailTurns (v : Z) (x : t) : t :=
  mk (id x) (name x) (color x) (icon x) (isAI x) (money x) (position x)
     (isInJail x) v (consecutiveDoubles x) (properties x) (bankrupt x).

Definition set_consecutiveDoubles (v : Z) (x : t) : t :=
  mk (id x) (name x) (color x) (icon x) (isAI x) (money x) (position x)
     (isInJail x) (jailTurns x) v (properties x) (bankrupt x).

Definition set_properties (v : list Z) (x : t) : t :=
  mk (id x) (name x) (color x) (icon x) (isAI x) (money x) (position x)
     (isInJail x) (jailTurns x) (consecutiveDoubles x) v (bankrupt x).

Definition set_bankrupt (v : bool) (x : t) : t :=
  mk (id x) (name x) (color x) (icon x) (isAI x) (money x) (position x)
     (isInJail x) (jailTurns x) (consecutiveDoubles x) (properties x) v.

(** The four assignments shared by every incarceration
    ([position = 10; isInJail = true; jailTurns = 0;
    consecutiveDoubles = 0]). *)
Definition jail (x : t) : t :=
  set_consecutiveDoubles 0 (set_jailTurns 0 (set_isInJail true
    (set_position 10 x))).

(** The three assignments shared by every release from jail
    ([isInJail = false; jailTurns = 0; consecutiveDoubles = 0]). *)
Definition release (x : t) : t :=
  set_consecutiveDoubles 0 (set_jailTurns 0 (set_isInJail false x)).
End Player.

Module EffectType.
Inductive t := MONEY | MOVE_TO | MOVE_STEPS | GO_TO_JAIL.
End EffectType.

Module ChanceCard.
Record t := mk {
  id : Z;
  title : string;
  description : string;
  effectType : EffectType.t;
  value : Z
}.
End ChanceCard.

(** The log.  [createLog] stamps every entry with a fresh uuid and the
    current time; neither is read by the game logic.  The message is a
    template string: one constructor per template of the host logic,
    carrying the interpolated values. *)
Module GameLog.
Inductive kind := info | success | danger | warning.

Inductive msg :=
  | Surrendered (player : string)
  | BailNoFunds (player : string)
  | BailPaid (player : string)
  | UpgradeNoFunds
  | UpgradeMaxLevel
  | Upgraded (player tile : string) (level cost : Z)
  | Declined (player : string)
  | Bought (player : string) (price : Z) (tile : string)
  | JailDouble (player : string) (d1 d2 : Z)
  | JailForcedBail (player : string)
  | JailFailed (player : string) (total : Z)
  | Speeding (player : string)
  | Rolled (player : string) (total d1 d2 : Z) (isDouble : bool)
  | PassedStart (player : string)
  | Arrived (player tile : string)
  | LandedGoToJail (player : string)
  | RentDoubled (owner : string) (group : ColorGroup.t)
  | UtilityFee (diceSum factor : Z)
  | RentPaid (player owner : string) (rent : Z)
  | WentBankrupt (player : string)
  | TaxPaid (player : string) (tax : Z)
  | CardExecuted (player title : string)
  | CardJailed (player : string).

Record t := mk { message : msg; type : kind }.
End GameLog.

Record GameState := mkGameState {
  players : list Player.t;
  currentPlayerIndex : nat;
  tiles : list Tile.t;
  dice : Z * Z;
  phase : GamePhase.t;
  logs : list GameLog.t;
  winner : option nat;                 (* reference to [players[i]] *)
  currentCard : option ChanceCard.t;
  selectedTileId : option Z;           (* For viewing/upgrading tiles *)
  waitingForDoublesTurn : bool;
  currentUser : option (string * string);   (* id, name *)
  roomId : option string;
  isHost : bool
}.

Definition set_players (v : list Player.t) (s : GameState) : GameState :=
  mkGameState v (currentPlayerIndex s) (tiles s) (dice s) (phase s) (logs s)
    (winner s) (currentCard s) (selectedTileId s) (waitingForDoublesTurn s)
    (currentUser s) (roomId s) (isHost s).

Definition set_currentPlayerIndex (v : nat) (s : GameState) : GameState :=
  mkGameState (players s) v (tiles s) (dice s) (phase s) (logs s)
    (winner s) (currentCard s) (selectedTileId s) (waitingForDoublesTurn s)
    (currentUser s) (roomId s) (isHost s).

Definition set_tiles (v : list Tile.t) (s : GameState) : GameState :=
  mkGameState (players s) (currentPlayerIndex s) v (dice s) (phase s) (logs s)
    (winner s) (currentCard s) (selectedTileId s) (waitingForDoublesTurn s)
    (currentUser s) (roomId s) (isHost s).

Definition set_dice (v : Z * Z) (s : GameState) : GameState :=
  mkGameState (players s) (currentPlayerIndex s) (tiles s) v (phase s) (logs s)
    (winner s) (currentCard s) (selectedTileId s) (waitingForDoublesTurn s)
    (currentUser s) (roomId s) (isHost s).

Definition set_phase (v : GamePhase.t) (s : GameState) : GameState :=
  mkGameState (players s) (currentPlayerIndex s) (tiles s) (dice s) v (logs s)
    (winner s) (currentCard s) (selectedTileId s) (waitingForDoublesTurn s)
    (currentUser s) (roomId s) (isHost s).

Definition set_logs (v : list GameLog.t) (s : GameState) : GameState :=
  mkGameState (players s) (currentPlayerIndex s) (tiles s) (dice s) (phase s) v
    (winner s) (currentCard s) (selectedTileId s) (waitingForDoublesTurn s)
    (currentUser s) (roomId s) (isHost s).

Definition set_winner (v : option nat) (s : GameState) : GameState :=
  mkGameState (players s) (currentPlayerIndex s) (tiles s) (dice s) (phase s)
    (logs s) v (currentCard s) (selectedTileId s) (waitingForDoublesTurn s)
    (currentUser s) (roomId s) (isHost s).

Definition set_currentCard (v : option ChanceCard.t) (s : GameState)
  : GameState :=
  mkGameState (players s) (currentPlayerIndex s) (tiles s) (dice s) (phase s)
    (logs s) (winner s) v (selectedTileId s) (waitingForDoublesTurn s)
    (currentUser s) (roomId s) (isHost s).

Definition set_waitingForDoublesTurn (v : bool) (s : GameState) : GameState :=
  mkGameState (players s) (currentPlayerIndex s) (tiles s) (dice s) (phase s)
    (logs s) (winner s) (currentCard s) (selectedTileId s) v
    (currentUser s) (roomId s) (isHost s).

Definition set_currentUser (v : option (string * string)) (s : GameState)
  : GameState :=
  mkGameState (players s) (currentPlayerIndex s) (tiles s) (dice s) (phase s)
    (logs s) (winner s) (currentCard s) (selectedTileId s)
    (waitingForDoublesTurn s) v (roomId s) (isHost s).

Definition set_roomId (v : option string) (s : GameState) : GameState :=
  mkGameState (players s) (currentPlayerIndex s) (tiles s) (dice s) (phase s)
    (logs s) (winner s) (currentCard s) (selectedTileId s)
    (waitingForDoublesTurn s) (currentUser s) v (isHost s).

Definition set_isHost (v : bool) (s : GameState) : GameState :=
  mkGameState (players s) (currentPlayerIndex s) (tiles s) (dice s) (phase s)
    (logs s) (winner s) (currentCard s) (selectedTileId s)
    (waitingForDoublesTurn s) (currentUser s) (roomId s) v.

(** The player object the [winner] reference points to. *)
Definition winnerPlayer (s : GameState) : option Player.t :=
  match winner s with
  | Some i => players s !! i
  | None => None
  end.

(** Intents ([NetworkAction]).  The payload is never read by the host. *)
Module ActionType.
Inductive t := ROLL | BUY | PASS | PAY_BAIL | UPGRADE | END_TURN | SURRENDER.

#[global] Instance eq_dec : EqDecision t.
Proof. solve_decision. Defined.
End ActionType.

Record NetworkAction := mkAction {
  actionType : ActionType.t;
  playerId : string;
  payload : option string
}.

(** ** JavaScript idioms *)

(** [a[i]] for a number [i]: [undefined] outside the array. *)
Definition nthZ {A} (l : list A) (i : Z) : option A :=
  if decide (0 <= i) then l !! Z.to_nat i else None.

(** [a[i] = x] for an index inside the array. *)
Definition setZ {A} (l : list A) (i : Z) (x : A) : list A :=
  <[Z.to_nat i := x]> l.

(** Truthiness of an optional number: [undefined] and [0] are falsy. *)
Definition truthyNum (o : option Z) : option Z :=
  match o with
  | Some n => if decide (n = 0) then None else Some n
  | None => None
  end.

(** [x || d] on an optional number. *)
Definition orNum (o : option Z) (d : Z) : Z := default d (truthyNum o).

(** Truthiness of an optional string: [undefined], [null] and the empty
    string are falsy. *)
Definition truthyStr (o : option string) : option string :=
  match o with
  | Some EmptyString => None
  | Some s => Some s
  | None => None
  end.

(** [s.includes(sub)]. *)
Fixpoint includes (s sub : string) : bool :=
  String.prefix sub s ||
  match s with
  | EmptyString => false
  | String _ s' => includes s' sub
  end.

(** [players.find(p => p.id === id)] and [players.findIndex(...)] at once:
    the first player with that id, with its index. *)
Definition findPlayer (ps : list Player.t) (pid : string)
  : option (nat * Player.t) :=
  list_find (λ p, Player.id p = pid) ps.

Definition findTile (ts : list Tile.t) (tid : Z) : option (nat * Tile.t) :=
  list_find (λ t, Tile.id t = tid) ts.

(** [players.filter(p => !p.bankrupt)]. *)
Definition activePlayers (ps : list Player.t) : list Player.t :=
  filter (λ p, Player.bankrupt p = false) ps.

(** [activePlayers[0] || null] as a reference: the index in [players] of the
    first player that is not bankrupt. *)
Definition firstActive (ps : list Player.t) : option nat :=
  fst <$> list_find (λ p, Player.bankrupt p = false) ps.

(** [t.ownerId === playerId]. *)
Definition ownedBy (pid : string) (t : Tile.t) : Prop :=
  Tile.ownerId t = Some pid.

#[global] Instance ownedBy_dec pid t : Decision (ownedBy pid t).
Proof. unfold ownedBy. apply _. Defined.

(** [tiles.map(t => t.ownerId === playerId
                     ? { ...t, ownerId: null, houseCount: 0 } : t)]. *)
Definition releaseTiles (pid : string) (ts : list Tile.t) : list Tile.t :=
  (λ t, if decide (ownedBy pid t)
        then Tile.set_houseCount (Some 0) (Tile.set_ownerId None t)
        else t) <$> ts.

(** ** The log-and-error monad

    Every processor receives the mutable array [logs] and pushes onto it;
    a field read on [undefined] throws. *)
Definition M (A : Type) : Type :=
  list GameLog.t → option (A * list GameLog.t).

Definition ret {A} (a : A) : M A := λ l, Some (a, l).

Definition bind {A B} (m : M A) (k : A → M B) : M B :=
  λ l, match m l with
       | Some (a, l') => k a l'
       | None => None
       end.

Definition throw {A} : M A := λ _, None.

(** A value that must not be [undefined]. *)
Definition defined {A} (o : option A) : M A :=
  match o with
  | Some a => ret a
  | None => throw
  end.

(** [logs.push(createLog(message, type))]. *)
Definition push (m : GameLog.msg) (k : GameLog.kind) : M unit :=
  λ l, Some (tt, l ++ [GameLog.mk m k]).

Notation "'let!' x ':=' m 'in' k" := (bind m (λ x, k))
  (at level 10, x name, m at level 100, k at level 200).
Notation "'let!' ( x , y ) ':=' m 'in' k" := (bind m (λ '(x, y), k))
  (at level 10, x name, y name, m at level 100, k at level 200).
Notation "m ';;' k" := (bind m (λ _, k))
  (at level 100, k at level 200, right associativity).

(** ** Host logic ([App.tsx], networked version) *)

(** The draws of one intent: the two dice of [processRoll] and the card
    index [Math.floor(Math.random() * CHANCE_CARDS.length)] of
    [handleLanding]. *)
Record Draws := mkDraws { d1 : Z; d2 : Z; cardIndex : nat }.

(** [checkOwnsGroup]. *)
Definition checkOwnsGroup (playerId : option string) (group : ColorGroup.t)
    (allTiles : list Tile.t) : bool :=
  match truthyStr playerId with
  | None => false
  | Some pid =>
    if decide (group = ColorGroup.NONE) then false
    else
      let groupTiles := filter (λ t, Tile.group t = group) allTiles in
      bool_decide (0 < length groupTiles)%nat &&
      bool_decide (Forall (ownedBy pid) groupTiles)
  end.

(** The loop of [processEndTurn] that skips bankrupt players; [budget] is
    [players.length - loopCount]. *)
Fixpoint skipBankrupt (ps : list Player.t) (budget nextIndex : nat)
  : option nat :=
  match ps !! nextIndex with
  | None => None
  | Some p =>
    match budget with
    | S budget' =>
      if Player.bankrupt p
      then skipBankrupt ps budget' ((nextIndex + 1) `mod` length ps)%nat
      else Some nextIndex
    | O => Some nextIndex
    end
  end.

Definition processEndTurn (state : GameState) : M GameState :=
  let n := length (players state) in
  let! nextIndex :=
    defined (skipBankrupt (players state) n
               ((currentPlayerIndex state + 1) `mod` n)%nat) in
  if decide (length (activePlayers (players state)) ≤ 1)%nat then
    ret (set_phase GamePhase.GAME_OVER
          (set_winner (firstActive (players state)) state))
  else
    ret (set_waitingForDoublesTurn false
          (set_phase GamePhase.ROLLING
            (set_currentPlayerIndex nextIndex state))).

Definition processSurrender (state : GameState) (player : Player.t)
  : M GameState :=
  push (GameLog.Surrendered (Player.name player)) GameLog.danger ;;
  let! pIdx := defined (fst <$> findPlayer (players state) (Player.id player)) in
  let newPlayers :=
    alter (λ p, Player.set_money 0 (Player.set_bankrupt true p)) pIdx
          (players state) in
  (* Release tiles *)
  let newTiles := releaseTiles (Player.id player) (tiles state) in
  let! current := defined (players state !! currentPlayerIndex state) in
  let isTurn := bool_decide (Player.id current = Player.id player) in
  let nextState := set_tiles newTiles (set_players newPlayers state) in
  if isTurn then processEndTurn nextState
  else
    (* Check win condition immediately if someone quit out of turn *)
    if decide (length (activePlayers (players nextState)) ≤ 1)%nat then
      ret (set_phase GamePhase.GAME_OVER
            (set_winner (firstActive (players nextState)) nextState))
    else ret nextState.

Definition processPayBail (state : GameState) (player : Player.t)
  : M GameState :=
  if decide (Player.money player < 50) then
    push (GameLog.BailNoFunds (Player.name player)) GameLog.warning ;;
    ret state
  else
    let! idx := defined (fst <$> findPlayer (players state) (Player.id player)) in
    let newPlayers :=
      alter (λ p, Player.release (Player.set_money (Player.money p - 50) p))
            idx (players state) in
    push (GameLog.BailPaid (Player.name player)) GameLog.success ;;
    ret (set_players newPlayers state).

(** [tile.houseCount && tile.houseCount >= 5]. *)
Definition atMaxLevel (tile : Tile.t) : bool :=
  match truthyNum (Tile.houseCount tile) with
  | Some n => bool_decide (5 <= n)
  | None => false
  end.

Definition processUpgrade (state : GameState) (player : Player.t)
  : M GameState :=
  match selectedTileId state with
  | None => ret state
  | Some sel =>
    match findTile (tiles state) sel with
    | None => ret state
    | Some (tIdx, tile) =>
      match truthyNum (Tile.houseCost tile) with
      | None => ret state
      | Some houseCost =>
        if decide (Player.money player < houseCost) then
          push GameLog.UpgradeNoFunds GameLog.warning ;; ret state
        else if atMaxLevel tile then
          push GameLog.UpgradeMaxLevel GameLog.warning ;; ret state
        else
          let! pIdx :=
            defined (fst <$> findPlayer (players state) (Player.id player)) in
          let newPlayers :=
            alter (λ p, Player.set_money (Player.money p - houseCost) p)
                  pIdx (players state) in
          let level := orNum (Tile.houseCount tile) 0 + 1 in
          let newTiles :=
            <[tIdx := Tile.set_houseCount (Some level) tile]> (tiles state) in
          push (GameLog.Upgraded (Player.name player) (Tile.name tile)
                  level houseCost) GameLog.success ;;
          ret (set_tiles newTiles (set_players newPlayers state))
      end
    end
  end.

Definition processPass (state : GameState) (player : Player.t)
  : M GameState :=
  push (GameLog.Declined (Player.name player)) GameLog.info ;;
  ret (set_phase (if waitingForDoublesTurn state
                  then GamePhase.ROLLING else GamePhase.END_TURN) state).

Definition processBuy (state : GameState) (player : Player.t)
  : M GameState :=
  let! tile := defined (nthZ (tiles state) (Player.position player)) in
  match truthyNum (Tile.price tile) with
  | None => ret state
  | Some price =>
    if decide (Player.money player < price) then ret state
    else
      let! pIdx :=
        defined (fst <$> findPlayer (players state) (Player.id player)) in
      let newPlayers :=
        alter (λ p, Player.set_properties (Player.properties p ++ [Tile.id tile])
                      (Player.set_money (Player.money p - price) p))
              pIdx (players state) in
      let newTiles :=
        setZ (tiles state) (Player.position player)
             (Tile.set_ownerId (Some (Player.id player)) tile) in
      push (GameLog.Bought (Player.name player) price (Tile.name tile))
           GameLog.success ;;
      ret (set_phase (if waitingForDoublesTurn state
                      then GamePhase.ROLLING else GamePhase.END_TURN)
            (set_tiles newTiles (set_players newPlayers state)))
  end.

Section Landing.

(** [constants.ts] is not part of the sources: the deck is a parameter. *)
Variable CHANCE_CARDS : list ChanceCard.t.

(** The keyword (a non-ASCII literal) that [applyChanceEffect] looks for in
    the description of a [MOVE_TO] card. *)
Variable jailKeyword : string.

Definition applyChanceEffect (state : GameState) (playerId : string)
    (card : ChanceCard.t) (isDouble : bool) : M GameState :=
  let! (pIndex, player) := defined (findPlayer (players state) playerId) in
  let nextPhase := if isDouble then GamePhase.ROLLING else GamePhase.END_TURN in
  push (GameLog.CardExecuted (Player.name player) (ChanceCard.title card))
       GameLog.info ;;
  let finish (f : Player.t → Player.t) (ph : GamePhase.t) (w : bool) :=
    ret (set_waitingForDoublesTurn w
          (set_phase ph (set_players (alter f pIndex (players state)) state))) in
  let goToJail :=
    push (GameLog.CardJailed (Player.name player)) GameLog.danger ;;
    finish Player.jail GamePhase.END_TURN false in
  match ChanceCard.effectType card with
  | EffectType.MONEY =>
    finish (λ p, Player.set_money (Player.money p + ChanceCard.value card) p)
           nextPhase isDouble
  | EffectType.MOVE_TO =>
    if bool_decide (ChanceCard.value card = 10) &&
       includes (ChanceCard.description card) jailKeyword
    then goToJail
    else
      finish (λ p, Player.set_position (ChanceCard.value card)
                     (if decide (ChanceCard.value card < Player.position p)
                      then Player.set_money (Player.money p + 200) p else p))
             nextPhase isDouble
  | EffectType.MOVE_STEPS =>
    finish (λ p,
              let newPos := Player.position p + ChanceCard.value card in
              let wrapped := bool_decide (40 <= newPos) in
              let newPos := if wrapped then newPos - 40 else newPos in
              let newPos := if decide (newPos < 0) then newPos + 40 else newPos in
              Player.set_position newPos
                (if wrapped then Player.set_money (Player.money p + 200) p
                 else p))
           nextPhase isDouble
  | EffectType.GO_TO_JAIL => goToJail
  end.

(** The rent of [handleLanding] with the log entries of its computation. *)
Definition computeRent (state : GameState) (tile : Tile.t)
    (owner : Player.t) : M Z :=
  match Tile.type tile with
  | TileType.PROPERTY =>
    let! baseRent :=
      match Tile.rent tile with
      | Some tiers => defined (nthZ tiers (orNum (Tile.houseCount tile) 0))
      | None => ret 0
      end in
    if bool_decide (Tile.houseCount tile = Some 0 ∨ Tile.houseCount tile = None)
       && checkOwnsGroup (Some (Player.id owner)) (Tile.group tile)
                         (tiles state)
    then
      push (GameLog.RentDoubled (Player.name owner) (Tile.group tile))
           GameLog.warning ;;
      ret (baseRent * 2)
    else ret baseRent
  | TileType.STATION =>
    let stationsOwned :=
      length (filter (λ t, Tile.group t = ColorGroup.STATION ∧
                           ownedBy (Player.id owner) t) (tiles state)) in
    (* 25 * Math.pow(2, -1) is not an integer *)
    if decide (stationsOwned = 0)%nat then throw
    else ret (25 * 2 ^ (Z.of_nat stationsOwned - 1))
  | TileType.UTILITY =>
    let utilitiesOwned :=
      length (filter (λ t, Tile.group t = ColorGroup.UTILITY ∧
                           ownedBy (Player.id owner) t) (tiles state)) in
    let diceSum := fst (dice state) + snd (dice state) in
    let factor := if decide (utilitiesOwned = 2)%nat then 10 else 4 in
    push (GameLog.UtilityFee diceSum factor) GameLog.info ;;
    ret (diceSum * factor)
  | _ => ret 0
  end.

Definition landingPhase (isDouble : bool) (s : GameState) : GameState :=
  set_waitingForDoublesTurn isDouble
    (set_phase (if isDouble then GamePhase.ROLLING else GamePhase.END_TURN) s).

(** The branch of [handleLanding] that charges rent to [players[pIdx]]
    in favour of [owner]. *)
Definition payRent (state : GameState) (playerId : string) (pIdx : nat)
    (player : Player.t) (tile : Tile.t) (owner : Player.t)
    (isDouble : bool) : M GameState :=
  let! rent := computeRent state tile owner in
  push (GameLog.RentPaid (Player.name player) (Player.name owner) rent)
       GameLog.danger ;;
  let! oIdx := defined (fst <$> findPlayer (players state) (Player.id owner)) in
  let newPlayers :=
    alter (λ p, Player.set_money (Player.money p + rent) p) oIdx
      (alter (λ p, Player.set_money (Player.money p - rent) p) pIdx
         (players state)) in
  let! payer := defined (newPlayers !! pIdx) in
  if decide (Player.money payer < 0) then
    let newPlayers := alter (Player.set_bankrupt true) pIdx newPlayers in
    push (GameLog.WentBankrupt (Player.name player)) GameLog.danger ;;
    (* Check End Game *)
    if decide (length (activePlayers newPlayers) ≤ 1)%nat then
      ret (set_phase GamePhase.GAME_OVER
            (set_winner (firstActive newPlayers)
              (set_players newPlayers state)))
    else
      let newTiles := releaseTiles playerId (tiles state) in
      ret (set_waitingForDoublesTurn false
            (set_phase GamePhase.END_TURN
              (set_tiles newTiles (set_players newPlayers state))))
  else ret (landingPhase isDouble (set_players newPlayers state)).

Definition isBuyable (ty : TileType.t) : bool :=
  bool_decide (ty = TileType.PROPERTY ∨ ty = TileType.STATION ∨
               ty = TileType.UTILITY).

Definition handleLanding (draws : Draws) (state : GameState)
    (playerId : string) (isDouble : bool) : M GameState :=
  match findPlayer (players state) playerId with
  | None => ret state
  | Some (idx, player) =>
    let! tile := defined (nthZ (tiles state) (Player.position player)) in
    push (GameLog.Arrived (Player.name player) (Tile.name tile))
         GameLog.info ;;
    (* 4. Tax, then the default *)
    let rest :=
      if decide (Tile.type tile = TileType.TAX) then
        let tax := orNum (Tile.price tile) 100 in
        push (GameLog.TaxPaid (Player.name player) tax) GameLog.danger ;;
        ret (landingPhase isDouble
              (set_players
                 (alter (λ p, Player.set_money (Player.money p - tax) p) idx
                        (players state)) state))
      else ret (landingPhase isDouble state) in
    (* 1. Go to Jail *)
    if decide (Tile.type tile = TileType.GO_TO_JAIL) then
      push (GameLog.LandedGoToJail (Player.name player)) GameLog.danger ;;
      ret (set_waitingForDoublesTurn false
            (set_phase GamePhase.END_TURN
              (set_players (alter Player.jail idx (players state)) state)))
    (* 2. Chance / Community Chest *)
    else if decide (Tile.type tile = TileType.CHANCE ∨
                    Tile.type tile = TileType.COMMUNITY_CHEST) then
      let! card := defined (CHANCE_CARDS !! cardIndex draws) in
      let nextState :=
        set_phase GamePhase.SHOWING_CARD (set_currentCard (Some card) state) in
      applyChanceEffect nextState playerId card isDouble
    (* 3. Properties *)
    else if isBuyable (Tile.type tile) then
      match truthyStr (Tile.ownerId tile) with
      | Some ownerId =>
        if decide (ownerId = playerId) then rest
        else
          match findPlayer (players state) ownerId with
          | Some (_, owner) =>
            if Player.bankrupt owner then rest
            else payRent state playerId idx player tile owner isDouble
          | None => rest
          end
      | None =>
        ret (set_waitingForDoublesTurn isDouble
              (set_phase GamePhase.ACTION state))
      end
    else rest
  end.

(** The position update of [movePlayer]: wrap around the ring of forty
    tiles, with the bonus for passing the start. *)
Definition advance (steps : Z) (p : Player.t) : Player.t :=
  let newPos := Player.position p + steps in
  if decide (40 <= newPos) then
    Player.set_position (newPos - 40)
      (Player.set_money (Player.money p + 200) p)
  else if decide (newPos < 0) then Player.set_position (newPos + 40) p
  else Player.set_position newPos p.

Definition movePlayer (draws : Draws) (state : GameState) (steps : Z)
    (playerId : string) (isDouble : bool) : M GameState :=
  let! (idx, player) := defined (findPlayer (players state) playerId) in
  (if decide (40 <= Player.position player + steps)
   then push (GameLog.PassedStart (Player.name player)) GameLog.success
   else ret tt) ;;
  let newState :=
    set_players (alter (advance steps) idx (players state)) state in
  (* Handle Landing (Sync) *)
  handleLanding draws newState playerId isDouble.

Definition processRoll (draws : Draws) (state : GameState)
    (player : Player.t) : M GameState :=
  let total := d1 draws + d2 draws in
  let isDouble := bool_decide (d1 draws = d2 draws) in
  let newState :=
    set_waitingForDoublesTurn false (set_dice (d1 draws, d2 draws) state) in
  let! idx := defined (fst <$> findPlayer (players state) (Player.id player)) in
  let mutate (f : Player.t → Player.t) : GameState :=
    set_players (alter f idx (players newState)) newState in
  (* Jail Logic *)
  if Player.isInJail player then
    if isDouble then
      push (GameLog.JailDouble (Player.name player) (d1 draws) (d2 draws))
           GameLog.success ;;
      movePlayer draws (mutate Player.release) total (Player.id player) false
    else if decide (2 <= Player.jailTurns player) then
      push (GameLog.JailForcedBail (Player.name player)) GameLog.warning ;;
      movePlayer draws
        (mutate (λ p, Player.release
                        (Player.set_money (Player.money p - 50) p)))
        total (Player.id player) false
    else
      push (GameLog.JailFailed (Player.name player) total) GameLog.warning ;;
      ret (set_phase GamePhase.END_TURN
            (mutate (λ p, Player.set_consecutiveDoubles 0
                            (Player.set_jailTurns (Player.jailTurns p + 1) p))))
  else
    (* Normal Logic *)
    let nextDoublesCount :=
      if isDouble then Player.consecutiveDoubles player + 1 else 0 in
    if decide (nextDoublesCount = 3) then
      push (GameLog.Speeding (Player.name player)) GameLog.danger ;;
      ret (set_phase GamePhase.END_TURN (mutate Player.jail))
    else
      push (GameLog.Rolled (Player.name player) total (d1 draws) (d2 draws)
              isDouble) GameLog.info ;;
      movePlayer draws
        (mutate (Player.set_consecutiveDoubles nextDoublesCount))
        total (Player.id player) isDouble.

(** [executeGameLogic]: the updater passed to [setGameState].  The state it
    returns is the one handed to [broadcastState]. *)
Definition executeGameLogic (draws : Draws) (prevState : GameState)
    (action : NetworkAction) : option GameState :=
  (* 1. Validate turn (unless surrender) *)
  match findPlayer (players prevState) (playerId action) with
  | None => Some prevState
  | Some (_, player) =>
    match players prevState !! currentPlayerIndex prevState with
    | None => None
    | Some current =>
      let isTurn := bool_decide (Player.id current = Player.id player) in
      if negb isTurn &&
         negb (bool_decide (actionType action = ActionType.SURRENDER))
      then Some prevState
      else
        (* 2. Process Action *)
        let newState := prevState in
        let run :=
          match actionType action with
          | ActionType.ROLL => processRoll draws newState player
          | ActionType.BUY => processBuy newState player
          | ActionType.PASS => processPass newState player
          | ActionType.PAY_BAIL => processPayBail newState player
          | ActionType.UPGRADE => processUpgrade newState player
          | ActionType.END_TURN => processEndTurn newState
          | ActionType.SURRENDER => processSurrender newState player
          end in
        match run (logs newState) with
        | Some (newState, logs) => Some (set_logs logs newState)
        | None => None
        end
    end
  end.

End Landing.

(** The [game_state_sync] handler: [local] is the state of the receiving
    process, [syncedState] the broadcast. *)
Definition game_state_sync (local syncedState : GameState) : GameState :=
  (* Only Clients apply this. Hosts ignore (they are the source of truth). *)
  if negb (isHost local) then
    set_isHost false
      (set_roomId (roomId local)
        (set_currentUser (currentUser local) syncedState))
  else local.

(** ** A board and a roster to run the logic on

    A forty-tile ring in the shape the logic expects of [INITIAL_TILES]:
    jail on tile 10, go-to-jail on tile 30, two-tile brown and dark-blue
    groups, four stations, two utilities. *)
Module Demo.

Definition tiers (base : Z) : list Z :=
  [base; 5 * base; 15 * base; 45 * base; 80 * base; 125 * base].

Definition street (i : Z) (n : string) (g : ColorGroup.t) (price base cost : Z)
  : Tile.t :=
  Tile.mk i n TileType.PROPERTY (Some price) (Some (tiers base)) g None
          (Some cost) (Some 0) None.

Definition station (i : Z) (n : string) : Tile.t :=
  Tile.mk i n TileType.STATION (Some 200) None ColorGroup.STATION None None
          (Some 0) None.

Definition utility (i : Z) (n : string) : Tile.t :=
  Tile.mk i n TileType.UTILITY (Some 150) None ColorGroup.UTILITY None None
          (Some 0) None.

Definition plain (i : Z) (n : string) (ty : TileType.t) (price : option Z)
  : Tile.t :=
  Tile.mk i n ty price None ColorGroup.NONE None None (Some 0) None.

Definition board : list Tile.t :=
  [ plain 0 "Start" TileType.START None;
    street 1 "Brown 1" ColorGroup.BROWN 60 2 50;
    plain 2 "Community" TileType.COMMUNITY_CHEST None;
    street 3 "Brown 2" ColorGroup.BROWN 60 4 50;
    plain 4 "Income tax" TileType.TAX (Some 200);
    station 5 "South station";
    street 6 "Sky 1" ColorGroup.LIGHT_BLUE 100 6 50;
    plain 7 "Chance" TileType.CHANCE None;
    street 8 "Sky 2" ColorGroup.LIGHT_BLUE 100 6 50;
    street 9 "Sky 3" ColorGroup.LIGHT_BLUE 120 8 50;
    plain 10 "Jail" TileType.JAIL None;
    street 11 "Pink 1" ColorGroup.PINK 140 10 100;
    utility 12 "Power";
    street 13 "Pink 2" ColorGroup.PINK 140 10 100;
    street 14 "Pink 3" ColorGroup.PINK 160 12 100;
    station 15 "West station";
    street 16 "Orange 1" ColorGroup.ORANGE 180 14 100;
    plain 17 "Community" TileType.COMMUNITY_CHEST None;
    street 18 "Orange 2" ColorGroup.ORANGE 180 14 100;
    street 19 "Orange 3" ColorGroup.ORANGE 200 16 100;
    plain 20 "Parking" TileType.PARKING None;
    street 21 "Red 1" ColorGroup.RED 220 18 150;
    plain 22 "Chance" TileType.CHANCE None;
    street 23 "Red 2" ColorGroup.RED 220 18 150;
    street 24 "Red 3" ColorGroup.RED 240 20 150;
    station 25 "North station";
    street 26 "Yellow 1" ColorGroup.YELLOW 260 22 150;
    street 27 "Yellow 2" ColorGroup.YELLOW 260 22 150;
    utility 28 "Water";
    street 29 "Yellow 3" ColorGroup.YELLOW 280 24 150;
    plain 30 "Go to jail" TileType.GO_TO_JAIL None;
    street 31 "Green 1" ColorGroup.GREEN 300 26 200;
    street 32 "Green 2" ColorGroup.GREEN 300 26 200;
    plain 33 "Community" TileType.COMMUNITY_CHEST None;
    street 34 "Green 3" ColorGroup.GREEN 320 28 200;
    station 35 "East station";
    plain 36 "Chance" TileType.CHANCE None;
    street 37 "Blue 1" ColorGroup.DARK_BLUE 350 35 200;
    plain 38 "Luxury tax" TileType.TAX (Some 100);
    street 39 "Blue 2" ColorGroup.DARK_BLUE 400 50 200 ].

Definition deck : list ChanceCard.t :=
  [ ChanceCard.mk 1 "Dividend" "The bank pays you" EffectType.MONEY 50;
    ChanceCard.mk 2 "Fine" "Pay a fine" EffectType.MONEY (-100);
    ChanceCard.mk 3 "Back" "Go back three steps" EffectType.MOVE_STEPS (-3);
    ChanceCard.mk 4 "Arrest" "Go to jail" EffectType.GO_TO_JAIL 10 ].

Definition keyword : string := "jail".

Definition seat (i n : string) (cash pos : Z) (owned : list Z) : Player.t :=
  Player.mk i n "#3b82f6" "car" false cash pos false 0 0 owned false.

(** [tiles[i].ownerId = o] for every listed tile. *)
Definition grant (o : string) (owned : list Z) (ts : list Tile.t)
  : list Tile.t :=
  (λ t, if decide (Tile.id t ∈ owned) then Tile.set_ownerId (Some o) t else t)
    <$> ts.

Definition game (ps : list Player.t) (ts : list Tile.t) : GameState :=
  mkGameState ps 0 ts (1, 1) GamePhase.ROLLING [] None None None false
              None (Some "room") true.

Definition roll (a b : Z) : Draws := mkDraws a b 0.

Definition act (ty : ActionType.t) (who : string) : NetworkAction :=
  mkAction ty who None.

Definition run := executeGameLogic deck keyword.

(** Two players left; alice, about to move, owns Brown 1 and bob Brown 2. *)
Definition duel : GameState :=
  game [ seat "alice" "Alice" 3 0 [1]; seat "bob" "Bob" 1500 20 [3] ]
       (grant "bob" [3] (grant "alice" [1] board)).

(** A client that has selected tile 5 on its own screen. *)
Definition guest : GameState :=
  mkGameState (players duel) 0 (tiles duel) (1, 1) GamePhase.ROLLING []
              None None (Some 5) false (Some ("bob", "Bob")) (Some "room")
              false.

(** Alice, rich, with the unowned Brown 1 selected on the host. *)
Definition shopping : GameState :=
  mkGameState [ seat "alice" "Alice" 1500 0 []; seat "bob" "Bob" 1500 20 [] ]
              0 board (1, 1) GamePhase.ROLLING [] None None (Some 1) false
              (Some ("alice", "Alice")) (Some "room") true.

(** Alice, short of cash, three tiles before the income tax. *)
Definition taxed : GameState :=
  game [ seat "alice" "Alice" 50 1 [1]; seat "bob" "Bob" 1500 20 [3] ]
       (grant "bob" [3] (grant "alice" [1] board)).

(** Bob holds both brown tiles; alice stands three tiles before Brown 2. *)
Definition monopoly : GameState :=
  game [ seat "alice" "Alice" 1500 0 []; seat "bob" "Bob" 1500 20 [1; 3] ]
       (grant "bob" [1; 3] board).

Definition bob : Player.t := seat "bob" "Bob" 1500 20 [1; 3].

Definition brown2 : Tile.t :=
  Tile.set_ownerId (Some "bob")
    (street 3 "Brown 2" ColorGroup.BROWN 60 4 50).

(** Alice in jail after two failed attempts. *)
Definition inmate : Player.t :=
  Player.set_jailTurns 2
    (Player.set_isInJail true (seat "alice" "Alice" 1500 10 [])).

Definition jailed : GameState :=
  game [ inmate; seat "bob" "Bob" 1500 20 [] ] board.

(** Alice after two doubles in a row. *)
Definition speeder : Player.t :=
  Player.set_consecutiveDoubles 2 (seat "alice" "Alice" 1500 24 []).

Definition speeding : GameState :=
  game [ speeder; seat "bob" "Bob" 1500 20 [] ] board.

(** Alice, short of cash, standing on the income tax. *)
Definition atTax : GameState :=
  game [ seat "alice" "Alice" 50 4 [1]; seat "bob" "Bob" 1500 20 [3] ]
       (grant "bob" [3] (grant "alice" [1] board)).

(** Alice stands on Brown 2, which is bob's. *)
Definition visitor : Player.t := seat "alice" "Alice" 1500 3 [].

Definition trespass : GameState :=
  game [ visitor; seat "bob" "Bob" 1500 20 [1; 3] ]
       (grant "bob" [1; 3] board).

(** Three players; bob, who owns Brown 2, is not on turn. *)
Definition trio : GameState :=
  game [ seat "alice" "Alice" 1500 0 [1]; seat "bob" "Bob" 1500 20 [3];
         seat "carol" "Carol" 1500 30 [] ]
       (grant "bob" [3] (grant "alice" [1] board)).

End Demo.

(** * Vocabulary of the properties *)

(** The state after [player] (at index [idx]) has given up, before the
    turn is rotated or the winner looked for. *)
Definition surrendered (s : GameState) (idx : nat) (player : Player.t)
  : GameState :=
  set_tiles (releaseTiles (Player.id player) (tiles s))
    (set_players
       (alter (λ p, Player.set_money 0 (Player.set_bankrupt true p)) idx
              (players s)) s).

(** [pid] holds every tile of the colour group [g]. *)
Definition holdsGroup (pid : string) (g : ColorGroup.t) (ts : list Tile.t)
  : Prop :=
  pid ≠ EmptyString ∧ g ≠ ColorGroup.NONE ∧
  (∃ t, t ∈ ts ∧ Tile.group t = g) ∧
  ∀ t, t ∈ ts → Tile.group t = g → ownedBy pid t.

(** Landing on [tile], owned by [owner], costs [amount]: that is the rent
    [handleLanding] computes, and the amount that leaves the visitor's
    balance and reaches the owner's. *)
Definition charges (s : GameState) (tile : Tile.t) (owner : Player.t)
    (l : list GameLog.t) (amount : Z) : Prop :=
  (∃ l', computeRent s tile owner l = Some (amount, l')) ∧
  ∀ pid pIdx player oIdx dbl,
    findPlayer (players s) pid = Some (pIdx, player) →
    findPlayer (players s) (Player.id owner) = Some (oIdx, owner) →
    pIdx ≠ oIdx →
    ∃ s' l', payRent s pid pIdx player tile owner dbl l = Some (s', l') ∧
      Player.money <$> players s' !! pIdx
        = Some (Player.money player - amount) ∧
      Player.money <$> players s' !! oIdx
        = Some (Player.money owner + amount).

(** The state of [processRoll] once the dice are thrown. *)
Definition rolled (draws : Draws) (s : GameState) : GameState :=
  set_waitingForDoublesTurn false (set_dice (d1 draws, d2 draws) s).

(** What jail and movement are about in a player. *)
Definition jailView (p : Player.t) : Z * bool * Z * Z :=
  (Player.position p, Player.isInJail p, Player.jailTurns p,
   Player.consecutiveDoubles p).

(** A board the landing resolver can work on: forty tiles, a rent tier for
    the building count of every property, stations in the station group;
    and a card under the drawn index. *)
Definition playable (deck : list ChanceCard.t) (draws : Draws)
    (s : GameState) : Prop :=
  length (tiles s) = 40%nat ∧
  is_Some (deck !! cardIndex draws) ∧
  ∀ t, t ∈ tiles s →
    (∀ tiers, Tile.rent t = Some tiers →
              is_Some (nthZ tiers (orNum (Tile.houseCount t) 0))) ∧
    (Tile.type t = TileType.STATION → Tile.group t = ColorGroup.STATION).

(** [processRoll] turns the player into [f player], moves them by the roll
    total and resolves the landing with double status [dbl]: on a playable
    board the intent returns a state; and where the tile reached neither
    jails nor draws a card, the player ends the intent at the position
    reached and with the jail state [f] gave them. *)
Definition rollMoves (deck : list ChanceCard.t) (kw : string)
    (draws : Draws) (s : GameState) (player : Player.t) (idx : nat)
    (f : Player.t → Player.t) (dbl : bool) (l : list GameLog.t) : Prop :=
  let total := d1 draws + d2 draws in
  let moved := advance total (f player) in
  (∃ l1, processRoll deck kw draws s player l =
         handleLanding deck kw draws
           (set_players (alter (advance total ∘ f) idx (players s))
                        (rolled draws s))
           (Player.id player) dbl l1) ∧
  (playable deck draws s →
   0 <= Player.position player + total < 80 →
   is_Some (processRoll deck kw draws s player l)) ∧
  ∀ s' l' tile,
    processRoll deck kw draws s player l = Some (s', l') →
    nthZ (tiles s) (Player.position moved) = Some tile →
    Tile.type tile ≠ TileType.GO_TO_JAIL →
    Tile.type tile ≠ TileType.CHANCE →
    Tile.type tile ≠ TileType.COMMUNITY_CHEST →
    jailView <$> players s' !! idx = Some (jailView moved).

(** The player list after rent [rent] has taken [players[pIdx]] below
    zero. *)
Definition ruined (ps : list Player.t) (pIdx oIdx : nat) (rent : Z)
  : list Player.t :=
  alter (Player.set_bankrupt true) pIdx
    (alter (λ p, Player.set_money (Player.money p + rent) p) oIdx
       (alter (λ p, Player.set_money (Player.money p - rent) p) pIdx ps)).

(** Two states that differ at most in their phase. *)
Definition forgetPhase (s : GameState) : GameState :=
  set_phase GamePhase.LOGIN s.

(** Two runs that fail together or return the same log and states that
    differ at most in their phase. *)
Definition samePhaseless (r1 r2 : option (GameState * list GameLog.t))
  : Prop :=
  prod_map forgetPhase id <$> r1 = prod_map forgetPhase id <$> r2.

(** The owner reference of [t], if any, names a player whose property list
    contains the id of [t]. *)
Definition ownerLists (ps : list Player.t) (t : Tile.t) : Prop :=
  match Tile.ownerId t with
  | Some o =>
    Exists (λ p, Player.id p = o ∧ Tile.id t ∈ Player.properties p) ps
  | None => True
  end.

#[global] Instance ownerLists_dec ps t : Decision (ownerLists ps t).
Proof. unfold ownerLists. destruct (Tile.ownerId t); apply _. Defined.

(** Every tile id in the property list of [p] names a tile whose owner
    reference is [p]. *)
Definition listsOwned (ts : list Tile.t) (p : Player.t) : Prop :=
  Forall (λ tid, Exists (λ t, Tile.id t = tid ∧ ownedBy (Player.id p) t) ts)
         (Player.properties p).

(** Mutual consistency of tile owners and property lists, as the
    specification words it. *)
Definition consistent (s : GameState) : Prop :=
  Forall (ownerLists (players s)) (tiles s) ∧
  Forall (listsOwned (tiles s)) (players s).

#[global] Instance consistent_dec s : Decision (consistent s).
Proof. unfold consistent, listsOwned. apply _. Defined.

(** What the host keeps: player ids are unique, every owned tile is listed
    by its owner, and the property list of every player who is not
    bankrupt names tiles of that player. *)
Definition sound (s : GameState) : Prop :=
  NoDup (Player.id <$> players s) ∧
  Forall (ownerLists (players s)) (tiles s) ∧
  Forall (λ p, Player.bankrupt p = false → listsOwned (tiles s) p)
         (players s).

(** The same in terms of array cells. *)
Definition soundCells (ps : list Player.t) (ts : list Tile.t) : Prop :=
  NoDup (Player.id <$> ps) ∧
  (∀ j t o, ts !! j = Some t → Tile.ownerId t = Some o →
     ∃ i p, ps !! i = Some p ∧ Player.id p = o ∧
            Tile.id t ∈ Player.properties p) ∧
  (∀ i p tid, ps !! i = Some p → Player.bankrupt p = false →
     tid ∈ Player.properties p →
     ∃ j t, ts !! j = Some t ∧ Tile.id t = tid ∧
            Tile.ownerId t = Some (Player.id p)).

(** One intent later: what a player object keeps.  The identity of the
    player is fixed, a bankrupt player stays bankrupt, and the property
    list only grows at its end. *)
Definition keepsPlayer (p p' : Player.t) : Prop :=
  Player.id p' = Player.id p ∧ Player.name p' = Player.name p ∧
  Player.color p' = Player.color p ∧ Player.icon p' = Player.icon p ∧
  Player.isAI p' = Player.isAI p ∧
  (Player.bankrupt p = true → Player.bankrupt p' = true) ∧
  Player.properties p `prefix_of` Player.properties p'.

(** One intent later: what a tile keeps.  The board configuration is
    fixed; only the owner and the building count move, and a building count
    between 0 and 5 stays there. *)
Definition keepsTile (t t' : Tile.t) : Prop :=
  Tile.id t' = Tile.id t ∧ Tile.name t' = Tile.name t ∧
  Tile.type t' = Tile.type t ∧ Tile.price t' = Tile.price t ∧
  Tile.rent t' = Tile.rent t ∧ Tile.group t' = Tile.group t ∧
  Tile.houseCost t' = Tile.houseCost t ∧
  Tile.isMortgaged t' = Tile.isMortgaged t ∧
  (0 <= orNum (Tile.houseCount t) 0 <= 5 →
   0 <= orNum (Tile.houseCount t') 0 <= 5).

Definition evolves (s s' : GameState) : Prop :=
  Forall2 keepsPlayer (players s) (players s') ∧
  Forall2 keepsTile (tiles s) (tiles s') ∧
  selectedTileId s' = selectedTileId s ∧
  currentUser s' = currentUser s ∧ roomId s' = roomId s ∧
  isHost s' = isHost s.

(** The board configuration of a tile and the identity of a player. *)
Definition tileConfig (t : Tile.t) :=
  (Tile.id t, Tile.name t, Tile.type t, Tile.price t, Tile.rent t,
   Tile.group t, Tile.houseCost t, Tile.isMortgaged t).

Definition playerIdentity (p : Player.t) :=
  (Player.id p, Player.name p, Player.color p, Player.icon p, Player.isAI p).

(** The money in the players' hands. *)
Definition totalMoney (ps : list Player.t) : Z :=
  foldr Z.add 0 (Player.money <$> ps).

(** A player stands on the ring, with counters in their ranges, and in
    jail only on the jail tile. *)
Definition onBoard (p : Player.t) : Prop :=
  0 <= Player.position p < 40 ∧
  0 <= Player.jailTurns p <= 2 ∧
  0 <= Player.consecutiveDoubles p <= 2 ∧
  (Player.isInJail p = true → Player.position p = 10).

#[global] Instance onBoard_dec p : Decision (onBoard p).
Proof. unfold onBoard. apply _. Defined.

(** Cards that keep a player on the ring. *)
Definition fairCard (c : ChanceCard.t) : Prop :=
  match ChanceCard.effectType c with
  | EffectType.MOVE_TO => 0 <= ChanceCard.value c < 40
  | EffectType.MOVE_STEPS => -40 <= ChanceCard.value c <= 40
  | _ => True
  end.

#[global] Instance fairCard_dec c : Decision (fairCard c).
Proof. unfold fairCard. destruct (ChanceCard.effectType c); apply _. Defined.

(** What [Math.floor(Math.random() * 6) + 1] and
    [Math.floor(Math.random() * CHANCE_CARDS.length)] can give. *)
Definition fairDraws (deck : list ChanceCard.t) (draws : Draws) : Prop :=
  1 <= d1 draws <= 6 ∧ 1 <= d2 draws <= 6 ∧
  (cardIndex draws < length deck)%nat.

(** A tile the rent computation can work on: six rent tiers where there
    are any, a building count between 0 and 5, and stations in the station
    group. *)
Definition tileOk (t : Tile.t) : Prop :=
  match Tile.rent t with
  | Some tiers => length tiers = 6%nat
  | None => True
  end ∧
  0 <= orNum (Tile.houseCount t) 0 <= 5 ∧
  (Tile.type t = TileType.STATION → Tile.group t = ColorGroup.STATION).

#[global] Instance tileOk_dec t : Decision (tileOk t).
Proof. unfold tileOk. destruct (Tile.rent t); apply _. Defined.

(** A game state the host can work on: a ring of forty such tiles, a turn
    pointer inside the roster, every player on the ring, and a deck that
    keeps them there. *)
Definition wellFormed (deck : list ChanceCard.t) (s : GameState) : Prop :=
  length (tiles s) = 40%nat ∧ Forall tileOk (tiles s) ∧
  (currentPlayerIndex s < length (players s))%nat ∧
  Forall onBoard (players s) ∧ Forall fairCard deck.

#[global] Instance wellFormed_dec deck s : Decision (wellFormed deck s).
Proof. unfold wellFormed. apply _. Defined.

(** The purchase gate of the main screen: [canBuy] for the tile the
    current player stands on, and the flag handed to the control panel
    ([!!canBuy && currentPlayer.money >= (currentTile.price || 0)]). *)
Definition canBuy (currentTile : Tile.t) : bool :=
  isBuyable (Tile.type currentTile) &&
  negb (bool_decide (is_Some (truthyStr (Tile.ownerId currentTile)))).

Definition panelCanBuy (currentPlayer : Player.t) (currentTile : Tile.t)
  : bool :=
  canBuy currentTile &&
  bool_decide (orNum (Tile.price currentTile) 0 <= Player.money currentPlayer).

(** The buttons of [ControlPanel] for [player] (the panel is handed the
    player on turn), each named by the intent its handler dispatches. *)
Definition panelButtons (player : Player.t) (phase : GamePhase.t)
    (canBuy : bool) : list ActionType.t :=
  let isMyTurn := negb (Player.isAI player) in
  (if bool_decide (phase = GamePhase.ROLLING) && isMyTurn then
     if Player.isInJail player then
       ActionType.ROLL ::
       (if decide (50 <= Player.money player)
        then [ActionType.PAY_BAIL] else [])
     else [ActionType.ROLL]
   else []) ++
  (if bool_decide (phase = GamePhase.ACTION) && isMyTurn then
     (if canBuy then [ActionType.BUY] else []) ++ [ActionType.PASS]
   else []) ++
  (if bool_decide (phase = GamePhase.END_TURN) && isMyTurn
   then [ActionType.END_TURN] else []) ++
  (* Surrender Button - Always visible for human player *)
  (if isMyTurn then [ActionType.SURRENDER] else []).

(** The number of tiles of group [g] that [pid] owns. *)
Definition ownedIn (g : ColorGroup.t) (pid : string) (ts : list Tile.t)
  : nat :=
  length (filter (λ t, Tile.group t = g ∧ ownedBy pid t) ts).

(** ** Rooms and the start of a game *)

Module RoomPlayer.
Record t := mk { id : string; name : string; isAI : bool; isHost : bool }.
End RoomPlayer.

Module RoomStatus.
Inductive t := WAITING | PLAYING.
End RoomStatus.

Module Room.
Record t := mk {
  id : string;
  name : string;
  hostId : string;
  players : list RoomPlayer.t;
  status : RoomStatus.t;
  maxPlayers : Z;
  createdAt : Z
}.
End Room.

(** [a[i % a.length]] on an array literal of strings (the two arrays it is
    used on have four entries). *)
Definition cycle (a : list string) (i : nat) : string :=
  default EmptyString (a !! (i `mod` length a)%nat).

Definition colors : list string :=
  ["#3b82f6"; "#ef4444"; "#eab308"; "#22c55e"].

Section StartGame.

(** [constants.ts] is not part of the sources. *)
Variable INITIAL_TILES : list Tile.t.
Variable INITIAL_MONEY : Z.

(** The four icons of human players, the icon of a computer player and the
    message of the first log entry are non-ASCII literals. *)
Variables icon0 icon1 icon2 icon3 aiIcon : string.
Variable startMessage : GameLog.msg.

Definition icons : list string := [icon0; icon1; icon2; icon3].

Definition gamePlayers (room : Room.t) : list Player.t :=
  imap (λ i p,
          Player.mk (RoomPlayer.id p) (RoomPlayer.name p) (cycle colors i)
            (if RoomPlayer.isAI p then aiIcon else cycle icons i)
            (RoomPlayer.isAI p) INITIAL_MONEY 0 false 0 0 [] false)
       (Room.players room).

Definition initialState (room : Room.t) : GameState :=
  mkGameState (gamePlayers room) 0
    ((λ t, Tile.set_houseCount (Some 0) (Tile.set_ownerId None t))
       <$> INITIAL_TILES)
    (1, 1) GamePhase.ROLLING [GameLog.mk startMessage GameLog.info]
    None None None false
    None                 (* Placeholder, replaced locally *)
    (Some (Room.id room))
    true.                (* Sent as template *)

(** [handleStartGameRequest]: the payload of the [start_game] message it
    emits, if any. *)
Definition handleStartGameRequest (gameState : GameState)
    (rooms : list Room.t) : option (string * GameState) :=
  match truthyStr (roomId gameState) with
  | None => None
  | Some rid =>
    if negb (isHost gameState) then None
    else
      match list_find (λ r, Room.id r = rid) rooms with
      | None => None
      | Some (_, room) => Some (rid, initialState room)
      end
  end.

End StartGame.

(** The [game_started] handler. *)
Definition game_started (prev initialState : GameState) : GameState :=
  set_isHost (isHost prev)
    (set_roomId (roomId prev)
      (set_currentUser (currentUser prev)   (* Keep local user session *)
        initialState)).

(** The states a game passes through from [s0] as the host executes
    intents, with whatever the dice and the deck can give. *)
Inductive plays (deck : list ChanceCard.t) (kw : string) (s0 : GameState)
  : GameState → Prop :=
  | plays_start : plays deck kw s0 s0
  | plays_intent s draws a s' :
    plays deck kw s0 s → fairDraws deck draws →
    executeGameLogic deck kw draws s a = Some s' →
    plays deck kw s0 s'.

(** ** The rule-based computer player ([geminiService.ts]) *)

Module AIAction.
Inductive t := BUY | PASS | BUILD | MORTGAGE | PAY_JAIL.
End AIAction.

(** [getAIDecision]; of the decision only the action is modelled, the
    [reasoning] text is never read by the caller.  Reading the type of a
    tile that is [undefined] throws. *)
Definition getAIDecision (gameState : GameState) (player : Player.t)
  : option AIAction.t :=
  let money := Player.money player in
  if decide (phase gameState = GamePhase.ACTION) then
    currentTile ← nthZ (tiles gameState) (Player.position player);
    if isBuyable (Tile.type currentTile) then
      let price := orNum (Tile.price currentTile) 0 in
      if decide (money < price) then Some AIAction.PASS
      else
        let groupTiles :=
          filter (λ t, Tile.group t = Tile.group currentTile ∧
                       Tile.group t ≠ ColorGroup.NONE) (tiles gameState) in
        let ownedByMeInGroup :=
          filter (ownedBy (Player.id player)) groupTiles in
        let completesSet :=
          bool_decide (length ownedByMeInGroup + 1 = length groupTiles)%nat in
        let isHotArea :=
          bool_decide (Tile.group currentTile = ColorGroup.ORANGE ∨
                       Tile.group currentTile = ColorGroup.RED) in
        let reserveCash :=
          if completesSet then 50
          else if isHotArea then 150
          else if decide (Tile.type currentTile = TileType.STATION) then 200
          else 300 in
        if decide (price + reserveCash <= money) then Some AIAction.BUY
        else if completesSet && bool_decide (price < money)
             then Some AIAction.BUY
             else Some AIAction.PASS
    else Some AIAction.PASS
  else Some AIAction.PASS.

(** The AI hook of the host: the intents [runAITurn] executes, in order. *)
Definition runAITurn (gameState : GameState) : option (list NetworkAction) :=
  (* Only Host runs AI *)
  if negb (isHost gameState) then Some []
  else if negb (bool_decide (phase gameState ∈
                  [GamePhase.ROLLING; GamePhase.ACTION; GamePhase.END_TURN]))
  then Some []
  else
    match players gameState !! currentPlayerIndex gameState with
    | None => Some []
    | Some currentPlayer =>
      if negb (Player.isAI currentPlayer) || Player.bankrupt currentPlayer
      then Some []
      else
        let intent ty := mkAction ty (Player.id currentPlayer) None in
        if decide (phase gameState = GamePhase.ROLLING) then
          if Player.isInJail currentPlayer &&
             bool_decide (500 <= Player.money currentPlayer)
          then Some [intent ActionType.PAY_BAIL; intent ActionType.ROLL]
          else Some [intent ActionType.ROLL]
        else if decide (phase gameState = GamePhase.ACTION) then
          decision ← getAIDecision gameState currentPlayer;
          Some match decision with
               | AIAction.BUY => [intent ActionType.BUY]
               | AIAction.PAY_JAIL => []     (* Handled above *)
               | _ => [intent ActionType.PASS]
               end
        else Some [intent ActionType.END_TURN]
    end.

(** [getGridStyle] ([Tile.tsx]): the grid column and row of a tile; the
    empty style outside the ring. *)
Definition getGridStyle (id : Z) : option (Z * Z) :=
  if decide (0 <= id ∧ id <= 10) then Some (11 - id, 11)
  else if decide (11 <= id ∧ id <= 19) then Some (1, 11 - (id - 10))
  else if decide (20 <= id ∧ id <= 30) then Some (id - 19, 1)
  else if decide (31 <= id ∧ id <= 39) then Some (11, id - 29)
  else None.

(** Landing on [tile], owned by [owner], costs [amount]: whoever else ends
    a move on the tile while the owner is solvent, [handleLanding] returns,
    logs a rent payment of [amount], takes it from the visitor and gives it
    to the owner. *)
Definition landingCharges (s : GameState) (tile : Tile.t) (owner : Player.t)
    (amount : Z) : Prop :=
  ∀ deck kw draws pid idx player oIdx dbl l,
    findPlayer (players s) pid = Some (idx, player) →
    nthZ (tiles s) (Player.position player) = Some tile →
    truthyStr (Tile.ownerId tile) = Some (Player.id owner) →
    Player.id owner ≠ pid →
    findPlayer (players s) (Player.id owner) = Some (oIdx, owner) →
    Player.bankrupt owner = false →
    ∃ s' l', handleLanding deck kw draws s pid dbl l = Some (s', l') ∧
      GameLog.mk (GameLog.RentPaid (Player.name player) (Player.name owner)
                    amount) GameLog.danger ∈ l' ∧
      Player.money <$> players s' !! idx
        = Some (Player.money player - amount) ∧
      Player.money <$> players s' !! oIdx
        = Some (Player.money owner + amount).

(** The cards that send the player to jail. *)
Definition jailCard (kw : string) (card : ChanceCard.t) : bool :=
  match ChanceCard.effectType card with
  | EffectType.GO_TO_JAIL => true
  | EffectType.MOVE_TO =>
    bool_decide (ChanceCard.value card = 10) &&
    includes (ChanceCard.description card) kw
  | _ => false
  end.

(** * Properties *)

(** ** The monad *)

Ltac unfold_M := unfold bind, ret, push, defined, throw in *.

Lemma bind_Some {A B} (m : M A) (k : A → M B) l b l' :
  bind m k l = Some (b, l') ↔
  ∃ a l1, m l = Some (a, l1) ∧ k a l1 = Some (b, l').
Proof.
  unfold bind. split.
  - destruct (m l) as [[a l1]|]; [eauto|done].
  - intros (a & l1 & -> & ?). done.
Qed.

(** ** Finding players *)

Lemma findPlayer_Some ps pid i p :
  findPlayer ps pid = Some (i, p) →
  ps !! i = Some p ∧ Player.id p = pid.
Proof. unfold findPlayer. rewrite list_find_Some. by intros (? & ? & _). Qed.

Lemma findPlayer_lt ps pid i p :
  findPlayer ps pid = Some (i, p) → (i < length ps)%nat.
Proof.
  intros [H _]%findPlayer_Some. by apply lookup_lt_Some in H.
Qed.

(** An in-place mutation that keeps the ids does not move anybody. *)
Lemma findPlayer_alter f j ps pid :
  (∀ p, Player.id (f p) = Player.id p) →
  findPlayer (alter f j ps) pid =
  prod_map id (λ p, if decide (fst <$> findPlayer ps pid = Some j)
                    then f p else p) <$> findPlayer ps pid.
Proof.
  intros Hid. unfold findPlayer.
  destruct (list_find (λ p, Player.id p = pid) ps) as [[i p]|] eqn:E; simpl.
  - apply list_find_Some in E as (Hi & Hp & Hleast).
    apply list_find_Some. case_decide as Hj.
    + injection Hj as ->. rewrite list_lookup_alter_eq, Hi. simpl.
      split_and!; [done|by rewrite Hid|].
      intros k q Hk Hlt. rewrite list_lookup_alter_ne in Hk by lia. eauto.
    + assert (i ≠ j) by congruence.
      rewrite list_lookup_alter_ne by done.
      split_and!; [done..|].
      intros k q Hk Hlt. destruct (decide (k = j)) as [->|].
      * rewrite list_lookup_alter_eq in Hk.
        destruct (ps !! j) as [q'|] eqn:Ej; simplify_eq/=.
        rewrite Hid. eauto.
      * rewrite list_lookup_alter_ne in Hk by done. eauto.
  - apply list_find_None. apply list_find_None in E.
    rewrite Forall_lookup in E |- *. intros k q Hk.
    destruct (decide (k = j)) as [->|].
    + rewrite list_lookup_alter_eq in Hk.
      destruct (ps !! j) as [q'|] eqn:Ej; simplify_eq/=.
      rewrite Hid. eauto.
    + rewrite list_lookup_alter_ne in Hk by done. eauto.
Qed.

Lemma findPlayer_alter_self f ps pid i p :
  (∀ p, Player.id (f p) = Player.id p) →
  findPlayer ps pid = Some (i, p) →
  findPlayer (alter f i ps) pid = Some (i, f p).
Proof.
  intros Hid E. rewrite findPlayer_alter, E by done. simpl.
  by rewrite decide_True.
Qed.

Lemma findPlayer_alter_other f ps pid i j p :
  (∀ p, Player.id (f p) = Player.id p) →
  findPlayer ps pid = Some (i, p) → i ≠ j →
  findPlayer (alter f j ps) pid = Some (i, p).
Proof.
  intros Hid E Hne. rewrite findPlayer_alter, E by done. simpl.
  rewrite decide_False; [done|congruence].
Qed.

Lemma lookup_alter_view {V} (view : Player.t → V) f (i j : nat)
    (ps : list Player.t) :
  (∀ p, view (f p) = view p) →
  view <$> alter f i ps !! j = view <$> ps !! j.
Proof.
  intros Hf. destruct (decide (i = j)) as [->|].
  - rewrite list_lookup_alter_eq. destruct (ps !! j); simpl; [|done].
    by rewrite Hf.
  - by rewrite list_lookup_alter_ne.
Qed.

Lemma charges_intro s tile owner l amount l1 :
  computeRent s tile owner l = Some (amount, l1) →
  charges s tile owner l amount.
Proof.
  intros Hrent. split; [eauto|].
  intros pid pIdx player oIdx dbl Hfind Hown Hne.
  pose proof (findPlayer_Some _ _ _ _ Hfind) as [Hidx _].
  pose proof (findPlayer_Some _ _ _ _ Hown) as [Hoidx _].
  unfold payRent. unfold_M. rewrite Hrent, Hown. simpl.
  rewrite list_lookup_alter_ne, list_lookup_alter_eq, Hidx by done. simpl.
  assert (∀ ps : list Player.t,
    ps = alter (λ p, Player.set_money (Player.money p + amount) p) oIdx
           (alter (λ p, Player.set_money (Player.money p - amount) p) pIdx
              (players s)) →
    Player.money <$> ps !! pIdx = Some (Player.money player - amount) ∧
    Player.money <$> ps !! oIdx = Some (Player.money owner + amount))
    as Hpaid.
  { intros ps ->.
    rewrite list_lookup_alter_ne, !list_lookup_alter_eq by done.
    rewrite list_lookup_alter_ne, Hidx, Hoidx by done. done. }
  destruct (Hpaid _ eq_refl) as [Hp Ho].
  repeat case_decide; eexists _, _; (split; [done|]); simpl;
    rewrite ?(lookup_alter_view Player.money (Player.set_bankrupt true))
      by done; done.
Qed.

(** ** Releasing tiles *)

Lemma releaseTiles_lookup pid ts i :
  releaseTiles pid ts !! i =
  (λ t, if decide (ownedBy pid t)
        then Tile.set_houseCount (Some 0) (Tile.set_ownerId None t)
        else t) <$> ts !! i.
Proof. unfold releaseTiles. apply list_lookup_fmap. Qed.

(** Every tile of [pid] comes out unowned and without buildings; every
    other tile is untouched. *)
Lemma releaseTiles_spec pid ts i t :
  ts !! i = Some t →
  ∃ t', releaseTiles pid ts !! i = Some t' ∧
    if decide (ownedBy pid t)
    then Tile.ownerId t' = None ∧ Tile.houseCount t' = Some 0 ∧
         Tile.id t' = Tile.id t
    else t' = t.
Proof.
  intros Hi. rewrite releaseTiles_lookup, Hi. simpl.
  eexists. split; [done|]. by case_decide.
Qed.

Lemma releaseTiles_none_owned pid ts :
  Forall (λ t, ¬ ownedBy pid t) (releaseTiles pid ts).
Proof.
  unfold releaseTiles. rewrite Forall_fmap. apply Forall_forall.
  intros t _. simpl. by case_decide.
Qed.

Lemma releaseTiles_length pid ts :
  length (releaseTiles pid ts) = length ts.
Proof. unfold releaseTiles. by rewrite length_fmap. Qed.

(** ** Turn rotation *)

Lemma skipBankrupt_total ps budget i :
  (i < length ps)%nat → is_Some (skipBankrupt ps budget i).
Proof.
  revert i. induction budget as [|b IH]; intros i Hi; simpl;
    destruct (lookup_lt_is_Some_2 ps i Hi) as [p ->]; [done|].
  destruct (Player.bankrupt p); [|done].
  apply IH. apply Nat.mod_upper_bound. lia.
Qed.

Lemma processEndTurn_total s l :
  (0 < length (players s))%nat →
  ∃ s', processEndTurn s l = Some (s', l) ∧
        players s' = players s ∧ tiles s' = tiles s ∧ logs s' = logs s.
Proof.
  intros Hn. unfold processEndTurn.
  destruct (skipBankrupt_total (players s) (length (players s))
              ((currentPlayerIndex s + 1) `mod` length (players s))%nat)
    as [next Hnext]; [apply Nat.mod_upper_bound; lia|].
  unfold_M. rewrite Hnext. case_decide; eauto.
Qed.

(** The two outcomes of a rotation. *)
Lemma processEndTurn_spec s l s' l' :
  processEndTurn s l = Some (s', l') →
  l' = l ∧
  ((length (activePlayers (players s)) ≤ 1)%nat ∧
     s' = set_phase GamePhase.GAME_OVER
            (set_winner (firstActive (players s)) s)
   ∨ (1 < length (activePlayers (players s)))%nat ∧
     ∃ next, s' = set_waitingForDoublesTurn false
                   (set_phase GamePhase.ROLLING
                     (set_currentPlayerIndex next s))).
Proof.
  unfold processEndTurn. unfold_M.
  destruct (skipBankrupt _ _ _) as [next|]; [|done].
  case_decide; intros [= <- <-]; (split; [done|]); [left|right].
  - done.
  - split; [lia|eauto].
Qed.

(** ** C1 *)

(** C1 (code defect).  Two players are left and a rent payment takes
    alice below zero: she is marked bankrupt and bob is recorded as the
    winner in the terminal phase -- but [handleLanding] returns before it
    releases her tiles, so Brown 1 still names her as its owner.  (The
    surrender path releases the tiles before it checks for a winner.) *)
Theorem C1_rent_game_over_keeps_tiles :
  ∃ s', Demo.run (Demo.roll 1 2) Demo.duel
          (Demo.act ActionType.ROLL "alice") = Some s' ∧
    length (activePlayers (players Demo.duel)) = 2%nat ∧
    Player.money <$> players s' !! 0%nat = Some (-1) ∧
    Player.bankrupt <$> players s' !! 0%nat = Some true ∧
    Player.id <$> winnerPlayer s' = Some "bob" ∧
    phase s' = GamePhase.GAME_OVER ∧
    Tile.ownerId <$> tiles s' !! 1%nat = Some (Some "alice") ∧
    tiles s' = tiles Demo.duel.
Proof. eexists. split; [vm_compute; reflexivity|]. by vm_compute. Qed.

(** ** C5 *)

(** C5, as the claim states it, fails: bob sends a roll intent during
    alice's turn; the host returns the state it had, and its log has no new
    entry. *)
Lemma C5_wrong_turn_is_not_logged :
  ∃ s', Demo.run (Demo.roll 1 2) Demo.duel
          (Demo.act ActionType.ROLL "bob") = Some s' ∧
        Player.id <$> players Demo.duel !! currentPlayerIndex Demo.duel
          = Some "alice" ∧
        logs s' = logs Demo.duel.
Proof. eexists. split; [vm_compute; reflexivity|]. by vm_compute. Qed.

(** C5 (amended).  An intent of a player who is not the current-turn
    player is dropped silently: the host keeps the very same state, log
    included.  A surrender intent is accepted from any player at any time:
    it logs the surrender, marks that player bankrupt and releases their
    tiles; if it was their turn the turn is rotated at once, otherwise the
    winner is looked for in place. *)
Theorem C5_turn_validation deck kw draws s a idx player current :
  findPlayer (players s) (playerId a) = Some (idx, player) →
  players s !! currentPlayerIndex s = Some current →
  (Player.id current ≠ Player.id player →
   actionType a ≠ ActionType.SURRENDER →
   executeGameLogic deck kw draws s a = Some s) ∧
  (actionType a = ActionType.SURRENDER →
   let quit := surrendered s idx player in
   let entry :=
     GameLog.mk (GameLog.Surrendered (Player.name player)) GameLog.danger in
   Player.bankrupt <$> players quit !! idx = Some true ∧
   Forall (λ t, ¬ ownedBy (Player.id player) t) (tiles quit) ∧
   ∃ s', executeGameLogic deck kw draws s a
           = Some (set_logs (logs s ++ [entry]) s') ∧
     if decide (Player.id current = Player.id player)
     then processEndTurn quit (logs s ++ [entry])
            = Some (s', logs s ++ [entry])
     else if decide (length (activePlayers (players quit)) ≤ 1)%nat
     then s' = set_phase GamePhase.GAME_OVER
                 (set_winner (firstActive (players quit)) quit)
     else s' = quit).
Proof.
  intros Hfind Hcur.
  pose proof (findPlayer_Some _ _ _ _ Hfind) as [Hidx Hid].
  split.
  - intros Hne Hty. unfold executeGameLogic. rewrite Hfind, Hcur.
    rewrite bool_decide_eq_false_2 by done.
    by rewrite (bool_decide_eq_false_2 _ Hty).
  - intros Hty quit entry. split_and!.
    + subst quit. unfold surrendered. simpl.
      by rewrite list_lookup_alter_eq, Hidx.
    + apply releaseTiles_none_owned.
    + unfold executeGameLogic. rewrite Hfind, Hcur, Hty.
      rewrite (bool_decide_eq_true_2 (_ = ActionType.SURRENDER)) by done.
      rewrite andb_false_r.
      unfold processSurrender. unfold_M.
      replace (findPlayer (players s) (Player.id player))
        with (Some (idx, player)) by (by rewrite Hid).
      simpl. rewrite Hcur. unfold ret. simpl.
      fold (surrendered s idx player). fold quit.
      case_bool_decide as Hturn.
      * destruct (processEndTurn_total quit (logs s ++ [entry]))
          as (s' & Hend & _).
        { subst quit. unfold surrendered. simpl. rewrite length_alter.
          apply lookup_lt_Some in Hidx. lia. }
        exists s'. fold entry. rewrite Hend. by rewrite decide_True.
      * fold entry.
        case_decide as Hwin; (eexists; split; [done|]);
          by rewrite decide_False.
Qed.

Lemma C5_turn_validation_witness :
  ∃ s', Demo.run (Demo.roll 1 2) Demo.duel
          (Demo.act ActionType.SURRENDER "bob")
        = Some s' ∧ phase s' = GamePhase.GAME_OVER ∧ winner s' = Some 0%nat.
Proof.
  destruct (C5_turn_validation Demo.deck Demo.keyword (Demo.roll 1 2)
              Demo.duel (Demo.act ActionType.SURRENDER "bob") 1%nat
              (Demo.seat "bob" "Bob" 1500 20 [3])
              (Demo.seat "alice" "Alice" 3 0 [1]))
    as [_ H]; [reflexivity|reflexivity|].
  destruct (H eq_refl) as (_ & _ & s' & Hrun & Hs').
  eexists. split; [exact Hrun|].
  rewrite decide_False in Hs' by (by vm_compute).
  rewrite decide_True in Hs' by (vm_compute; lia).
  subst s'. by vm_compute.
Defined.

(** ** C6 *)

(** C6, as the claim states it, fails: the guest has tile 5 selected; after
    the broadcast of a host state that has none selected, the guest's
    selection is gone. *)
Lemma C6_selection_is_overwritten :
  isHost Demo.guest = false ∧
  selectedTileId Demo.guest = Some 5 ∧
  selectedTileId Demo.duel = None ∧
  selectedTileId (game_state_sync Demo.guest Demo.duel) = None.
Proof. by vm_compute. Qed.

(** C6 (amended).  A non-host process that receives a broadcast adopts
    every field of the received state, the selected-tile id included; what
    it keeps of its own is its user session ([currentUser]) and its
    [roomId], and it stays a non-host. *)
Theorem C6_sync_adopts_broadcast local synced :
  isHost local = false →
  let s' := game_state_sync local synced in
  (currentUser s' = currentUser local ∧ roomId s' = roomId local ∧
   isHost s' = false) ∧
  selectedTileId s' = selectedTileId synced ∧
  players s' = players synced ∧
  currentPlayerIndex s' = currentPlayerIndex synced ∧
  tiles s' = tiles synced ∧ dice s' = dice synced ∧
  phase s' = phase synced ∧ logs s' = logs synced ∧
  winner s' = winner synced ∧ currentCard s' = currentCard synced ∧
  waitingForDoublesTurn s' = waitingForDoublesTurn synced.
Proof. intros H. unfold game_state_sync. rewrite H. simpl. done. Qed.

Lemma C6_sync_adopts_broadcast_witness :
  isHost Demo.guest = false ∧
  selectedTileId (game_state_sync Demo.guest Demo.duel)
    = selectedTileId Demo.duel ∧
  currentUser (game_state_sync Demo.guest Demo.duel) = Some ("bob", "Bob").
Proof.
  split; [reflexivity|].
  destruct (C6_sync_adopts_broadcast Demo.guest Demo.duel eq_refl)
    as ((Huser & _) & Hsel & _).
  split; [exact Hsel|]. rewrite Huser. reflexivity.
Defined.

(** ** Colour groups *)

Lemma checkOwnsGroup_holds pid g ts :
  checkOwnsGroup (Some pid) g ts = true ↔ holdsGroup pid g ts.
Proof.
  unfold checkOwnsGroup, holdsGroup. simpl.
  destruct pid as [|c pid]; [split; [done|by intros [? _]]|].
  case_decide as Hg; [split; [done|by intros (_ & ? & _)]|].
  rewrite andb_true_iff, !bool_decide_eq_true, Forall_forall.
  split.
  - intros [Hlen Hall]. split_and!; [done..| |].
    + destruct (filter _ ts) as [|t ?] eqn:E; [simpl in Hlen; lia|].
      assert (t ∈ filter (λ t, Tile.group t = g) ts) as Ht
        by (rewrite E; left).
      apply list_elem_of_filter in Ht as [? ?]. eauto.
    + intros t Ht Hgt. apply Hall. by apply list_elem_of_filter.
  - intros (_ & _ & (t & Ht & Hgt) & Hall). split.
    + assert (t ∈ filter (λ t, Tile.group t = g) ts) as Hin
        by (by apply list_elem_of_filter).
      destruct (filter _ ts); [by apply elem_of_nil in Hin|simpl; lia].
    + intros t' [? ?]%list_elem_of_filter. eauto.
Qed.

(** ** C4 *)

(** C4, as the claim states it, fails: alice upgrades Brown 1, which nobody
    owns; the host deducts the building cost and adds a building. *)
Lemma C4_upgrade_without_ownership :
  ∃ s', Demo.run (Demo.roll 1 2) Demo.shopping
          (Demo.act ActionType.UPGRADE "alice") = Some s' ∧
    Tile.ownerId <$> tiles Demo.shopping !! 1%nat = Some None ∧
    Tile.houseCount <$> tiles Demo.shopping !! 1%nat = Some (Some 0) ∧
    Tile.houseCount <$> tiles s' !! 1%nat = Some (Some 1) ∧
    Player.money <$> players Demo.shopping !! 0%nat = Some 1500 ∧
    Player.money <$> players s' !! 0%nat = Some 1450.
Proof. eexists. split; [vm_compute; reflexivity|]. by vm_compute. Qed.

(** C4 (amended).  [processUpgrade] changes the state only when a tile is
    selected on the host, that tile has a building cost, the acting player
    can afford it and the building count is below 5 -- and it always does
    so then; exactly the building cost is deducted from the acting player
    and the count of that tile goes up by exactly one.  Neither the owner of
    the tile nor the holder of its colour group is looked at. *)
Theorem C4_processUpgrade s player pIdx l :
  findPlayer (players s) (Player.id player) = Some (pIdx, player) →
  (∀ sel tIdx tile cost,
     selectedTileId s = Some sel →
     findTile (tiles s) sel = Some (tIdx, tile) →
     truthyNum (Tile.houseCost tile) = Some cost →
     cost <= Player.money player →
     orNum (Tile.houseCount tile) 0 < 5 →
     let level := orNum (Tile.houseCount tile) 0 + 1 in
     processUpgrade s player l =
     Some (set_tiles
             (<[tIdx := Tile.set_houseCount (Some level) tile]> (tiles s))
             (set_players
                (alter (λ p, Player.set_money (Player.money p - cost) p)
                       pIdx (players s)) s),
           l ++ [GameLog.mk (GameLog.Upgraded (Player.name player)
                               (Tile.name tile) level cost)
                            GameLog.success])) ∧
  (∀ s' l', processUpgrade s player l = Some (s', l') → s' ≠ s →
     ∃ sel tIdx tile cost,
       selectedTileId s = Some sel ∧
       findTile (tiles s) sel = Some (tIdx, tile) ∧
       truthyNum (Tile.houseCost tile) = Some cost ∧
       cost <= Player.money player ∧
       orNum (Tile.houseCount tile) 0 < 5).
Proof.
  intros Hfind.
  assert (∀ tile, atMaxLevel tile = false ↔
                  orNum (Tile.houseCount tile) 0 < 5) as Hmax.
  { intros tile. unfold atMaxLevel, orNum.
    destruct (truthyNum (Tile.houseCount tile)) as [n|]; simpl; [|done].
    rewrite bool_decide_eq_false. lia. }
  split.
  - intros sel tIdx tile cost Hsel Htile Hcost Hafford Hlevel level.
    unfold processUpgrade. rewrite Hsel, Htile, Hcost.
    rewrite decide_False by lia.
    apply Hmax in Hlevel. rewrite Hlevel, Hfind. reflexivity.
  - intros s' l'. unfold processUpgrade.
    destruct (selectedTileId s) as [sel|]; [|by intros [= <- _]].
    destruct (findTile (tiles s) sel) as [[tIdx tile]|] eqn:Htile;
      [|by intros [= <- _]].
    destruct (truthyNum (Tile.houseCost tile)) as [cost|] eqn:Hcost;
      [|by intros [= <- _]].
    case_decide as Hafford; [by intros [= <- _]|].
    destruct (atMaxLevel tile) eqn:Hlevel; [by intros [= <- _]|].
    intros _ _. exists sel, tIdx, tile, cost.
    split_and!; [done..|lia|by apply Hmax].
Qed.

Lemma C4_processUpgrade_witness :
  ∃ s' l', processUpgrade Demo.shopping
             (Demo.seat "alice" "Alice" 1500 0 []) [] = Some (s', l') ∧
    Tile.houseCount <$> tiles s' !! 1%nat = Some (Some 1) ∧
    Player.money <$> players s' !! 0%nat = Some 1450.
Proof.
  destruct (C4_processUpgrade Demo.shopping
              (Demo.seat "alice" "Alice" 1500 0 []) 0%nat [] eq_refl)
    as [H _].
  eexists _, _. split.
  - apply (H 1 1%nat (Demo.street 1 "Brown 1" ColorGroup.BROWN 60 2 50) 50);
      [reflexivity|reflexivity|reflexivity|simpl; lia|reflexivity].
  - split; reflexivity.
Defined.

(** ** Rolling and moving *)

Lemma advance_position steps p :
  0 <= Player.position p + steps < 80 →
  Player.position (advance steps p) = (Player.position p + steps) `mod` 40.
Proof.
  intros H. unfold advance. case_decide; [|case_decide; [lia|]]; simpl.
  - apply Z.mod_unique with 1; lia.
  - symmetry. apply Z.mod_small. lia.
Qed.

Lemma advance_fields steps p :
  Player.id (advance steps p) = Player.id p ∧
  Player.isInJail (advance steps p) = Player.isInJail p ∧
  Player.jailTurns (advance steps p) = Player.jailTurns p ∧
  Player.consecutiveDoubles (advance steps p) = Player.consecutiveDoubles p ∧
  Player.bankrupt (advance steps p) = Player.bankrupt p ∧
  Player.properties (advance steps p) = Player.properties p ∧
  Player.money (advance steps p) =
    Player.money p + (if decide (40 <= Player.position p + steps)
                      then 200 else 0).
Proof.
  unfold advance. repeat case_decide; simpl; split_and!; try done; lia.
Qed.

Lemma movePlayer_lands deck kw draws s steps pid dbl idx p l :
  findPlayer (players s) pid = Some (idx, p) →
  movePlayer deck kw draws s steps pid dbl l =
  handleLanding deck kw draws
    (set_players (alter (advance steps) idx (players s)) s) pid dbl
    (if decide (40 <= Player.position p + steps)
     then l ++ [GameLog.mk (GameLog.PassedStart (Player.name p))
                           GameLog.success]
     else l).
Proof.
  intros H. unfold movePlayer. unfold_M. rewrite H. simpl.
  by case_decide.
Qed.

(** A roll that leads to a move: [f] is what [processRoll] does to the
    player before it calls [movePlayer]. *)
Lemma movePlayer_after deck kw draws s player idx f steps dbl l :
  findPlayer (players s) (Player.id player) = Some (idx, player) →
  (∀ p, Player.id (f p) = Player.id p) →
  (∀ p, Player.position (f p) = Player.position p) →
  movePlayer deck kw draws
    (set_players (alter f idx (players s)) (rolled draws s)) steps
    (Player.id player) dbl l =
  handleLanding deck kw draws
    (set_players (alter (advance steps ∘ f) idx (players s))
                 (rolled draws s))
    (Player.id player) dbl
    (if decide (40 <= Player.position player + steps)
     then l ++ [GameLog.mk (GameLog.PassedStart (Player.name (f player)))
                           GameLog.success]
     else l).
Proof.
  intros Hfind Hid Hpos.
  erewrite movePlayer_lands
    by (simpl; by apply findPlayer_alter_self).
  simpl. rewrite list_alter_alter_eq, Hpos. done.
Qed.

(** Landing on a tile that neither jails nor draws a card leaves the
    position and the jail state of the mover as they are. *)
Lemma handleLanding_keeps_jailView deck kw draws s pid dbl idx p tile l s' l' :
  findPlayer (players s) pid = Some (idx, p) →
  nthZ (tiles s) (Player.position p) = Some tile →
  Tile.type tile ≠ TileType.GO_TO_JAIL →
  Tile.type tile ≠ TileType.CHANCE →
  Tile.type tile ≠ TileType.COMMUNITY_CHEST →
  handleLanding deck kw draws s pid dbl l = Some (s', l') →
  jailView <$> players s' !! idx = Some (jailView p).
Proof.
  intros Hfind Htile Hj Hc Hcc.
  pose proof (findPlayer_Some _ _ _ _ Hfind) as [Hidx _].
  unfold handleLanding, payRent. rewrite Hfind, Htile. unfold_M. simpl.
  rewrite decide_False by done.
  rewrite decide_False by (by intros [|]).
  intros H.
  repeat (first [ case_decide | case_match ]; unfold ret in *;
          simplify_eq/=; try done).
  all: rewrite ?lookup_alter_view by done; rewrite ?Hidx; try done.
  all: match goal with
       | H : alter _ _ _ !! _ = Some ?q |- _ =>
         apply (f_equal (fmap jailView)) in H;
         rewrite !lookup_alter_view, Hidx in H by done
       end.
  all: cbv [fmap option_fmap option_map] in *; congruence.
Qed.

(** ** Landing always resolves *)

Lemma nthZ_elem_of {A} (l : list A) i x : nthZ l i = Some x → x ∈ l.
Proof.
  unfold nthZ. case_decide; [|done]. apply list_elem_of_lookup_2.
Qed.

Lemma nthZ_is_Some {A} (l : list A) i :
  0 <= i < Z.of_nat (length l) → is_Some (nthZ l i).
Proof.
  intros H. unfold nthZ. rewrite decide_True by lia.
  apply lookup_lt_is_Some_2. lia.
Qed.

Lemma truthyStr_Some o x : truthyStr o = Some x → o = Some x.
Proof. destruct o as [[|c s]|]; simpl; congruence. Qed.

Lemma computeRent_returns deck draws s tile owner l :
  playable deck draws s → tile ∈ tiles s →
  ownedBy (Player.id owner) tile →
  is_Some (computeRent s tile owner l).
Proof.
  intros (_ & _ & Hwf) Hin Hown. destruct (Hwf tile Hin) as [Hrent Hgroup].
  unfold computeRent. unfold_M.
  destruct (Tile.type tile) eqn:Hty; try done.
  - destruct (Tile.rent tile) as [tiers|]; simpl.
    + destruct (Hrent tiers eq_refl) as [r ->]. simpl.
      by destruct (_ && _).
    + by destruct (_ && _).
  - rewrite decide_False; [done|].
    assert (tile ∈ filter (λ t, Tile.group t = ColorGroup.STATION ∧
                                ownedBy (Player.id owner) t) (tiles s))
      as Hf by (apply list_elem_of_filter; auto).
    destruct (filter _ (tiles s)); [by apply elem_of_nil in Hf|done].
Qed.

Lemma payRent_returns deck draws s pid pIdx player tile owner oIdx dbl l :
  playable deck draws s → tile ∈ tiles s →
  ownedBy (Player.id owner) tile →
  findPlayer (players s) pid = Some (pIdx, player) →
  findPlayer (players s) (Player.id owner) = Some (oIdx, owner) →
  is_Some (payRent s pid pIdx player tile owner dbl l).
Proof.
  intros Hwf Hin Hown Hfind Hofind.
  destruct (computeRent_returns deck draws s tile owner l Hwf Hin Hown)
    as [[rent l1] Hrent].
  pose proof (findPlayer_lt _ _ _ _ Hfind) as Hlt.
  unfold payRent. unfold_M. rewrite Hrent, Hofind. simpl.
  destruct (lookup_lt_is_Some_2
              (alter (λ p, Player.set_money (Player.money p + rent) p) oIdx
                 (alter (λ p, Player.set_money (Player.money p - rent) p)
                    pIdx (players s))) pIdx) as [payer ->].
  { by rewrite !length_alter. }
  simpl. repeat case_decide; done.
Qed.

Lemma applyChanceEffect_returns kw s pid card dbl idx player l :
  findPlayer (players s) pid = Some (idx, player) →
  is_Some (applyChanceEffect kw s pid card dbl l).
Proof.
  intros Hfind. unfold applyChanceEffect. unfold_M. rewrite Hfind. simpl.
  destruct (ChanceCard.effectType card); try done.
  by destruct (_ && _).
Qed.

(** On a playable board the landing of a player who stands on the ring is
    always resolved. *)
Lemma handleLanding_returns deck kw draws s pid dbl idx player l :
  playable deck draws s →
  findPlayer (players s) pid = Some (idx, player) →
  0 <= Player.position player < 40 →
  is_Some (handleLanding deck kw draws s pid dbl l).
Proof.
  intros Hwf Hfind Hpos.
  destruct (nthZ_is_Some (tiles s) (Player.position player))
    as [tile Htile]; [destruct Hwf as [-> _]; lia|].
  pose proof (nthZ_elem_of _ _ _ Htile) as Hin.
  assert (∀ o, truthyStr (Tile.ownerId tile) = Some o → o ≠ pid →
    is_Some
      (match findPlayer (players s) o with
       | Some (_, owner) =>
         if Player.bankrupt owner
         then λ l0, Some (landingPhase dbl s, l0)
         else payRent s pid idx player tile owner dbl
       | None => λ l0, Some (landingPhase dbl s, l0)
       end (l ++ [GameLog.mk (GameLog.Arrived (Player.name player)
                                (Tile.name tile)) GameLog.info]))) as Hrent.
  { intros o Ho Hne.
    destruct (findPlayer (players s) o) as [[oIdx owner]|] eqn:Hown; [|done].
    destruct (Player.bankrupt owner); [done|].
    pose proof (findPlayer_Some _ _ _ _ Hown) as [_ Hoid].
    eapply payRent_returns; [done..| |done|by rewrite Hoid].
    unfold ownedBy. rewrite Hoid. by apply truthyStr_Some. }
  unfold handleLanding. rewrite Hfind, Htile. unfold_M.
  unfold isBuyable, ret.
  destruct (Tile.type tile) eqn:Hty; simpl; try done.
  - destruct (truthyStr (Tile.ownerId tile)) as [o|] eqn:Ho; [|done].
    case_decide; [done|]. by apply Hrent.
  - destruct Hwf as (_ & [card ->] & _). simpl.
    by eapply applyChanceEffect_returns.
  - destruct Hwf as (_ & [card ->] & _). simpl.
    by eapply applyChanceEffect_returns.
  - destruct (truthyStr (Tile.ownerId tile)) as [o|] eqn:Ho; [|done].
    case_decide; [done|]. by apply Hrent.
  - destruct (truthyStr (Tile.ownerId tile)) as [o|] eqn:Ho; [|done].
    case_decide; [done|]. by apply Hrent.
Qed.

Lemma rollMoves_intro deck kw draws s player idx f dbl l l0 :
  findPlayer (players s) (Player.id player) = Some (idx, player) →
  (∀ p, Player.id (f p) = Player.id p) →
  (∀ p, Player.position (f p) = Player.position p) →
  processRoll deck kw draws s player l =
    movePlayer deck kw draws
      (set_players (alter f idx (players s)) (rolled draws s))
      (d1 draws + d2 draws) (Player.id player) dbl l0 →
  rollMoves deck kw draws s player idx f dbl l.
Proof.
  intros Hfind Hid Hpos Hroll.
  rewrite movePlayer_after in Hroll by done.
  assert (findPlayer
            (alter (advance (d1 draws + d2 draws) ∘ f) idx (players s))
            (Player.id player)
          = Some (idx, advance (d1 draws + d2 draws) (f player))) as Hmoved.
  { apply (findPlayer_alter_self (advance _ ∘ f)); [|done].
    intros p. simpl. rewrite <- (Hid p). apply advance_fields. }
  split_and!; [eauto|..].
  - intros Hwf Hrange. rewrite Hroll.
    eapply handleLanding_returns; [exact Hwf|exact Hmoved|].
    rewrite advance_position by (by rewrite Hpos).
    apply Z.mod_pos_bound. lia.
  - intros s' l' tile Hrun Htile Hj Hc Hcc. rewrite Hroll in Hrun.
    by apply (handleLanding_keeps_jailView deck kw draws _ _ _ idx
                (advance (d1 draws + d2 draws) (f player)) tile) in Hrun.
Qed.

(** The five branches of [processRoll]. *)
Lemma processRoll_jail_double deck kw draws s player idx l :
  findPlayer (players s) (Player.id player) = Some (idx, player) →
  Player.isInJail player = true → d1 draws = d2 draws →
  processRoll deck kw draws s player l =
  movePlayer deck kw draws
    (set_players (alter Player.release idx (players s)) (rolled draws s))
    (d1 draws + d2 draws) (Player.id player) false
    (l ++ [GameLog.mk (GameLog.JailDouble (Player.name player)
                         (d1 draws) (d2 draws)) GameLog.success]).
Proof.
  intros Hfind Hjail Hdbl. unfold processRoll. unfold_M.
  rewrite Hfind, Hjail. simpl. by rewrite bool_decide_eq_true_2.
Qed.

Lemma processRoll_jail_forced deck kw draws s player idx l :
  findPlayer (players s) (Player.id player) = Some (idx, player) →
  Player.isInJail player = true → d1 draws ≠ d2 draws →
  2 <= Player.jailTurns player →
  processRoll deck kw draws s player l =
  movePlayer deck kw draws
    (set_players
       (alter (λ p, Player.release
                      (Player.set_money (Player.money p - 50) p))
              idx (players s)) (rolled draws s))
    (d1 draws + d2 draws) (Player.id player) false
    (l ++ [GameLog.mk (GameLog.JailForcedBail (Player.name player))
                      GameLog.warning]).
Proof.
  intros Hfind Hjail Hdbl Hturns. unfold processRoll. unfold_M.
  rewrite Hfind, Hjail. simpl. rewrite bool_decide_eq_false_2 by done.
  by rewrite decide_True.
Qed.

Lemma processRoll_jail_failed deck kw draws s player idx l :
  findPlayer (players s) (Player.id player) = Some (idx, player) →
  Player.isInJail player = true → d1 draws ≠ d2 draws →
  Player.jailTurns player < 2 →
  processRoll deck kw draws s player l =
  Some (set_phase GamePhase.END_TURN
          (set_players
             (alter (λ p, Player.set_consecutiveDoubles 0
                            (Player.set_jailTurns (Player.jailTurns p + 1) p))
                    idx (players s)) (rolled draws s)),
        l ++ [GameLog.mk (GameLog.JailFailed (Player.name player)
                            (d1 draws + d2 draws)) GameLog.warning]).
Proof.
  intros Hfind Hjail Hdbl Hturns. unfold processRoll. unfold_M.
  rewrite Hfind, Hjail. simpl. rewrite bool_decide_eq_false_2 by done.
  by rewrite decide_False by lia.
Qed.

Lemma processRoll_speeding deck kw draws s player idx l :
  findPlayer (players s) (Player.id player) = Some (idx, player) →
  Player.isInJail player = false → d1 draws = d2 draws →
  Player.consecutiveDoubles player + 1 = 3 →
  processRoll deck kw draws s player l =
  Some (set_phase GamePhase.END_TURN
          (set_players (alter Player.jail idx (players s)) (rolled draws s)),
        l ++ [GameLog.mk (GameLog.Speeding (Player.name player))
                         GameLog.danger]).
Proof.
  intros Hfind Hjail Hdbl Hcount. unfold processRoll. unfold_M.
  rewrite Hfind, Hjail. simpl. rewrite bool_decide_eq_true_2 by done.
  by rewrite decide_True.
Qed.

Lemma processRoll_free_move deck kw draws s player idx l :
  findPlayer (players s) (Player.id player) = Some (idx, player) →
  Player.isInJail player = false →
  let dbl := bool_decide (d1 draws = d2 draws) in
  let next := if dbl then Player.consecutiveDoubles player + 1 else 0 in
  next ≠ 3 →
  processRoll deck kw draws s player l =
  movePlayer deck kw draws
    (set_players (alter (Player.set_consecutiveDoubles next) idx (players s))
                 (rolled draws s))
    (d1 draws + d2 draws) (Player.id player) dbl
    (l ++ [GameLog.mk (GameLog.Rolled (Player.name player)
                         (d1 draws + d2 draws) (d1 draws) (d2 draws) dbl)
                      GameLog.info]).
Proof.
  intros Hfind Hjail dbl next Hnext. unfold processRoll. unfold_M.
  rewrite Hfind, Hjail. simpl. fold dbl. fold next.
  by rewrite decide_False.
Qed.

(** ** C7 *)

(** C7.  A roll while jailed.  A double releases the player, resets the
    jail-turn and consecutive-doubles counters and moves the player by the
    roll total.  A non-double with the jail-turn counter at 2 releases the
    player as well, deducts the $50 bail and still moves the player by the
    roll total.  Any other non-double increments the jail-turn counter and
    ends the turn (phase [END_TURN]) with no movement. *)
Theorem C7_jailed_roll deck kw draws s player idx l :
  findPlayer (players s) (Player.id player) = Some (idx, player) →
  Player.isInJail player = true →
  0 <= Player.position player < 40 →
  1 <= d1 draws <= 6 → 1 <= d2 draws <= 6 →
  let total := d1 draws + d2 draws in
  let bonus := if decide (40 <= Player.position player + total)
               then 200 else 0 in
  let there := (Player.position player + total) `mod` 40 in
  (d1 draws = d2 draws →
   let f := Player.release in
   rollMoves deck kw draws s player idx f false l ∧
   jailView (advance total (f player)) = (there, false, 0, 0) ∧
   Player.money (advance total (f player)) = Player.money player + bonus) ∧
  (d1 draws ≠ d2 draws → Player.jailTurns player = 2 →
   let f := λ p, Player.release (Player.set_money (Player.money p - 50) p) in
   rollMoves deck kw draws s player idx f false l ∧
   jailView (advance total (f player)) = (there, false, 0, 0) ∧
   Player.money (advance total (f player))
     = Player.money player - 50 + bonus) ∧
  (d1 draws ≠ d2 draws → Player.jailTurns player < 2 →
   ∃ s', processRoll deck kw draws s player l =
         Some (s', l ++ [GameLog.mk (GameLog.JailFailed (Player.name player)
                                       total) GameLog.warning]) ∧
     phase s' = GamePhase.END_TURN ∧
     jailView <$> players s' !! idx
       = Some (Player.position player, true,
               Player.jailTurns player + 1, 0) ∧
     Player.money <$> players s' !! idx = Some (Player.money player) ∧
     tiles s' = tiles s).
Proof.
  intros Hfind Hjail Hpos Hd1 Hd2 total bonus there.
  pose proof (findPlayer_Some _ _ _ _ Hfind) as [Hidx _].
  split_and!.
  - intros Hdbl f. split_and!.
    + eapply rollMoves_intro; [done..|].
      by apply processRoll_jail_double.
    + unfold jailView. rewrite advance_position by (simpl; lia).
      by destruct (advance_fields total (f player)) as (_ & -> & -> & -> & _).
    + by destruct (advance_fields total (f player)) as (_&_&_&_&_&_& ->).
  - intros Hdbl Hturns f. split_and!.
    + eapply rollMoves_intro; [done..|].
      apply processRoll_jail_forced; [done..|lia].
    + unfold jailView. rewrite advance_position by (simpl; lia).
      by destruct (advance_fields total (f player)) as (_ & -> & -> & -> & _).
    + by destruct (advance_fields total (f player)) as (_&_&_&_&_&_& ->).
  - intros Hdbl Hturns. eexists. split.
    + by apply processRoll_jail_failed.
    + simpl. rewrite list_lookup_alter_eq, Hidx. simpl.
      unfold jailView. simpl. by rewrite Hjail.
Qed.

Lemma C7_jailed_roll_witness :
  ∃ s' l',
    processRoll Demo.deck Demo.keyword (Demo.roll 1 2) Demo.jailed
      Demo.inmate [] = Some (s', l') ∧
    jailView <$> players s' !! 0%nat = Some (13, false, 0, 0).
Proof.
  destruct (C7_jailed_roll Demo.deck Demo.keyword (Demo.roll 1 2)
              Demo.jailed Demo.inmate 0%nat [])
    as (_ & H & _);
    [reflexivity|reflexivity|simpl; lia|simpl; lia|simpl; lia|].
  destruct H as ((_ & _ & Hfinal) & Hview & _); [simpl; lia|reflexivity|].
  eexists _, _. split; [vm_compute; reflexivity|].
  rewrite Hview in Hfinal.
  eapply Hfinal; [vm_compute; reflexivity|reflexivity|done..].
Defined.

(** ** C8 *)

(** C8.  A roll while free.  A non-double resets the consecutive-doubles
    counter to 0 and a double increments it, and the player moves by the
    roll total -- unless the double takes the counter to 3: exactly then
    the player is put on the jail tile, marked jailed with both counters
    reset, and the turn ends (phase [END_TURN]) with no movement and no
    landing resolution. *)
Theorem C8_free_roll deck kw draws s player idx l :
  findPlayer (players s) (Player.id player) = Some (idx, player) →
  Player.isInJail player = false →
  0 <= Player.position player < 40 →
  1 <= d1 draws <= 6 → 1 <= d2 draws <= 6 →
  let total := d1 draws + d2 draws in
  let there := (Player.position player + total) `mod` 40 in
  let count := Player.consecutiveDoubles player in
  (d1 draws ≠ d2 draws →
   let f := Player.set_consecutiveDoubles 0 in
   rollMoves deck kw draws s player idx f false l ∧
   jailView (advance total (f player))
     = (there, false, Player.jailTurns player, 0)) ∧
  (d1 draws = d2 draws → count + 1 ≠ 3 →
   let f := Player.set_consecutiveDoubles (count + 1) in
   rollMoves deck kw draws s player idx f true l ∧
   jailView (advance total (f player))
     = (there, false, Player.jailTurns player, count + 1)) ∧
  (d1 draws = d2 draws → count + 1 = 3 →
   ∃ s', processRoll deck kw draws s player l =
         Some (s', l ++ [GameLog.mk (GameLog.Speeding (Player.name player))
                                    GameLog.danger]) ∧
     phase s' = GamePhase.END_TURN ∧
     jailView <$> players s' !! idx = Some (10, true, 0, 0) ∧
     Player.money <$> players s' !! idx = Some (Player.money player) ∧
     tiles s' = tiles s).
Proof.
  intros Hfind Hjail Hpos Hd1 Hd2 total there count.
  pose proof (findPlayer_Some _ _ _ _ Hfind) as [Hidx _].
  pose proof (processRoll_free_move deck kw draws s player idx l Hfind Hjail)
    as Hmove. simpl in Hmove.
  split_and!.
  - intros Hdbl f. rewrite bool_decide_eq_false_2 in Hmove by done.
    split.
    + eapply rollMoves_intro; [done..|]. by apply Hmove.
    + unfold jailView. rewrite advance_position by (simpl; lia).
      destruct (advance_fields total (f player)) as (_ & -> & -> & -> & _).
      simpl. by rewrite Hjail.
  - intros Hdbl Hcount f. rewrite bool_decide_eq_true_2 in Hmove by done.
    split.
    + eapply rollMoves_intro; [done..|]. by apply Hmove.
    + unfold jailView. rewrite advance_position by (simpl; lia).
      destruct (advance_fields total (f player)) as (_ & -> & -> & -> & _).
      simpl. by rewrite Hjail.
  - intros Hdbl Hcount. eexists. split.
    + by apply processRoll_speeding.
    + simpl. by rewrite list_lookup_alter_eq, Hidx.
Qed.

Lemma C8_free_roll_witness :
  ∃ s' l',
    processRoll Demo.deck Demo.keyword (Demo.roll 3 3) Demo.speeding
      Demo.speeder [] = Some (s', l') ∧
    jailView <$> players s' !! 0%nat = Some (10, true, 0, 0).
Proof.
  destruct (C8_free_roll Demo.deck Demo.keyword (Demo.roll 3 3)
              Demo.speeding Demo.speeder 0%nat [])
    as (_ & _ & H);
    [reflexivity|reflexivity|simpl; lia|simpl; lia|simpl; lia|].
  destruct H as (s' & Hrun & _ & Hview & _); [reflexivity|reflexivity|].
  eexists _, _. split; [exact Hrun|exact Hview].
Defined.

(** ** Rent and bankruptcy *)

Lemma handleLanding_rent deck kw draws s pid dbl idx player tile o oIdx
    owner l :
  findPlayer (players s) pid = Some (idx, player) →
  nthZ (tiles s) (Player.position player) = Some tile →
  isBuyable (Tile.type tile) = true →
  truthyStr (Tile.ownerId tile) = Some o → o ≠ pid →
  findPlayer (players s) o = Some (oIdx, owner) →
  Player.bankrupt owner = false →
  handleLanding deck kw draws s pid dbl l =
  payRent s pid idx player tile owner dbl
    (l ++ [GameLog.mk (GameLog.Arrived (Player.name player) (Tile.name tile))
                      GameLog.info]).
Proof.
  intros Hfind Htile Hbuy Ho Hne Hown Hactive.
  unfold handleLanding. rewrite Hfind, Htile. unfold_M. simpl.
  unfold isBuyable in Hbuy. apply bool_decide_eq_true in Hbuy.
  rewrite decide_False by (intros E; rewrite E in Hbuy; naive_solver).
  rewrite decide_False by (intros [E|E]; rewrite E in Hbuy; naive_solver).
  unfold isBuyable. rewrite bool_decide_eq_true_2 by done.
  rewrite Ho. rewrite decide_False by done. by rewrite Hown, Hactive.
Qed.

Lemma payRent_bankrupt s pid pIdx player tile owner oIdx dbl l rent l1 :
  findPlayer (players s) pid = Some (pIdx, player) →
  findPlayer (players s) (Player.id owner) = Some (oIdx, owner) →
  pIdx ≠ oIdx →
  computeRent s tile owner l = Some (rent, l1) →
  Player.money player - rent < 0 →
  let newPlayers := ruined (players s) pIdx oIdx rent in
  let l2 :=
    (l1 ++ [GameLog.mk (GameLog.RentPaid (Player.name player)
                          (Player.name owner) rent) GameLog.danger])
       ++ [GameLog.mk (GameLog.WentBankrupt (Player.name player))
                      GameLog.danger] in
  payRent s pid pIdx player tile owner dbl l =
  Some (if decide (length (activePlayers newPlayers) ≤ 1)%nat
        then set_phase GamePhase.GAME_OVER
               (set_winner (firstActive newPlayers)
                  (set_players newPlayers s))
        else set_waitingForDoublesTurn false
               (set_phase GamePhase.END_TURN
                  (set_tiles (releaseTiles pid (tiles s))
                     (set_players newPlayers s))),
        l2).
Proof.
  intros Hfind Hown Hne Hrent Hneg newPlayers l2.
  pose proof (findPlayer_Some _ _ _ _ Hfind) as [Hidx _].
  unfold payRent. unfold_M. rewrite Hrent, Hown. simpl.
  rewrite list_lookup_alter_ne, list_lookup_alter_eq, Hidx by done. simpl.
  rewrite decide_True by done.
  fold (ruined (players s) pIdx oIdx rent). fold newPlayers.
  by case_decide.
Qed.

Lemma ruined_lookup ps pIdx oIdx rent player :
  ps !! pIdx = Some player → pIdx ≠ oIdx →
  ruined ps pIdx oIdx rent !! pIdx =
  Some (Player.set_bankrupt true
          (Player.set_money (Player.money player - rent) player)).
Proof.
  intros Hidx Hne. unfold ruined.
  rewrite list_lookup_alter_eq, list_lookup_alter_ne by done.
  by rewrite list_lookup_alter_eq, Hidx.
Qed.

Lemma handleLanding_tax deck kw draws s pid dbl idx player tile l :
  findPlayer (players s) pid = Some (idx, player) →
  nthZ (tiles s) (Player.position player) = Some tile →
  Tile.type tile = TileType.TAX →
  let tax := orNum (Tile.price tile) 100 in
  handleLanding deck kw draws s pid dbl l =
  Some (landingPhase dbl
          (set_players
             (alter (λ p, Player.set_money (Player.money p - tax) p) idx
                    (players s)) s),
        (l ++ [GameLog.mk (GameLog.Arrived (Player.name player)
                             (Tile.name tile)) GameLog.info])
           ++ [GameLog.mk (GameLog.TaxPaid (Player.name player) tax)
                          GameLog.danger]).
Proof.
  intros Hfind Htile Hty tax.
  unfold handleLanding. rewrite Hfind, Htile. unfold_M. simpl.
  unfold isBuyable. rewrite Hty. reflexivity.
Qed.

Lemma landingCharges_intro s tile owner amount :
  isBuyable (Tile.type tile) = true →
  (∀ l0, ∃ l1, computeRent s tile owner l0 = Some (amount, l1)) →
  landingCharges s tile owner amount.
Proof.
  intros Hbuy Hrent deck kw draws pid idx player oIdx dbl l
         Hfind Htile Ho Hne Hown Hactive.
  erewrite handleLanding_rent by done.
  destruct (Hrent (l ++ [GameLog.mk (GameLog.Arrived (Player.name player)
                                       (Tile.name tile)) GameLog.info]))
    as [l1 Hl1].
  pose proof (findPlayer_Some _ _ _ _ Hfind) as [Hidx Hpid].
  pose proof (findPlayer_Some _ _ _ _ Hown) as [Hoidx _].
  assert (idx ≠ oIdx) as Hio by (intros ->; congruence).
  unfold payRent. unfold_M. rewrite Hl1, Hown. simpl.
  rewrite list_lookup_alter_ne, list_lookup_alter_eq, Hidx by done. simpl.
  assert (∀ ps : list Player.t,
    ps = alter (λ p, Player.set_money (Player.money p + amount) p) oIdx
           (alter (λ p, Player.set_money (Player.money p - amount) p) idx
              (players s)) →
    Player.money <$> ps !! idx = Some (Player.money player - amount) ∧
    Player.money <$> ps !! oIdx = Some (Player.money owner + amount))
    as Hpaid.
  { intros ps ->.
    rewrite list_lookup_alter_ne, !list_lookup_alter_eq by done.
    rewrite list_lookup_alter_ne, Hidx, Hoidx by done. done. }
  destruct (Hpaid _ eq_refl) as [Hp Hq].
  repeat case_decide; eexists _, _; (split; [done|]); simpl;
    rewrite ?(lookup_alter_view Player.money (Player.set_bankrupt true))
      by done;
    (split; [|done]); rewrite !elem_of_app, !list_elem_of_singleton; auto.
Qed.

(** ** C9 *)

(** C9.  On a property without buildings whose owner holds every tile of
    its colour group the rent charged for landing is exactly twice the
    tier-0 value; in every other case it is the tier value at the current
    building count, so the bonus never applies once a building exists.
    Charged for landing: [handleLanding] logs a rent payment of that amount
    and moves it from the visitor to the owner. *)
Theorem C9_property_rent s tile owner tiers r l :
  Tile.type tile = TileType.PROPERTY →
  Tile.rent tile = Some tiers →
  let count := orNum (Tile.houseCount tile) 0 in
  nthZ tiers count = Some r →
  (count = 0 →
   holdsGroup (Player.id owner) (Tile.group tile) (tiles s) →
   tiers !! 0%nat = Some r ∧ charges s tile owner l (2 * r) ∧
   landingCharges s tile owner (2 * r)) ∧
  (count ≠ 0 ∨ ¬ holdsGroup (Player.id owner) (Tile.group tile) (tiles s) →
   charges s tile owner l r ∧ landingCharges s tile owner r).
Proof.
  intros Hty Hrent count Hr.
  assert (isBuyable (Tile.type tile) = true) as Hbuy by (by rewrite Hty).
  assert (count = 0 ↔
          Tile.houseCount tile = Some 0 ∨ Tile.houseCount tile = None)
    as Hcount.
  { subst count. unfold orNum, truthyNum.
    destruct (Tile.houseCount tile) as [n|]; simpl; [|by split; eauto].
    case_decide; simpl; split; [by subst; eauto|done|done|].
    intros [[= ->]|[=]]. done. }
  split.
  - intros H0 Hholds.
    assert (∀ l0, ∃ l1, computeRent s tile owner l0 = Some (2 * r, l1))
      as Hdue.
    { intros l0. eexists. unfold computeRent. rewrite Hty, Hrent.
      fold count. rewrite Hr. unfold_M. simpl.
      rewrite bool_decide_eq_true_2 by (by apply Hcount).
      apply checkOwnsGroup_holds in Hholds. rewrite Hholds. simpl.
      by rewrite Z.mul_comm. }
    split_and!.
    + rewrite H0 in Hr. unfold nthZ in Hr. by rewrite decide_True in Hr.
    + destruct (Hdue l) as [l1 Hl1]. by eapply charges_intro.
    + by apply landingCharges_intro.
  - intros Hn.
    assert (∀ l0, ∃ l1, computeRent s tile owner l0 = Some (r, l1)) as Hdue.
    { intros l0. eexists. unfold computeRent.
      rewrite Hty, Hrent. fold count. rewrite Hr. unfold_M. simpl.
      destruct Hn as [Hn|Hn].
      - rewrite bool_decide_eq_false_2; [done|]. by rewrite <- Hcount.
      - rewrite <- checkOwnsGroup_holds in Hn.
        apply not_true_is_false in Hn. rewrite Hn.
        by rewrite andb_false_r. }
    split.
    + destruct (Hdue l) as [l1 Hl1]. by eapply charges_intro.
    + by apply landingCharges_intro.
Qed.

Lemma C9_property_rent_witness :
  ∃ s' l', handleLanding Demo.deck Demo.keyword (Demo.roll 1 2) Demo.trespass
             "alice" false [] = Some (s', l') ∧
    GameLog.mk (GameLog.RentPaid "Alice" "Bob" 8) GameLog.danger ∈ l' ∧
    Player.money <$> players s' !! 0%nat = Some (1500 - 8) ∧
    Player.money <$> players s' !! 1%nat = Some (1500 + 8).
Proof.
  destruct (C9_property_rent Demo.trespass Demo.brown2 Demo.bob
              (Demo.tiers 4) 4 [] eq_refl eq_refl eq_refl) as [H _].
  destruct H as (_ & _ & H);
    [reflexivity|apply checkOwnsGroup_holds; reflexivity|].
  apply (H Demo.deck Demo.keyword (Demo.roll 1 2) "alice" 0%nat Demo.visitor
           1%nat false []);
    [reflexivity|reflexivity|reflexivity|done|reflexivity|reflexivity].
Defined.

(** ** C3 *)

(** C3, as the claim states it, fails: alice has $50 and lands on the income
    tax ($200); her balance becomes -150, she is not marked bankrupt, her
    tile stays hers and no winner is looked for. *)
Lemma C3_tax_does_not_bankrupt :
  ∃ s', Demo.run (Demo.roll 1 2) Demo.taxed
          (Demo.act ActionType.ROLL "alice") = Some s' ∧
    Player.position <$> players s' !! 0%nat = Some 4 ∧
    Tile.type <$> tiles s' !! 4%nat = Some TileType.TAX ∧
    Player.money <$> players s' !! 0%nat = Some (-150) ∧
    Player.bankrupt <$> players s' !! 0%nat = Some false ∧
    Tile.ownerId <$> tiles s' !! 1%nat = Some (Some "alice") ∧
    phase s' = GamePhase.END_TURN ∧ winner s' = None.
Proof. eexists. split; [vm_compute; reflexivity|]. by vm_compute. Qed.

(** C3 (amended).  Of the payment obligations only rent can bankrupt.
    When a rent payment takes the payer's balance below zero, the payer is
    marked bankrupt and the win check runs at once: with at most one
    player left the phase becomes [GAME_OVER] and the survivor is the
    winner; otherwise every tile of the payer is released (owner cleared,
    buildings reset to 0) and the phase becomes [END_TURN].  A tax and the
    forced bail are deducted whatever the balance: the player is not
    marked bankrupt, no tile is released and no winner is looked for. *)
Theorem C3_payment_obligations deck kw draws s player idx l :
  findPlayer (players s) (Player.id player) = Some (idx, player) →
  let pid := Player.id player in
  (∀ dbl tile o oIdx owner rent l1,
     nthZ (tiles s) (Player.position player) = Some tile →
     isBuyable (Tile.type tile) = true →
     truthyStr (Tile.ownerId tile) = Some o → o ≠ pid →
     findPlayer (players s) o = Some (oIdx, owner) →
     Player.bankrupt owner = false →
     computeRent s tile owner
       (l ++ [GameLog.mk (GameLog.Arrived (Player.name player)
                            (Tile.name tile)) GameLog.info])
       = Some (rent, l1) →
     Player.money player - rent < 0 →
     ∃ s' l', handleLanding deck kw draws s pid dbl l = Some (s', l') ∧
       players s' = ruined (players s) idx oIdx rent ∧
       Player.bankrupt <$> players s' !! idx = Some true ∧
       ((length (activePlayers (players s')) ≤ 1)%nat →
        phase s' = GamePhase.GAME_OVER ∧
        winner s' = firstActive (players s')) ∧
       ((1 < length (activePlayers (players s')))%nat →
        phase s' = GamePhase.END_TURN ∧ winner s' = winner s ∧
        tiles s' = releaseTiles pid (tiles s) ∧
        Forall (λ t, ¬ ownedBy pid t) (tiles s'))) ∧
  (∀ dbl tile,
     nthZ (tiles s) (Player.position player) = Some tile →
     Tile.type tile = TileType.TAX →
     ∃ s' l', handleLanding deck kw draws s pid dbl l = Some (s', l') ∧
       Player.money <$> players s' !! idx
         = Some (Player.money player - orNum (Tile.price tile) 100) ∧
       Player.bankrupt <$> players s' !! idx
         = Some (Player.bankrupt player) ∧
       tiles s' = tiles s ∧ winner s' = winner s ∧
       phase s' = if dbl then GamePhase.ROLLING else GamePhase.END_TURN) ∧
  (Player.isInJail player = true → d1 draws ≠ d2 draws →
   2 <= Player.jailTurns player →
   let total := d1 draws + d2 draws in
   let f := λ p, Player.release (Player.set_money (Player.money p - 50) p) in
   rollMoves deck kw draws s player idx f false l ∧
   Player.money (advance total (f player))
     = Player.money player - 50
       + (if decide (40 <= Player.position player + total)
          then 200 else 0) ∧
   Player.bankrupt (advance total (f player)) = Player.bankrupt player).
Proof.
  intros Hfind pid.
  pose proof (findPlayer_Some _ _ _ _ Hfind) as [Hidx _].
  split_and!.
  - intros dbl tile o oIdx owner rent l1 Htile Hbuy Ho Hne Hown Hact
           Hrent Hneg.
    pose proof (findPlayer_Some _ _ _ _ Hown) as [Hoidx Hoid].
    assert (idx ≠ oIdx) as Hidxne.
    { intros ->. rewrite Hidx in Hoidx. injection Hoidx as <-. done. }
    erewrite handleLanding_rent by done.
    erewrite payRent_bankrupt; [|done|by rewrite Hoid|done..].
    eexists _, _. split; [done|].
    case_decide as Hwin; simpl.
    + split_and!; [done|by erewrite ruined_lookup|done|lia].
    + split_and!; [done|by erewrite ruined_lookup|lia|].
      intros _. split_and!; [done..|apply releaseTiles_none_owned].
  - intros dbl tile Htile Hty.
    erewrite handleLanding_tax by done.
    eexists _, _. split; [done|]. simpl.
    rewrite list_lookup_alter_eq, Hidx. by destruct dbl.
  - intros Hjail Hdbl Hturns total f. split_and!.
    + eapply rollMoves_intro; [done..|].
      by apply processRoll_jail_forced.
    + by destruct (advance_fields total (f player)) as (_&_&_&_&_&_& ->).
    + by destruct (advance_fields total (f player)) as (_&_&_&_& -> &_).
Qed.

Lemma C3_payment_obligations_witness :
  ∃ s' l', handleLanding Demo.deck Demo.keyword (Demo.roll 1 2) Demo.atTax
             "alice" false [] = Some (s', l') ∧
    Player.money <$> players s' !! 0%nat = Some (-150) ∧
    Player.bankrupt <$> players s' !! 0%nat = Some false.
Proof.
  destruct (C3_payment_obligations Demo.deck Demo.keyword (Demo.roll 1 2)
              Demo.atTax (Demo.seat "alice" "Alice" 50 4 [1]) 0%nat []
              eq_refl) as (_ & H & _).
  destruct (H false (Demo.plain 4 "Income tax" TileType.TAX (Some 200))
              eq_refl eq_refl) as (s' & l' & Hrun & Hmoney & Hbank & _).
  exists s', l'. split; [exact Hrun|]. split; [exact Hmoney|exact Hbank].
Defined.

(** ** The phase is never read *)

Ltac split_states s1 s2 H :=
  destruct s1, s2; unfold forgetPhase, set_phase in H; simpl in H;
  injection H as -> -> -> -> -> -> -> -> -> -> -> ->.

Lemma computeRent_phaseless s1 s2 tile owner :
  forgetPhase s1 = forgetPhase s2 →
  computeRent s1 tile owner = computeRent s2 tile owner.
Proof. intros H. by split_states s1 s2 H. Qed.

Ltac phaseless_cases :=
  unfold samePhaseless; unfold_M; simpl;
  repeat (first [ case_decide | case_match ]; unfold ret in *;
          simplify_eq/=; try done).

Lemma payRent_phaseless s1 s2 pid pIdx player tile owner dbl l :
  forgetPhase s1 = forgetPhase s2 →
  samePhaseless (payRent s1 pid pIdx player tile owner dbl l)
                (payRent s2 pid pIdx player tile owner dbl l).
Proof.
  intros H. unfold payRent.
  rewrite (computeRent_phaseless s1 s2) by done.
  split_states s1 s2 H. phaseless_cases.
Qed.

Lemma applyChanceEffect_phaseless kw s1 s2 pid card dbl l :
  forgetPhase s1 = forgetPhase s2 →
  samePhaseless (applyChanceEffect kw s1 pid card dbl l)
                (applyChanceEffect kw s2 pid card dbl l).
Proof.
  intros H. unfold applyChanceEffect.
  split_states s1 s2 H. phaseless_cases.
Qed.

Lemma handleLanding_phaseless deck kw draws s1 s2 pid dbl l :
  forgetPhase s1 = forgetPhase s2 →
  samePhaseless (handleLanding deck kw draws s1 pid dbl l)
                (handleLanding deck kw draws s2 pid dbl l).
Proof.
  intros H. unfold handleLanding.
  split_states s1 s2 H. phaseless_cases.
  all: by apply payRent_phaseless.
Qed.

Lemma movePlayer_phaseless deck kw draws s1 s2 steps pid dbl l :
  forgetPhase s1 = forgetPhase s2 →
  samePhaseless (movePlayer deck kw draws s1 steps pid dbl l)
                (movePlayer deck kw draws s2 steps pid dbl l).
Proof.
  intros H. unfold movePlayer.
  split_states s1 s2 H. phaseless_cases.
  all: by apply handleLanding_phaseless.
Qed.

Lemma processRoll_phaseless deck kw draws s1 s2 player l :
  forgetPhase s1 = forgetPhase s2 →
  samePhaseless (processRoll deck kw draws s1 player l)
                (processRoll deck kw draws s2 player l).
Proof.
  intros H. unfold processRoll.
  split_states s1 s2 H. phaseless_cases.
  all: by apply movePlayer_phaseless.
Qed.

Lemma processEndTurn_phaseless s1 s2 l :
  forgetPhase s1 = forgetPhase s2 →
  samePhaseless (processEndTurn s1 l) (processEndTurn s2 l).
Proof.
  intros H. unfold processEndTurn.
  split_states s1 s2 H. phaseless_cases.
Qed.

Lemma processSurrender_phaseless s1 s2 player l :
  forgetPhase s1 = forgetPhase s2 →
  samePhaseless (processSurrender s1 player l) (processSurrender s2 player l).
Proof.
  intros H. unfold processSurrender.
  split_states s1 s2 H. phaseless_cases.
  all: by apply processEndTurn_phaseless.
Qed.

Lemma processBuy_phaseless s1 s2 player l :
  forgetPhase s1 = forgetPhase s2 →
  samePhaseless (processBuy s1 player l) (processBuy s2 player l).
Proof.
  intros H. unfold processBuy.
  split_states s1 s2 H. phaseless_cases.
Qed.

Lemma processPass_phaseless s1 s2 player l :
  forgetPhase s1 = forgetPhase s2 →
  samePhaseless (processPass s1 player l) (processPass s2 player l).
Proof.
  intros H. unfold processPass.
  split_states s1 s2 H. phaseless_cases.
Qed.

Lemma processPayBail_phaseless s1 s2 player l :
  forgetPhase s1 = forgetPhase s2 →
  samePhaseless (processPayBail s1 player l) (processPayBail s2 player l).
Proof.
  intros H. unfold processPayBail.
  split_states s1 s2 H. phaseless_cases.
Qed.

Lemma processUpgrade_phaseless s1 s2 player l :
  forgetPhase s1 = forgetPhase s2 →
  samePhaseless (processUpgrade s1 player l) (processUpgrade s2 player l).
Proof.
  intros H. unfold processUpgrade.
  split_states s1 s2 H. phaseless_cases.
Qed.

(** Whatever the phase, the dispatcher does the same thing. *)
Lemma executeGameLogic_phaseless deck kw draws s ph a :
  forgetPhase <$> executeGameLogic deck kw draws (set_phase ph s) a =
  forgetPhase <$> executeGameLogic deck kw draws s a.
Proof.
  unfold executeGameLogic. simpl.
  destruct (findPlayer (players s) (playerId a)) as [[i player]|]; [|done].
  destruct (players s !! currentPlayerIndex s) as [current|]; [|done].
  destruct (negb _ && negb _); [done|].
  assert (forgetPhase (set_phase ph s) = forgetPhase s) as H by done.
  set (run1 := match actionType a with ActionType.ROLL => _ | _ => _ end).
  set (run2 := match actionType a with ActionType.ROLL => _ | _ => _ end).
  assert (samePhaseless (run1 (logs s)) (run2 (logs s))) as Hrun.
  { subst run1 run2. destruct (actionType a).
    - by apply processRoll_phaseless.
    - by apply processBuy_phaseless.
    - by apply processPass_phaseless.
    - by apply processPayBail_phaseless.
    - by apply processUpgrade_phaseless.
    - by apply processEndTurn_phaseless.
    - by apply processSurrender_phaseless. }
  unfold samePhaseless in Hrun.
  destruct (run1 (logs s)) as [[s1 l1]|], (run2 (logs s)) as [[s2 l2]|];
    simplify_eq/=; [|done].
  unfold forgetPhase in *. destruct s1, s2. simplify_eq/=. done.
Qed.

(** ** The log only grows *)

Ltac logs_cases :=
  repeat (first [ case_decide | case_match ]; unfold ret, throw in *;
          simplify_eq/=).

Ltac logs_done :=
  eexists; rewrite <- ?app_assoc; first [ reflexivity | by rewrite app_nil_r ].

Lemma computeRent_logs s tile owner l r l' :
  computeRent s tile owner l = Some (r, l') → ∃ ext, l' = l ++ ext.
Proof.
  unfold computeRent. unfold_M. intros H. logs_cases. all: logs_done.
Qed.

Lemma payRent_logs s pid pIdx player tile owner dbl l s' l' :
  payRent s pid pIdx player tile owner dbl l = Some (s', l') →
  ∃ ext, l' = l ++ ext.
Proof.
  unfold payRent. unfold_M.
  destruct (computeRent s tile owner l) as [[r l1]|] eqn:Hrent; [|done].
  apply computeRent_logs in Hrent as [ext ->].
  intros H. logs_cases. all: logs_done.
Qed.

Lemma applyChanceEffect_logs kw s pid card dbl l s' l' :
  applyChanceEffect kw s pid card dbl l = Some (s', l') →
  ∃ ext, l' = l ++ ext.
Proof.
  unfold applyChanceEffect. unfold_M. intros H. logs_cases. all: logs_done.
Qed.

Lemma handleLanding_logs deck kw draws s pid dbl l s' l' :
  handleLanding deck kw draws s pid dbl l = Some (s', l') →
  ∃ ext, l' = l ++ ext.
Proof.
  unfold handleLanding. unfold_M. intros H. logs_cases.
  all: try match goal with
           | H : payRent _ _ _ _ _ _ _ _ = Some _ |- _ =>
             apply payRent_logs in H as [ext ->]
           | H : applyChanceEffect _ _ _ _ _ _ = Some _ |- _ =>
             apply applyChanceEffect_logs in H as [ext ->]
           end.
  all: logs_done.
Qed.

Lemma movePlayer_logs deck kw draws s steps pid dbl l s' l' :
  movePlayer deck kw draws s steps pid dbl l = Some (s', l') →
  ∃ ext, l' = l ++ ext.
Proof.
  unfold movePlayer. unfold_M.
  destruct (findPlayer (players s) pid) as [[idx p]|]; [simpl|done].
  case_decide; intros [ext ->]%handleLanding_logs;
    eexists; rewrite <- ?app_assoc; reflexivity.
Qed.

(** Every roll is logged. *)
Lemma processRoll_logs deck kw draws s player l s' l' :
  processRoll deck kw draws s player l = Some (s', l') →
  (length l < length l')%nat.
Proof.
  unfold processRoll. unfold_M. intros H.
  repeat (first [ case_decide | case_match ]; unfold ret, throw in *;
          simplify_eq/=).
  all: try match goal with
           | H : movePlayer _ _ _ _ _ _ _ _ = Some _ |- _ =>
             apply movePlayer_logs in H as [ext ->]
           end.
  all: rewrite ?length_app; simpl; lia.
Qed.

(** ** C10 *)

(** C10.  The dispatcher never looks at the phase.  For an intent of the
    current-turn player: the phase the intent arrives in has no influence
    on what the host does with it; a buy intent in any phase purchases the
    tile the player stands on as soon as it has a price the player can
    afford; and a roll intent that arrives after [GAME_OVER] still changes
    the state (it is logged), for instance a failed jail roll takes the
    phase from [GAME_OVER] to [END_TURN]. *)
Theorem C10_no_phase_validation deck kw draws s a idx player current :
  findPlayer (players s) (playerId a) = Some (idx, player) →
  players s !! currentPlayerIndex s = Some current →
  Player.id current = Player.id player →
  (∀ ph, forgetPhase <$> executeGameLogic deck kw draws (set_phase ph s) a
         = forgetPhase <$> executeGameLogic deck kw draws s a) ∧
  (actionType a = ActionType.BUY →
   ∀ ph tile price,
     nthZ (tiles s) (Player.position player) = Some tile →
     truthyNum (Tile.price tile) = Some price →
     price <= Player.money player →
     ∃ s', executeGameLogic deck kw draws (set_phase ph s) a = Some s' ∧
       tiles s' = setZ (tiles s) (Player.position player)
                    (Tile.set_ownerId (Some (Player.id player)) tile) ∧
       players s' =
         alter (λ p, Player.set_properties
                       (Player.properties p ++ [Tile.id tile])
                       (Player.set_money (Player.money p - price) p))
               idx (players s) ∧
       phase s' = (if waitingForDoublesTurn s
                   then GamePhase.ROLLING else GamePhase.END_TURN)) ∧
  (actionType a = ActionType.ROLL →
   (∀ s', executeGameLogic deck kw draws
            (set_phase GamePhase.GAME_OVER s) a = Some s' →
          (length (logs s) < length (logs s'))%nat) ∧
   (Player.isInJail player = true → d1 draws ≠ d2 draws →
    Player.jailTurns player < 2 →
    ∃ s', executeGameLogic deck kw draws
            (set_phase GamePhase.GAME_OVER s) a = Some s' ∧
          phase s' = GamePhase.END_TURN ∧ dice s' = (d1 draws, d2 draws))).
Proof.
  intros Hfind Hcur Hturn.
  pose proof (findPlayer_Some _ _ _ _ Hfind) as [Hidx Hid].
  assert (findPlayer (players s) (Player.id player) = Some (idx, player))
    as Hfind' by (by rewrite Hid).
  assert (∀ ph, executeGameLogic deck kw draws (set_phase ph s) a =
    match
      match actionType a with
      | ActionType.ROLL => processRoll deck kw draws (set_phase ph s) player
      | ActionType.BUY => processBuy (set_phase ph s) player
      | ActionType.PASS => processPass (set_phase ph s) player
      | ActionType.PAY_BAIL => processPayBail (set_phase ph s) player
      | ActionType.UPGRADE => processUpgrade (set_phase ph s) player
      | ActionType.END_TURN => processEndTurn (set_phase ph s)
      | ActionType.SURRENDER => processSurrender (set_phase ph s) player
      end (logs s)
    with
    | Some (newState, logs) => Some (set_logs logs newState)
    | None => None
    end) as Hexec.
  { intros ph. unfold executeGameLogic. simpl. rewrite Hfind, Hcur.
    by rewrite bool_decide_eq_true_2. }
  split_and!.
  - intros ph. apply executeGameLogic_phaseless.
  - intros Hty ph tile price Htile Hprice Hafford.
    rewrite Hexec, Hty. unfold processBuy. unfold_M. simpl.
    rewrite Htile. simpl. rewrite Hprice.
    rewrite decide_False by lia. rewrite Hfind'. simpl. eauto.
  - intros Hty. split.
    + intros s'. rewrite Hexec, Hty.
      destruct (processRoll _ _ _ _ _ _) as [[s1 l1]|] eqn:Hroll; [|done].
      intros [= <-]. simpl. by apply processRoll_logs in Hroll.
    + intros Hjail Hdbl Hturns. rewrite Hexec, Hty.
      erewrite processRoll_jail_failed; [|simpl; done|done..].
      eauto.
Qed.

Lemma C10_no_phase_validation_witness :
  ∃ s', Demo.run (Demo.roll 1 2)
          (set_phase GamePhase.END_TURN Demo.trespass)
          (Demo.act ActionType.BUY "alice") = Some s' ∧
    Tile.ownerId <$> tiles Demo.trespass !! 3%nat = Some (Some "bob") ∧
    Tile.ownerId <$> tiles s' !! 3%nat = Some (Some "alice").
Proof.
  destruct (C10_no_phase_validation Demo.deck Demo.keyword (Demo.roll 1 2)
              Demo.trespass (Demo.act ActionType.BUY "alice") 0%nat
              Demo.visitor Demo.visitor eq_refl eq_refl eq_refl)
    as (_ & H & _).
  destruct (H eq_refl GamePhase.END_TURN Demo.brown2 60 eq_refl eq_refl)
    as (s' & Hrun & Htiles & _); [simpl; lia|].
  exists s'. split; [exact Hrun|]. split; [reflexivity|].
  rewrite Htiles. reflexivity.
Defined.

(** ** Ownership *)

Lemma consistent_sound s :
  NoDup (Player.id <$> players s) → consistent s → sound s.
Proof.
  intros Hids [Ht Hp]. split_and!; [done..|].
  eapply Forall_impl; [exact Hp|]. auto.
Qed.

Lemma sound_cells s : sound s ↔ soundCells (players s) (tiles s).
Proof.
  unfold sound, soundCells, listsOwned, ownerLists, ownedBy.
  rewrite !Forall_lookup. split.
  - intros (Hids & Ht & Hp). split_and!; [done|..].
    + intros j t o Hj Ho. specialize (Ht j t Hj). rewrite Ho in Ht.
      apply Exists_exists in Ht as (p & Hin & ? & ?).
      apply list_elem_of_lookup in Hin as [i Hi]. eauto.
    + intros i p tid Hi Hb Htid. specialize (Hp i p Hi Hb).
      rewrite Forall_forall in Hp. specialize (Hp tid Htid).
      apply Exists_exists in Hp as (t & Hin & ? & ?).
      apply list_elem_of_lookup in Hin as [j Hj]. eauto.
  - intros (Hids & Ht & Hp). split_and!; [done|..].
    + intros j t Hj. destruct (Tile.ownerId t) as [o|] eqn:Ho; [|done].
      destruct (Ht j t o Hj Ho) as (i & p & Hi & ? & ?).
      apply Exists_exists. exists p.
      split; [by eapply list_elem_of_lookup_2|done].
    + intros i p Hi Hb. apply Forall_forall. intros tid Htid.
      destruct (Hp i p tid Hi Hb Htid) as (j & t & Hj & ? & ?).
      apply Exists_exists. exists t.
      split; [by eapply list_elem_of_lookup_2|done].
Qed.

Lemma ids_alter f (i : nat) (ps : list Player.t) :
  (∀ p, Player.id (f p) = Player.id p) →
  Player.id <$> alter f i ps = Player.id <$> ps.
Proof.
  intros Hf. apply list_eq. intros j.
  rewrite !list_lookup_fmap. by apply lookup_alter_view.
Qed.

(** Money may move and players may go bankrupt. *)
Lemma soundCells_alter f (i : nat) ps ts :
  (∀ p, Player.id (f p) = Player.id p) →
  (∀ p, Player.properties (f p) = Player.properties p) →
  (∀ p, Player.bankrupt (f p) = false → Player.bankrupt p = false) →
  soundCells ps ts → soundCells (alter f i ps) ts.
Proof.
  intros Hid Hprops Hbank (Hids & Ht & Hp). split_and!.
  - by rewrite ids_alter.
  - intros j t o Hj Ho. destruct (Ht j t o Hj Ho) as (k & p & Hk & ? & ?).
    destruct (decide (i = k)) as [->|].
    + exists k, (f p). rewrite list_lookup_alter_eq, Hk, Hid, Hprops. done.
    + exists k, p. by rewrite list_lookup_alter_ne.
  - intros k p' tid Hk Hb Htid. destruct (decide (i = k)) as [->|].
    + rewrite list_lookup_alter_eq in Hk.
      destruct (ps !! k) as [p|] eqn:Hk'; simplify_eq/=.
      rewrite Hprops in Htid. rewrite Hid. eauto.
    + rewrite list_lookup_alter_ne in Hk by done. eauto.
Qed.

(** The tiles of a bankrupt player may be released. *)
Lemma soundCells_release ps ts (i : nat) p :
  ps !! i = Some p → Player.bankrupt p = true →
  soundCells ps ts → soundCells ps (releaseTiles (Player.id p) ts).
Proof.
  intros Hi Hbank (Hids & Ht & Hp). split_and!; [done|..].
  - intros j t' o Hj Ho. rewrite releaseTiles_lookup in Hj.
    destruct (ts !! j) as [t|] eqn:Hj'; simplify_eq/=.
    case_decide; simplify_eq/=. eauto.
  - intros k q tid Hk Hb Htid.
    destruct (Hp k q tid Hk Hb Htid) as (j & t & Hj & Hid & Ho).
    exists j, t. split_and!; [|done..].
    rewrite releaseTiles_lookup, Hj. simpl.
    rewrite decide_False; [done|].
    unfold ownedBy. rewrite Ho. intros [= Heq].
    assert (i = k) as ->.
    { eapply NoDup_lookup; [exact Hids|..]; rewrite list_lookup_fmap.
      - by rewrite Hi.
      - rewrite Hk. simpl. by rewrite Heq. }
    congruence.
Qed.

(** An unowned tile may be bought. *)
Lemma soundCells_buy f ps ts (i : nat) p (pos : nat) tile :
  ps !! i = Some p → ts !! pos = Some tile → Tile.ownerId tile = None →
  (∀ p, Player.id (f p) = Player.id p) →
  (∀ p, Player.bankrupt (f p) = Player.bankrupt p) →
  (∀ p, Player.properties (f p) = Player.properties p ++ [Tile.id tile]) →
  soundCells ps ts →
  soundCells (alter f i ps)
             (<[pos := Tile.set_ownerId (Some (Player.id p)) tile]> ts).
Proof.
  intros Hi Hpos Hfree Hid Hbank Hprops (Hids & Ht & Hp).
  pose proof (lookup_lt_Some _ _ _ Hpos) as Hlt.
  split_and!.
  - by rewrite ids_alter.
  - intros j t o Hj Ho. destruct (decide (pos = j)) as [->|].
    + rewrite list_lookup_insert_eq in Hj by done. simplify_eq/=.
      exists i, (f p). rewrite list_lookup_alter_eq, Hi, Hid, Hprops.
      split_and!; [done..|]. apply elem_of_app. right. left.
    + rewrite list_lookup_insert_ne in Hj by done.
      destruct (Ht j t o Hj Ho) as (k & q & Hk & ? & ?).
      destruct (decide (i = k)) as [->|].
      * exists k, (f q). rewrite list_lookup_alter_eq, Hk, Hid, Hprops.
        split_and!; [done..|]. apply elem_of_app. by left.
      * exists k, q. by rewrite list_lookup_alter_ne.
  - intros k q' tid Hk Hb Htid.
    assert (∀ q, ps !! k = Some q → Player.bankrupt q = false →
                 tid ∈ Player.properties q →
                 ∃ j t, <[pos := Tile.set_ownerId (Some (Player.id p)) tile]>
                          ts !! j = Some t ∧ Tile.id t = tid ∧
                        Tile.ownerId t = Some (Player.id q)) as Hold.
    { intros q Hq Hqb Hqt.
      destruct (Hp k q tid Hq Hqb Hqt) as (j & t & Hj & ? & Ho).
      exists j, t. split_and!; [|done..].
      rewrite list_lookup_insert_ne; [done|].
      intros ->. congruence. }
    destruct (decide (i = k)) as [->|].
    + rewrite list_lookup_alter_eq, Hi in Hk. simplify_eq/=.
      rewrite Hbank in Hb. rewrite Hprops in Htid. rewrite Hid.
      apply elem_of_app in Htid as [Htid|Htid%list_elem_of_singleton].
      * by apply Hold.
      * subst tid. exists pos, (Tile.set_ownerId (Some (Player.id p)) tile).
        by rewrite list_lookup_insert_eq.
    + rewrite list_lookup_alter_ne in Hk by done. by apply Hold.
Qed.
Lemma sound_frame s s' :
  players s' = players s → tiles s' = tiles s → sound s → sound s'.
Proof. unfold sound. by intros -> ->. Qed.

(** ** C2 *)

(** C2, as the claim states it, fails: bob owns Brown 2 and surrenders; the
    tile is released, but its id stays in bob's property list, which now
    names a tile that is not his. *)
Lemma C2_release_keeps_property_list :
  consistent Demo.trio ∧
  ∃ s', Demo.run (Demo.roll 1 2) Demo.trio
          (Demo.act ActionType.SURRENDER "bob") = Some s' ∧
    Tile.ownerId <$> tiles s' !! 3%nat = Some None ∧
    Player.properties <$> players s' !! 1%nat = Some [3] ∧
    ¬ consistent s'.
Proof.
  split.
  - apply (bool_decide_unpack _). by vm_compute.
  - eexists. split; [vm_compute; reflexivity|].
    split_and!; [by vm_compute..|].
    apply (bool_decide_eq_false_1 _). by vm_compute.
Qed.

(** C2 (amended).  Player ids being unique, the following is kept by every
    purchase of an unowned tile, by every surrender and by every rent
    payment, bankrupting or not: a tile's owner reference names a player
    whose property list contains that tile's id, and every tile id in the
    property list of a player who is not bankrupt names a tile whose owner
    reference is that player.  (The property list of a bankrupt player is
    never cleared.) *)
Theorem C2_ownership_consistency s player idx l s' l' :
  sound s →
  findPlayer (players s) (Player.id player) = Some (idx, player) →
  (∀ tile, nthZ (tiles s) (Player.position player) = Some tile →
           Tile.ownerId tile = None →
           processBuy s player l = Some (s', l') → sound s') ∧
  (processSurrender s player l = Some (s', l') → sound s') ∧
  (∀ tile owner oIdx dbl,
     findPlayer (players s) (Player.id owner) = Some (oIdx, owner) →
     payRent s (Player.id player) idx player tile owner dbl l
       = Some (s', l') → sound s').
Proof.
  intros Hsound Hfind.
  pose proof (findPlayer_Some _ _ _ _ Hfind) as [Hidx _].
  pose proof (proj1 (sound_cells s) Hsound) as Hcells.
  split_and!.
  - intros tile Htile Hfree. unfold processBuy. unfold_M.
    rewrite Htile. simpl.
    destruct (truthyNum (Tile.price tile)) as [price|];
      [|by intros [= <- _]].
    case_decide; [by intros [= <- _]|].
    rewrite Hfind. simpl. intros [= <- _].
    apply sound_cells. simpl. unfold setZ.
    unfold nthZ in Htile. case_decide; [|done].
    by apply soundCells_buy.
  - unfold processSurrender. unfold_M. rewrite Hfind. simpl.
    destruct (players s !! currentPlayerIndex s) as [current|]; [|done].
    simpl.
    set (quit := set_tiles _ (set_players _ s)).
    assert (sound quit) as Hquit.
    { apply sound_cells. subst quit. simpl.
      eapply (soundCells_release _ _ idx
                (Player.set_money 0 (Player.set_bankrupt true player)));
        [by rewrite list_lookup_alter_eq, Hidx|done|].
      by apply soundCells_alter. }
    case_bool_decide.
    + intros (_ & [[_ ->]|[_ [next ->]]])%processEndTurn_spec;
        by eapply sound_frame.
    + case_decide; intros [= <- _]; [by eapply sound_frame|done].
  - intros tile owner oIdx dbl Hown. unfold payRent. unfold_M.
    destruct (computeRent s tile owner l) as [[rent l1]|]; [|done].
    rewrite Hown. simpl.
    set (paid := alter _ oIdx (alter _ idx (players s))).
    assert (soundCells paid (tiles s)) as Hpaid
      by (subst paid; do 2 (apply soundCells_alter; [done..|]); done).
    destruct (paid !! idx) as [payer|] eqn:Hpayer; [simpl|done].
    case_decide; [|intros [= <- _]; by apply sound_cells].
    assert (soundCells (alter (Player.set_bankrupt true) idx paid) (tiles s))
      as Hruined by (by apply soundCells_alter).
    assert (Player.id payer = Player.id player) as Hpid.
    { subst paid. apply (f_equal (fmap Player.id)) in Hpayer.
      rewrite !lookup_alter_view, Hidx in Hpayer by done. by simplify_eq/=. }
    case_decide; intros [= <- _]; apply sound_cells; simpl; [done|].
    rewrite <- Hpid.
    eapply (soundCells_release _ _ idx (Player.set_bankrupt true payer));
      [by rewrite list_lookup_alter_eq, Hpayer|done..].
Qed.

Lemma C2_ownership_consistency_witness :
  ∃ s' l',
    processSurrender Demo.trio (Demo.seat "bob" "Bob" 1500 20 [3]) []
      = Some (s', l') ∧ sound s'.
Proof.
  eexists _, _. split; [vm_compute; reflexivity|].
  edestruct (C2_ownership_consistency Demo.trio
               (Demo.seat "bob" "Bob" 1500 20 [3]) 1%nat [])
    as (_ & H & _); [|reflexivity|apply H; vm_compute; reflexivity].
  apply consistent_sound.
  - apply (bool_decide_unpack _). by vm_compute.
  - apply (bool_decide_unpack _). by vm_compute.
Defined.

(** * Further properties *)

(** ** What an intent keeps *)

#[global] Instance keepsPlayer_refl : Reflexive keepsPlayer.
Proof. intros p. unfold keepsPlayer. split_and!; done. Qed.

#[global] Instance keepsPlayer_trans : Transitive keepsPlayer.
Proof.
  intros p q r (?&?&?&?&?&?&?) (?&?&?&?&?&?&?).
  unfold keepsPlayer. split_and!; try congruence; [auto|by etrans].
Qed.

#[global] Instance keepsTile_refl : Reflexive keepsTile.
Proof. intros t. unfold keepsTile. split_and!; done. Qed.

#[global] Instance keepsTile_trans : Transitive keepsTile.
Proof.
  intros p q r (?&?&?&?&?&?&?&?&?) (?&?&?&?&?&?&?&?&?).
  unfold keepsTile. split_and!; try congruence. auto.
Qed.

#[global] Instance evolves_refl : Reflexive evolves.
Proof. intros s. unfold evolves. split_and!; done. Qed.

#[global] Instance evolves_trans : Transitive evolves.
Proof.
  intros s1 s2 s3 (?&?&?&?&?&?) (?&?&?&?&?&?).
  unfold evolves. split_and!; try congruence; by etrans.
Qed.

(** A mutation of one player object. *)
Lemma evolves_alter f (i : nat) s :
  (∀ p, keepsPlayer p (f p)) →
  evolves s (set_players (alter f i (players s)) s).
Proof.
  intros Hf. unfold evolves. simpl. split_and!; try done.
  apply Forall2_alter_r; [done|]. intros x y _ _ Hxy. by etrans.
Qed.

Lemma keepsPlayer_advance steps p : keepsPlayer p (advance steps p).
Proof.
  unfold keepsPlayer, advance. repeat case_decide; simpl; split_and!; done.
Qed.

Lemma keepsTile_release pid ts : Forall2 keepsTile ts (releaseTiles pid ts).
Proof.
  unfold releaseTiles. apply Forall2_fmap_r, Forall_Forall2_diag.
  apply Forall_forall. intros t _. simpl. case_decide; [|done].
  unfold keepsTile, orNum. simpl. split_and!; first [ done | lia ].
Qed.

(** Any of the fields that are not a player's or a tile's may change. *)
Lemma evolves_fields s s' :
  players s' = players s → tiles s' = tiles s →
  selectedTileId s' = selectedTileId s → currentUser s' = currentUser s →
  roomId s' = roomId s → isHost s' = isHost s → evolves s s'.
Proof.
  intros Hp Ht ? ? ? ?. unfold evolves. rewrite Hp, Ht. split_and!; done.
Qed.

Ltac keeps_player :=
  intros; unfold keepsPlayer, Player.jail, Player.release; simpl;
  split_and!; first [ done | by apply prefix_app_r ].

Ltac evolves_players :=
  repeat first
    [ reflexivity
    | (etrans; [|apply (evolves_alter _ _ _); keeps_player]); simpl
    | (apply evolves_fields; reflexivity) ].

Ltac keeps_players :=
  repeat (apply Forall2_alter_r;
          [|intros ? ? _ _ ?; etrans; [eassumption|];
            first [ apply keepsPlayer_advance | keeps_player ]]);
  reflexivity.

Ltac evolves_goal :=
  unfold evolves, landingPhase; simpl; split_and!;
  first [ done | keeps_players | apply keepsTile_release ].

Ltac evolves_cases :=
  repeat (first [ case_decide | case_match ]; unfold ret, throw in *;
          simplify_eq/=).

Lemma processEndTurn_evolves s l s' l' :
  processEndTurn s l = Some (s', l') → evolves s s'.
Proof.
  intros (_ & [[_ ->]|[_ [next ->]]])%processEndTurn_spec; evolves_goal.
Qed.

Lemma processSurrender_evolves s player l s' l' :
  processSurrender s player l = Some (s', l') → evolves s s'.
Proof.
  unfold processSurrender. unfold_M. intros H. evolves_cases.
  all: try (etrans; [|by eapply processEndTurn_evolves]).
  all: evolves_goal.
Qed.

Lemma processPayBail_evolves s player l s' l' :
  processPayBail s player l = Some (s', l') → evolves s s'.
Proof.
  unfold processPayBail. unfold_M. intros H. evolves_cases.
  all: evolves_goal.
Qed.

Lemma processPass_evolves s player l s' l' :
  processPass s player l = Some (s', l') → evolves s s'.
Proof.
  unfold processPass. unfold_M. intros H. evolves_cases. all: evolves_goal.
Qed.

Lemma orNum_level o : 0 <= orNum o 0 <= 5 → ¬ 5 <= orNum o 0 →
  0 <= orNum (Some (orNum o 0 + 1)) 0 <= 5.
Proof.
  unfold orNum, truthyNum. destruct o as [n|]; simpl;
    repeat case_decide; simpl; lia.
Qed.

Lemma atMaxLevel_false tile :
  atMaxLevel tile = false ↔ orNum (Tile.houseCount tile) 0 < 5.
Proof.
  unfold atMaxLevel, orNum.
  destruct (truthyNum (Tile.houseCount tile)) as [n|]; simpl; [|done].
  rewrite bool_decide_eq_false. lia.
Qed.

Lemma processUpgrade_evolves s player l s' l' :
  processUpgrade s player l = Some (s', l') → evolves s s'.
Proof.
  unfold processUpgrade. unfold_M. intros H. evolves_cases.
  all: try evolves_goal.
  unfold evolves. simpl. split_and!; [keeps_players| |done..].
  match goal with H : findTile _ _ = Some (?i, ?t) |- _ =>
    apply list_find_Some in H as (Hi & _ & _);
    rewrite <- (list_insert_id (tiles s) i t) at 1 by done
  end.
  apply Forall2_insert; [reflexivity|].
  unfold keepsTile. simpl. split_and!; try done. intros Hrange.
  apply orNum_level; [done|]. 
  match goal with H : atMaxLevel _ = false |- _ =>
    apply atMaxLevel_false in H end. lia.
Qed.

Lemma processBuy_evolves s player l s' l' :
  processBuy s player l = Some (s', l') → evolves s s'.
Proof.
  unfold processBuy. unfold_M. intros H. evolves_cases.
  all: try evolves_goal.
  all: unfold evolves; simpl; split_and!; [keeps_players| |done..].
  all: unfold setZ;
    match goal with H : nthZ _ ?i = Some ?t |- _ =>
      unfold nthZ in H; case_decide; [|done];
      rewrite <- (list_insert_id (tiles s) (Z.to_nat i) t) at 1 by done
    end.
  all: apply Forall2_insert; [reflexivity|].
  all: unfold keepsTile; simpl; split_and!; done.
Qed.

Lemma applyChanceEffect_evolves kw s pid card dbl l s' l' :
  applyChanceEffect kw s pid card dbl l = Some (s', l') → evolves s s'.
Proof.
  unfold applyChanceEffect. unfold_M. intros H. evolves_cases.
  all: unfold evolves; simpl; split_and!; try done.
  all: apply Forall2_alter_r; [reflexivity|];
    intros ? ? _ _ ?; etrans; [eassumption|].
  all: unfold keepsPlayer, Player.jail; repeat case_decide;
    repeat case_bool_decide; simpl; split_and!; done.
Qed.

Lemma payRent_evolves s pid pIdx player tile owner dbl l s' l' :
  payRent s pid pIdx player tile owner dbl l = Some (s', l') → evolves s s'.
Proof.
  unfold payRent. unfold_M.
  destruct (computeRent s tile owner l) as [[rent l1]|]; [|done].
  intros H. evolves_cases. all: evolves_goal.
Qed.

Lemma handleLanding_evolves deck kw draws s pid dbl l s' l' :
  handleLanding deck kw draws s pid dbl l = Some (s', l') → evolves s s'.
Proof.
  unfold handleLanding. unfold_M. intros H. evolves_cases.
  all: try match goal with
           | H : payRent _ _ _ _ _ _ _ _ = Some _ |- _ =>
             apply payRent_evolves in H
           | H : applyChanceEffect _ _ _ _ _ _ = Some _ |- _ =>
             apply applyChanceEffect_evolves in H;
             (etrans; [|exact H])
           end.
  all: try done.
  all: evolves_goal.
Qed.

Lemma movePlayer_evolves deck kw draws s steps pid dbl l s' l' :
  movePlayer deck kw draws s steps pid dbl l = Some (s', l') → evolves s s'.
Proof.
  unfold movePlayer. unfold_M. intros H. evolves_cases.
  all: match goal with
       | H : handleLanding _ _ _ _ _ _ _ = Some _ |- _ =>
         apply handleLanding_evolves in H; (etrans; [|exact H])
       end.
  all: evolves_goal.
Qed.

Lemma processRoll_evolves deck kw draws s player l s' l' :
  processRoll deck kw draws s player l = Some (s', l') → evolves s s'.
Proof.
  unfold processRoll. unfold_M. intros H. evolves_cases.
  all: try match goal with
           | H : movePlayer _ _ _ _ _ _ _ _ = Some _ |- _ =>
             apply movePlayer_evolves in H; (etrans; [|exact H])
           end.
  all: evolves_goal.
Qed.

Lemma executeGameLogic_evolves deck kw draws s a s' :
  executeGameLogic deck kw draws s a = Some s' → evolves s s'.
Proof.
  unfold executeGameLogic. intros H.
  destruct (findPlayer (players s) (playerId a)) as [[i player]|];
    [|by simplify_eq].
  destruct (players s !! currentPlayerIndex s) as [current|]; [|done].
  destruct (negb _ && negb _); [by simplify_eq|].
  assert (∀ s1 l1, evolves s s1 → evolves s (set_logs l1 s1)) as Hlogs.
  { intros s1 l1 Hs1. etrans; [exact Hs1|]. by apply evolves_fields. }
  destruct (actionType a);
    match type of H with
    | match ?run with _ => _ end = _ =>
      destruct run as [[s1 l1]|] eqn:Hrun; [|done]
    end; injection H as <-; apply Hlogs.
  - by eapply processRoll_evolves.
  - by eapply processBuy_evolves.
  - by eapply processPass_evolves.
  - by eapply processPayBail_evolves.
  - by eapply processUpgrade_evolves.
  - by eapply processEndTurn_evolves.
  - by eapply processSurrender_evolves.
Qed.

Lemma Forall2_fmap_eq {A B} (R : A → A → Prop) (f : A → B) l k :
  (∀ x y, R x y → f y = f x) → Forall2 R l k → f <$> k = f <$> l.
Proof.
  intros Hf H. induction H as [|x y l k Hxy _ IH]; [done|].
  rewrite !fmap_cons, IH. f_equal. by apply Hf.
Qed.

(** X1.  Whatever the intent, the host never adds, removes or reorders
    players or tiles, never touches a player's identity or a tile's
    configuration (id, name, type, price, rent tiers, group, building
    cost), and leaves the session fields alone. *)
Theorem intent_keeps_configuration deck kw draws s a s' :
  executeGameLogic deck kw draws s a = Some s' →
  playerIdentity <$> players s' = playerIdentity <$> players s ∧
  tileConfig <$> tiles s' = tileConfig <$> tiles s ∧
  selectedTileId s' = selectedTileId s ∧ currentUser s' = currentUser s ∧
  roomId s' = roomId s ∧ isHost s' = isHost s.
Proof.
  intros (Hp & Ht & ? & ? & ? & ?)%executeGameLogic_evolves.
  split_and!; try done.
  - eapply Forall2_fmap_eq; [|exact Hp].
    intros p p' (? & ? & ? & ? & ? & _). unfold playerIdentity. congruence.
  - eapply Forall2_fmap_eq; [|exact Ht].
    intros t t' (? & ? & ? & ? & ? & ? & ? & ? & _).
    unfold tileConfig. congruence.
Qed.

Lemma intent_keeps_configuration_witness :
  ∃ s', Demo.run (Demo.roll 1 2) Demo.trespass
          (Demo.act ActionType.BUY "alice") = Some s' ∧
    tileConfig <$> tiles s' = tileConfig <$> Demo.board.
Proof.
  eexists. split; [vm_compute; reflexivity|].
  etrans; [eapply (intent_keeps_configuration Demo.deck Demo.keyword
                     (Demo.roll 1 2) Demo.trespass
                     (Demo.act ActionType.BUY "alice"));
           vm_compute; reflexivity|].
  reflexivity.
Defined.

Lemma activePlayers_shrink ps ps' :
  Forall2 keepsPlayer ps ps' →
  (length (activePlayers ps') ≤ length (activePlayers ps))%nat.
Proof.
  unfold activePlayers. intros H.
  induction H as [|p p' ps ps' (_&_&_&_&_& Hb &_) _ IH]; [done|].
  rewrite !filter_cons.
  destruct (decide (Player.bankrupt p' = false)) as [Hp'|Hp'].
  - rewrite decide_True; [simpl; lia|].
    destruct (Player.bankrupt p); [|done]. by rewrite Hb in Hp'.
  - case_decide; simpl; lia.
Qed.

(** X2.  Bankruptcy is final: no intent makes a bankrupt player solvent
    again, so the number of active players never goes up. *)
Theorem intent_bankruptcy_is_final deck kw draws s a s' :
  executeGameLogic deck kw draws s a = Some s' →
  (∀ i p, players s !! i = Some p → Player.bankrupt p = true →
     ∃ p', players s' !! i = Some p' ∧ Player.bankrupt p' = true) ∧
  (length (activePlayers (players s'))
     ≤ length (activePlayers (players s)))%nat.
Proof.
  intros (Hp & _)%executeGameLogic_evolves. split.
  - intros i p Hi Hb.
    destruct (Forall2_lookup_l _ _ _ _ _ Hp Hi) as (p' & Hi' & Hk).
    exists p'. split; [done|]. by apply Hk.
  - by apply activePlayers_shrink.
Qed.

Lemma intent_bankruptcy_is_final_witness :
  ∃ s', Demo.run (Demo.roll 1 2) Demo.duel
          (Demo.act ActionType.ROLL "alice") = Some s' ∧
    (length (activePlayers (players s')) ≤ 2)%nat.
Proof.
  eexists. split; [vm_compute; reflexivity|].
  eapply (proj2 (intent_bankruptcy_is_final Demo.deck Demo.keyword
                   (Demo.roll 1 2) Demo.duel
                   (Demo.act ActionType.ROLL "alice") _ _)).
  Unshelve. vm_compute; reflexivity.
Defined.

(** X3.  Building counts stay between 0 and 5: if every tile has such a
    count, every tile still has after any intent. *)
Theorem intent_keeps_building_range deck kw draws s a s' :
  executeGameLogic deck kw draws s a = Some s' →
  Forall (λ t, 0 <= orNum (Tile.houseCount t) 0 <= 5) (tiles s) →
  Forall (λ t, 0 <= orNum (Tile.houseCount t) 0 <= 5) (tiles s').
Proof.
  intros (_ & Ht & _)%executeGameLogic_evolves Hall.
  apply Forall_lookup. intros j t' Hj.
  destruct (Forall2_lookup_r _ _ _ _ _ Ht Hj) as (t & Hj' & Hk).
  apply Hk. by eapply (proj1 (Forall_lookup _ _) Hall).
Qed.

(** X4.  Property lists only grow at their end: no intent removes or
    reorders an entry of any player's list. *)
Theorem intent_keeps_property_lists deck kw draws s a s' i p :
  executeGameLogic deck kw draws s a = Some s' →
  players s !! i = Some p →
  ∃ p', players s' !! i = Some p' ∧
        Player.properties p `prefix_of` Player.properties p'.
Proof.
  intros (Hp & _)%executeGameLogic_evolves Hi.
  destruct (Forall2_lookup_l _ _ _ _ _ Hp Hi) as (p' & Hi' & Hk).
  exists p'. split; [done|]. apply Hk.
Qed.

Lemma intent_keeps_building_range_witness :
  ∃ s', Demo.run (Demo.roll 1 2) Demo.shopping
          (Demo.act ActionType.UPGRADE "alice") = Some s' ∧
    Forall (λ t, 0 <= orNum (Tile.houseCount t) 0 <= 5) (tiles s').
Proof.
  eexists. split; [vm_compute; reflexivity|].
  eapply (intent_keeps_building_range Demo.deck Demo.keyword
            (Demo.roll 1 2) Demo.shopping
            (Demo.act ActionType.UPGRADE "alice"));
    [vm_compute; reflexivity|].
  apply (bool_decide_unpack _). by vm_compute.
Defined.

Lemma intent_keeps_property_lists_witness :
  ∃ s' p', Demo.run (Demo.roll 1 2) Demo.trio
             (Demo.act ActionType.SURRENDER "bob") = Some s' ∧
    players s' !! 1%nat = Some p' ∧ [3] `prefix_of` Player.properties p'.
Proof.
  assert (∃ s', Demo.run (Demo.roll 1 2) Demo.trio
                  (Demo.act ActionType.SURRENDER "bob") = Some s')
    as [s' Hrun] by (eexists; vm_compute; reflexivity).
  destruct (intent_keeps_property_lists Demo.deck Demo.keyword
              (Demo.roll 1 2) Demo.trio
              (Demo.act ActionType.SURRENDER "bob") s'
              1%nat (Demo.seat "bob" "Bob" 1500 20 [3]) Hrun eq_refl)
    as (p' & Hp' & Hprefix).
  exists s', p'. split; [exact Hrun|]. split; [exact Hp'|exact Hprefix].
Defined.

(** ** Turn rotation *)

(** The loop stops at the first solvent player it meets, going round the
    table from [i]; [k] is the number of bankrupt players it skipped. *)
Lemma skipBankrupt_spec ps budget i r :
  (i < length ps)%nat →
  skipBankrupt ps budget i = Some r →
  ∃ k, (k ≤ budget)%nat ∧ r = ((i + k) `mod` length ps)%nat ∧
    (∀ j, (j < k)%nat →
          Player.bankrupt <$> ps !! ((i + j) `mod` length ps)%nat
            = Some true) ∧
    ((k < budget)%nat → Player.bankrupt <$> ps !! r = Some false).
Proof.
  revert i. induction budget as [|b IH]; intros i Hi; simpl.
  - destruct (ps !! i) as [p|] eqn:Hp; [|done]. intros [= <-].
    exists 0%nat. rewrite Nat.add_0_r, Nat.mod_small by done.
    split_and!; [done..|lia|lia].
  - destruct (ps !! i) as [p|] eqn:Hp; [|done].
    destruct (Player.bankrupt p) eqn:Hb.
    + intros Hr. apply IH in Hr as (k & Hk & -> & Hskip & Hstop);
        [|apply Nat.mod_upper_bound; lia].
      exists (S k). split_and!.
      * lia.
      * rewrite Nat.Div0.add_mod_idemp_l. f_equal. lia.
      * intros [|j] Hj.
        -- rewrite Nat.add_0_r, Nat.mod_small, Hp by done. simpl.
           by rewrite Hb.
        -- rewrite <- (Hskip j) by lia.
           rewrite Nat.Div0.add_mod_idemp_l. do 3 f_equal. lia.
      * intros Hlt. apply Hstop. lia.
    + intros [= <-]. exists 0%nat.
      rewrite Nat.add_0_r, Nat.mod_small by done.
      split_and!; [lia|done|lia|]. intros _. rewrite Hp. simpl.
      by rewrite Hb.
Qed.

Lemma mod_once a n : (n ≤ a < 2 * n)%nat → (a `mod` n = a - n)%nat.
Proof.
  intros H. symmetry. apply (Nat.mod_unique a n 1); lia.
Qed.

Lemma two_active ps :
  (1 < length (activePlayers ps))%nat →
  ∀ cur : nat, ∃ m p, m ≠ cur ∧ ps !! m = Some p ∧ Player.bankrupt p = false.
Proof.
  unfold activePlayers. intros Hlen cur.
  assert (∃ i1 i2 p1 p2, i1 ≠ i2 ∧
            ps !! i1 = Some p1 ∧ Player.bankrupt p1 = false ∧
            ps !! i2 = Some p2 ∧ Player.bankrupt p2 = false)
    as (i1 & i2 & p1 & p2 & Hne & H1 & Hb1 & H2 & Hb2).
  { induction ps as [|p ps IH]; [simpl in Hlen; lia|].
    rewrite filter_cons in Hlen. case_decide as Hp.
    - destruct (filter _ ps) as [|q qs] eqn:Hf; [simpl in Hlen; lia|].
      assert (q ∈ filter (λ p, Player.bankrupt p = false) ps) as Hq
        by (rewrite Hf; left).
      apply list_elem_of_filter in Hq as [Hqb Hq].
      apply list_elem_of_lookup in Hq as [i Hi].
      exists 0%nat, (S i), p, q. done.
    - destruct (IH Hlen) as (i1 & i2 & p1 & p2 & ? & ? & ? & ? & ?).
      exists (S i1), (S i2), p1, p2. split_and!; [lia|done..]. }
  destruct (decide (i1 = cur)) as [->|]; eauto 10.
Qed.

(** X5.  With at least two players still active, ending the turn hands it
    to the next solvent player going round the table: every player
    skipped on the way is bankrupt, the new current player is solvent and is
    not the one who ended the turn; the phase becomes [ROLLING] and the
    pending extra roll is dropped. *)
Theorem processEndTurn_next_solvent s l :
  (currentPlayerIndex s < length (players s))%nat →
  (1 < length (activePlayers (players s)))%nat →
  let n := length (players s) in
  ∃ k, (k < n - 1)%nat ∧
    let next := ((currentPlayerIndex s + 1 + k) `mod` n)%nat in
    processEndTurn s l =
      Some (set_waitingForDoublesTurn false
              (set_phase GamePhase.ROLLING (set_currentPlayerIndex next s)),
            l) ∧
    next ≠ currentPlayerIndex s ∧
    Player.bankrupt <$> players s !! next = Some false ∧
    ∀ j, (j < k)%nat →
      Player.bankrupt <$>
        players s !! ((currentPlayerIndex s + 1 + j) `mod` n)%nat
        = Some true.
Proof.
  intros Hcur Hactive n.
  assert (0 < n)%nat as Hn by lia.
  destruct (skipBankrupt_total (players s) n
              ((currentPlayerIndex s + 1) `mod` n)%nat)
    as [r Hr]; [by apply Nat.mod_upper_bound; lia|].
  pose proof Hr as Hspec.
  apply skipBankrupt_spec in Hspec as (k & Hk & -> & Hskip & Hstop);
    [|apply Nat.mod_upper_bound; lia].
  fold n in Hr, Hskip, Hstop |- *.
  assert (∀ j, ((currentPlayerIndex s + 1) `mod` n + j) `mod` n
               = (currentPlayerIndex s + 1 + j) `mod` n)%nat as Hmod
    by (intros j; apply Nat.Div0.add_mod_idemp_l).
  rewrite Hmod in Hr, Hstop.
  assert (k < n - 1)%nat as Hlt.
  { destruct (two_active _ Hactive (currentPlayerIndex s))
      as (m & p & Hne & Hm & Hb).
    pose proof (lookup_lt_Some _ _ _ Hm) as Hmn. fold n in Hmn.
    destruct (decide (k < n - 1)%nat) as [|Hge]; [done|exfalso].
    set (j := (if decide (currentPlayerIndex s < m)%nat
               then m - currentPlayerIndex s - 1
               else m + n - currentPlayerIndex s - 1)%nat).
    assert (j < k ∧ (currentPlayerIndex s + 1 + j) `mod` n = m)%nat
      as [Hjk Hjm].
    { subst j. case_decide.
      - split; [lia|]. rewrite Nat.mod_small; lia.
      - split; [lia|]. rewrite mod_once; lia. }
    specialize (Hskip j Hjk). rewrite Hmod, Hjm, Hm in Hskip.
    simpl in Hskip. congruence. }
  exists k. split; [done|]. simpl. split_and!.
  - unfold processEndTurn. unfold_M. fold n. rewrite Hr. unfold ret.
    simpl. by rewrite decide_False by lia.
  - destruct (decide (currentPlayerIndex s + 1 + k < n)%nat).
    + rewrite Nat.mod_small; lia.
    + rewrite mod_once; lia.
  - apply Hstop. lia.
  - intros j Hj. rewrite <- Hmod. by apply Hskip.
Qed.

Lemma processEndTurn_next_solvent_witness :
  ∃ s' l', processEndTurn (surrendered Demo.trio 1
                             (Demo.seat "bob" "Bob" 1500 20 [3])) []
             = Some (s', l') ∧
    currentPlayerIndex s' = 2%nat.
Proof.
  destruct (processEndTurn_next_solvent
              (surrendered Demo.trio 1 (Demo.seat "bob" "Bob" 1500 20 [3]))
              []) as (k & Hk & Hrun & _ & Hsolvent & _).
  - simpl. lia.
  - vm_compute. lia.
  - eexists _, _. split; [exact Hrun|]. simpl.
    assert (k = 1)%nat as ->; [|reflexivity].
    destruct k as [|[|k]]; [|done|simpl in Hk; lia].
    vm_compute in Hsolvent. discriminate.
Defined.

(** ** The winner *)

Lemma firstActive_Some ps i :
  firstActive ps = Some i →
  ∃ p, ps !! i = Some p ∧ Player.bankrupt p = false.
Proof.
  unfold firstActive. intros H.
  destruct (list_find _ ps) as [[j p]|] eqn:Hfind; simplify_eq/=.
  apply list_find_Some in Hfind as (? & ? & _). eauto.
Qed.

Lemma firstActive_None ps :
  firstActive ps = None ↔ Forall (λ p, Player.bankrupt p = true) ps.
Proof.
  unfold firstActive. rewrite fmap_None, list_find_None.
  apply Forall_proper; [|done]. intros p. by destruct (Player.bankrupt p).
Qed.

(** With at most one active player, that player is the first active one. *)
Lemma firstActive_unique ps i p :
  (length (activePlayers ps) ≤ 1)%nat →
  ps !! i = Some p → Player.bankrupt p = false → firstActive ps = Some i.
Proof.
  intros Hlen Hi Hb.
  destruct (firstActive ps) as [j|] eqn:Hj.
  - destruct (decide (j = i)) as [->|Hne]; [done|exfalso].
    apply firstActive_Some in Hj as (q & Hq & Hqb).
    assert (1 < length (activePlayers ps))%nat; [|lia].
    clear Hlen. unfold activePlayers.
    revert i j Hi Hq Hne. induction ps as [|x ps IH]; intros i j Hi Hj Hne;
      [done|].
    rewrite filter_cons. destruct i as [|i], j as [|j]; simplify_eq/=.
    + rewrite decide_True by done. simpl.
      assert (q ∈ filter (λ p, Player.bankrupt p = false) ps) as Hin
        by (apply list_elem_of_filter; split;
            [done|by eapply list_elem_of_lookup_2]).
      destruct (filter _ ps); [by apply elem_of_nil in Hin|simpl; lia].
    + rewrite decide_True by done. simpl.
      assert (p ∈ filter (λ p, Player.bankrupt p = false) ps) as Hin
        by (apply list_elem_of_filter; split;
            [done|by eapply list_elem_of_lookup_2]).
      destruct (filter _ ps); [by apply elem_of_nil in Hin|simpl; lia].
    + assert (i ≠ j) by congruence.
      specialize (IH i j Hi Hj). case_decide; simpl; lia.
  - apply firstActive_None in Hj.
    apply (proj1 (Forall_lookup _ _) Hj) in Hi. congruence.
Qed.

(** X6.  With at most one player still active, ending the turn ends the
    game: the phase becomes [GAME_OVER], the turn pointer stays, and the
    recorded winner is the one solvent player -- or nobody when every
    player is bankrupt. *)
Theorem processEndTurn_game_over s l :
  (0 < length (players s))%nat →
  (length (activePlayers (players s)) ≤ 1)%nat →
  ∃ s', processEndTurn s l = Some (s', l) ∧
    phase s' = GamePhase.GAME_OVER ∧
    currentPlayerIndex s' = currentPlayerIndex s ∧
    players s' = players s ∧
    (∀ i p, players s !! i = Some p → Player.bankrupt p = false →
            winner s' = Some i) ∧
    (Forall (λ p, Player.bankrupt p = true) (players s) ↔ winner s' = None).
Proof.
  intros Hn Hactive.
  destruct (processEndTurn_total s l Hn) as (s' & Hrun & _).
  exists s'. split; [done|].
  apply processEndTurn_spec in Hrun as (_ & [[_ ->]|[? _]]); [|lia].
  simpl. split_and!; [done..| |].
  - intros i p Hi Hb. by eapply firstActive_unique.
  - by rewrite firstActive_None.
Qed.

Lemma processEndTurn_game_over_witness :
  ∃ s' l', processEndTurn (surrendered Demo.duel 0
                             (Demo.seat "alice" "Alice" 3 0 [1])) []
             = Some (s', l') ∧ winner s' = Some 1%nat.
Proof.
  destruct (processEndTurn_game_over
              (surrendered Demo.duel 0 (Demo.seat "alice" "Alice" 3 0 [1]))
              []) as (s' & Hrun & _ & _ & _ & Hwin & _).
  - simpl. lia.
  - vm_compute. lia.
  - exists s', []. split; [exact Hrun|].
    apply (Hwin 1%nat (Demo.seat "bob" "Bob" 1500 20 [3])); reflexivity.
Defined.

(** ** Bail *)

(** X7.  Paying bail as the current-turn player.  With less than $50 the
    intent is refused: a warning is logged and nothing else changes.
    Otherwise exactly $50 are deducted and the player is free with both
    counters at 0 -- whether or not the player was in jail: the host does
    not check. *)
Theorem processPayBail_spec s player idx l :
  findPlayer (players s) (Player.id player) = Some (idx, player) →
  (Player.money player < 50 →
   processPayBail s player l =
   Some (s, l ++ [GameLog.mk (GameLog.BailNoFunds (Player.name player))
                             GameLog.warning])) ∧
  (50 <= Player.money player →
   ∃ s', processPayBail s player l =
         Some (s', l ++ [GameLog.mk (GameLog.BailPaid (Player.name player))
                                    GameLog.success]) ∧
     players s' !! idx =
       Some (Player.release
               (Player.set_money (Player.money player - 50) player)) ∧
     (∀ j, j ≠ idx → players s' !! j = players s !! j) ∧
     tiles s' = tiles s ∧ phase s' = phase s ∧
     currentPlayerIndex s' = currentPlayerIndex s).
Proof.
  intros Hfind. pose proof (findPlayer_Some _ _ _ _ Hfind) as [Hidx _].
  unfold processPayBail. unfold_M. split.
  - intros Hpoor. by rewrite decide_True.
  - intros Hrich. rewrite decide_False by lia. rewrite Hfind. simpl.
    eexists. split; [done|]. simpl.
    rewrite list_lookup_alter_eq, Hidx. split_and!; try done.
    intros j Hj. by rewrite list_lookup_alter_ne.
Qed.

Lemma processPayBail_spec_witness :
  ∃ s' l', processPayBail Demo.monopoly
             (Demo.seat "alice" "Alice" 1500 0 []) [] = Some (s', l') ∧
    Player.isInJail (Demo.seat "alice" "Alice" 1500 0 []) = false ∧
    Player.money <$> players s' !! 0%nat = Some 1450.
Proof.
  destruct (processPayBail_spec Demo.monopoly
              (Demo.seat "alice" "Alice" 1500 0 []) 0%nat [] eq_refl)
    as [_ H].
  destruct H as (s' & Hrun & Hp & _); [simpl; lia|].
  eexists _, _. split; [exact Hrun|]. split; [reflexivity|].
  rewrite Hp. reflexivity.
Defined.

(** ** Purchases *)

(** X8.  [processBuy] changes the state exactly when the tile the player
    stands on has a (non-zero) price the player can afford; then the price
    is deducted, the tile id is appended to the player's property list and
    the tile's owner becomes the player.  Otherwise the state comes back
    unchanged and nothing is logged.  Neither the type of the tile nor its
    current owner is looked at. *)
Theorem processBuy_spec s player idx tile l :
  findPlayer (players s) (Player.id player) = Some (idx, player) →
  nthZ (tiles s) (Player.position player) = Some tile →
  (∀ price, truthyNum (Tile.price tile) = Some price →
     price <= Player.money player →
     processBuy s player l =
     Some (set_phase (if waitingForDoublesTurn s
                      then GamePhase.ROLLING else GamePhase.END_TURN)
             (set_tiles
                (setZ (tiles s) (Player.position player)
                      (Tile.set_ownerId (Some (Player.id player)) tile))
                (set_players
                   (alter (λ p, Player.set_properties
                                  (Player.properties p ++ [Tile.id tile])
                                  (Player.set_money
                                     (Player.money p - price) p))
                          idx (players s)) s)),
           l ++ [GameLog.mk (GameLog.Bought (Player.name player) price
                               (Tile.name tile)) GameLog.success])) ∧
  ((truthyNum (Tile.price tile) = None ∨
    ∃ price, truthyNum (Tile.price tile) = Some price ∧
             Player.money player < price) →
   processBuy s player l = Some (s, l)).
Proof.
  intros Hfind Htile. unfold processBuy. unfold_M. rewrite Htile. simpl.
  split.
  - intros price -> Hafford. rewrite decide_False by lia.
    by rewrite Hfind.
  - intros [->|(price & -> & Hpoor)]; [done|]. by rewrite decide_True.
Qed.

Lemma processBuy_spec_witness :
  ∃ s' l', processBuy Demo.atTax (Demo.seat "alice" "Alice" 50 4 [1]) []
             = Some (s', l') ∧
    Tile.type <$> tiles Demo.atTax !! 4%nat = Some TileType.TAX ∧
    s' = Demo.atTax ∧ l' = [].
Proof.
  destruct (processBuy_spec Demo.atTax (Demo.seat "alice" "Alice" 50 4 [1])
              0%nat (Demo.plain 4 "Income tax" TileType.TAX (Some 200)) []
              eq_refl eq_refl) as [_ H].
  eexists _, _. split; [apply H|done].
  right. exists 200. split; [reflexivity|simpl; lia].
Defined.

(** ** Rent is a transfer *)

Lemma totalMoney_alter f (i : nat) ps p :
  ps !! i = Some p →
  totalMoney (alter f i ps)
  = totalMoney ps + (Player.money (f p) - Player.money p).
Proof.
  unfold totalMoney. revert i. induction ps as [|q ps IH]; intros [|i] Hi;
    simplify_eq/=; [lia|].
  rewrite (IH i Hi). lia.
Qed.

Lemma totalMoney_same f (i : nat) ps :
  (∀ p, Player.money (f p) = Player.money p) →
  totalMoney (alter f i ps) = totalMoney ps.
Proof.
  intros Hf. unfold totalMoney. revert i.
  induction ps as [|q ps IH]; intros [|i]; simpl; [done..| |].
  - by rewrite Hf.
  - f_equal. apply IH.
Qed.

(** X9.  Rent is a transfer between two players: whatever the rent and
    whether or not it bankrupts the visitor, landing on another player's
    tile leaves the total money in the players' hands unchanged. *)
Theorem payRent_conserves_money s pid pIdx player tile owner oIdx dbl l
    s' l' :
  findPlayer (players s) pid = Some (pIdx, player) →
  findPlayer (players s) (Player.id owner) = Some (oIdx, owner) →
  pIdx ≠ oIdx →
  payRent s pid pIdx player tile owner dbl l = Some (s', l') →
  totalMoney (players s') = totalMoney (players s).
Proof.
  intros Hfind Hown Hne.
  pose proof (findPlayer_Some _ _ _ _ Hfind) as [Hidx _].
  pose proof (findPlayer_Some _ _ _ _ Hown) as [Hoidx _].
  unfold payRent. unfold_M.
  destruct (computeRent s tile owner l) as [[rent l1]|]; [|done].
  rewrite Hown. simpl.
  assert (totalMoney
            (alter (λ p, Player.set_money (Player.money p + rent) p) oIdx
               (alter (λ p, Player.set_money (Player.money p - rent) p) pIdx
                  (players s))) = totalMoney (players s)) as Hpaid.
  { rewrite (totalMoney_alter _ oIdx _ owner)
      by (by rewrite list_lookup_alter_ne).
    rewrite (totalMoney_alter _ pIdx _ player) by done. simpl. lia. }
  intros H.
  repeat (first [ case_decide | case_match ]; unfold ret in *;
          simplify_eq/=).
  all: by rewrite ?totalMoney_same by done.
Qed.

Lemma payRent_conserves_money_witness :
  ∃ s' l', payRent Demo.trespass "alice" 0%nat Demo.visitor Demo.brown2
             Demo.bob false [] = Some (s', l') ∧
    totalMoney (players s') = 3000.
Proof.
  eexists _, _. split; [vm_compute; reflexivity|].
  etrans; [eapply (payRent_conserves_money Demo.trespass "alice" 0%nat
                     Demo.visitor Demo.brown2 Demo.bob 1%nat false []);
           [reflexivity|reflexivity|lia|vm_compute; reflexivity]|].
  reflexivity.
Defined.

(** ** Positions and counters *)

Lemma onBoard_same f p :
  jailView (f p) = jailView p → onBoard p → onBoard (f p).
Proof.
  unfold jailView, onBoard. intros [= -> -> -> ->]. done.
Qed.

Ltac on_board_same :=
  apply Forall_alter;
  [|intros ? _ ?; unfold onBoard in *; simpl; done].

Lemma onBoard_advance steps p :
  0 <= steps <= 40 → Player.isInJail p = false →
  onBoard p → onBoard (advance steps p).
Proof.
  unfold onBoard, advance. intros Hsteps Hfree (? & ? & ? & _).
  repeat case_decide; simpl; rewrite Hfree; split_and!; (done || lia).
Qed.

Lemma applyChanceEffect_onBoard kw s pid card dbl idx p l s' l' :
  Forall onBoard (players s) → fairCard card →
  findPlayer (players s) pid = Some (idx, p) →
  Player.isInJail p = false →
  applyChanceEffect kw s pid card dbl l = Some (s', l') →
  Forall onBoard (players s').
Proof.
  intros Hall Hcard Hfind Hfree.
  pose proof (findPlayer_Some _ _ _ _ Hfind) as [Hidx _].
  unfold applyChanceEffect, fairCard in *. unfold_M. rewrite Hfind. simpl.
  intros H. evolves_cases.
  all: apply Forall_alter; [done|].
  all: intros x Hx; rewrite Hidx in Hx; injection Hx as <-.
  all: unfold onBoard, Player.jail; intros (? & ? & ? & _); simpl.
  all: repeat case_decide; repeat case_bool_decide; simpl;
    rewrite ?Hfree; split_and!; (done || lia).
Qed.

Lemma payRent_onBoard s pid pIdx player tile owner dbl l s' l' :
  Forall onBoard (players s) →
  payRent s pid pIdx player tile owner dbl l = Some (s', l') →
  Forall onBoard (players s').
Proof.
  intros Hall. unfold payRent. unfold_M.
  destruct (computeRent s tile owner l) as [[rent l1]|]; [|done].
  intros H. evolves_cases.
  all: repeat on_board_same; done.
Qed.

Lemma handleLanding_onBoard deck kw draws s pid dbl idx p l s' l' :
  Forall onBoard (players s) → Forall fairCard deck →
  findPlayer (players s) pid = Some (idx, p) →
  Player.isInJail p = false →
  handleLanding deck kw draws s pid dbl l = Some (s', l') →
  Forall onBoard (players s').
Proof.
  intros Hall Hdeck Hfind Hfree.
  pose proof (findPlayer_Some _ _ _ _ Hfind) as [Hidx _].
  unfold handleLanding. rewrite Hfind. unfold_M. intros H. evolves_cases.
  all: try match goal with
           | H : payRent _ _ _ _ _ _ _ _ = Some _ |- _ =>
             by apply payRent_onBoard in H
           | H : applyChanceEffect _ _ _ _ _ _ = Some _,
             Hc : _ !! _ = Some ?c |- _ =>
             eapply (applyChanceEffect_onBoard _ _ _ c) in H;
             [done|done| |exact Hfind|done];
             eapply (proj1 (Forall_lookup _ _) Hdeck); exact Hc
           end.
  all: try done.
  all: try (repeat on_board_same; done).
  all: apply Forall_alter; [done|]; intros x _ (? & ? & ? & _);
    unfold onBoard, Player.jail; simpl; split_and!; (done || lia).
Qed.

Lemma movePlayer_onBoard deck kw draws s steps pid dbl idx p l s' l' :
  Forall onBoard (players s) → Forall fairCard deck →
  findPlayer (players s) pid = Some (idx, p) →
  Player.isInJail p = false → 0 <= steps <= 40 →
  movePlayer deck kw draws s steps pid dbl l = Some (s', l') →
  Forall onBoard (players s').
Proof.
  intros Hall Hdeck Hfind Hfree Hsteps.
  pose proof (findPlayer_Some _ _ _ _ Hfind) as [Hidx _].
  rewrite (movePlayer_lands _ _ _ _ _ _ _ _ _ _ Hfind).
  apply (handleLanding_onBoard _ _ _ _ _ _ idx (advance steps p)); simpl.
  - apply Forall_alter; [done|]. intros x Hx. rewrite Hidx in Hx.
    injection Hx as <-. by apply onBoard_advance.
  - done.
  - apply findPlayer_alter_self; [|done]. intros q. apply advance_fields.
  - by destruct (advance_fields steps p) as (_ & -> & _).
Qed.

Lemma processRoll_onBoard deck kw draws s player idx l s' l' :
  Forall onBoard (players s) → Forall fairCard deck →
  1 <= d1 draws <= 6 → 1 <= d2 draws <= 6 →
  findPlayer (players s) (Player.id player) = Some (idx, player) →
  processRoll deck kw draws s player l = Some (s', l') →
  Forall onBoard (players s').
Proof.
  intros Hall Hdeck Hd1 Hd2 Hfind.
  pose proof (findPlayer_Some _ _ _ _ Hfind) as [Hidx _].
  assert (onBoard player) as Hplayer
    by (by eapply (proj1 (Forall_lookup _ _) Hall)).
  assert (∀ f, (∀ p, Player.id (f p) = Player.id p) →
               Player.isInJail (f player) = false →
               onBoard (f player) →
               ∀ dbl l0,
                 movePlayer deck kw draws
                   (set_players (alter f idx (players s)) (rolled draws s))
                   (d1 draws + d2 draws) (Player.id player) dbl l0
                 = Some (s', l') →
                 Forall onBoard (players s')) as Hmove.
  { intros f Hid Hfree Hok dbl l0.
    apply (movePlayer_onBoard _ _ _ _ _ _ _ idx (f player)); simpl.
    - apply Forall_alter; [done|]. intros x Hx. rewrite Hidx in Hx.
      by injection Hx as <-.
    - done.
    - by apply findPlayer_alter_self.
    - done.
    - lia. }
  destruct Hplayer as (Hpos & Hjt & Hcd & Hjail).
  destruct (Player.isInJail player) eqn:Hin.
  - destruct (decide (d1 draws = d2 draws)) as [Hdbl|Hdbl].
    + rewrite (processRoll_jail_double _ _ _ _ _ _ _ Hfind Hin Hdbl).
      apply Hmove; [done..|]. unfold onBoard. simpl. split_and!; (done || lia).
    + destruct (decide (2 <= Player.jailTurns player)) as [Hturns|Hturns].
      * rewrite (processRoll_jail_forced _ _ _ _ _ _ _ Hfind Hin Hdbl Hturns).
        apply Hmove; [done..|]. unfold onBoard. simpl.
        split_and!; (done || lia).
      * rewrite (processRoll_jail_failed _ _ _ _ _ _ _ Hfind Hin Hdbl)
          by lia.
        intros [= <- _]. simpl. apply Forall_alter; [done|].
        intros x Hx. rewrite Hidx in Hx. injection Hx as <-. intros _.
        unfold onBoard. simpl. rewrite Hin. split_and!; (done || lia).
  - destruct (decide ((if bool_decide (d1 draws = d2 draws)
                       then Player.consecutiveDoubles player + 1 else 0)
                      = 3)) as [Hthree|Hnext].
    + case_bool_decide as Hdbl; [|done].
      rewrite (processRoll_speeding _ _ _ _ _ _ _ Hfind Hin Hdbl Hthree).
      intros [= <- _]. simpl. apply Forall_alter; [done|].
      intros x _ _. unfold onBoard, Player.jail. simpl.
      split_and!; (done || lia).
    + rewrite (processRoll_free_move _ _ _ _ _ _ _ Hfind Hin Hnext).
      apply Hmove; [done|by simpl|].
      unfold onBoard. simpl. rewrite Hin.
      case_bool_decide; split_and!; (done || lia).
Qed.

Lemma processSurrender_players s player l s' l' :
  processSurrender s player l = Some (s', l') →
  ∃ i, players s' =
       alter (λ p, Player.set_money 0 (Player.set_bankrupt true p)) i
             (players s).
Proof.
  unfold processSurrender. unfold_M. intros H. evolves_cases.
  all: try match goal with
           | H : processEndTurn _ _ = Some _ |- _ =>
             apply processEndTurn_spec in H as (_ & [[_ ->]|[_ [? ->]]])
           end.
  all: by eexists.
Qed.

Lemma executeGameLogic_onBoard deck kw draws s a s' :
  Forall onBoard (players s) → Forall fairCard deck →
  1 <= d1 draws <= 6 → 1 <= d2 draws <= 6 →
  executeGameLogic deck kw draws s a = Some s' →
  Forall onBoard (players s').
Proof.
  intros Hall Hdeck Hd1 Hd2. unfold executeGameLogic.
  destruct (findPlayer (players s) (playerId a)) as [[i player]|] eqn:Hfind;
    [|by intros [= <-]].
  pose proof (findPlayer_Some _ _ _ _ Hfind) as [Hidx Hid].
  rewrite <- Hid in Hfind.
  destruct (players s !! currentPlayerIndex s) as [current|]; [|done].
  destruct (negb _ && negb _); [by intros [= <-]|].
  destruct (actionType a);
    match goal with
    | |- match ?run with _ => _ end = _ → _ =>
      destruct run as [[s1 l1]|] eqn:Hrun; [|done]
    end; intros [= <-]; simpl.
  - by eapply processRoll_onBoard.
  - revert Hrun. unfold processBuy. unfold_M. intros H. evolves_cases.
    all: try done. all: repeat on_board_same; done.
  - revert Hrun. unfold processPass. unfold_M. intros H. evolves_cases.
    all: done.
  - revert Hrun. unfold processPayBail. unfold_M. intros H. evolves_cases.
    all: try done.
    all: apply Forall_alter; [done|]; intros x _ (? & ? & ? & _);
      unfold onBoard; simpl; split_and!; (done || lia).
  - revert Hrun. unfold processUpgrade. unfold_M. intros H. evolves_cases.
    all: try done. all: repeat on_board_same; done.
  - by apply processEndTurn_spec in Hrun as (_ & [[_ ->]|[_ [? ->]]]).
  - apply processSurrender_players in Hrun as [j ->].
    repeat on_board_same; done.
Qed.

(** X10.  Every player stays on the ring of forty tiles, the jail-turn and
    consecutive-doubles counters stay between 0 and 2, and a jailed player
    stands on the jail tile -- before and after any intent, as long as the
    dice show 1 to 6 and the cards keep players on the ring. *)
Theorem intent_keeps_players_on_board deck kw draws s a s' :
  Forall onBoard (players s) → Forall fairCard deck →
  1 <= d1 draws <= 6 → 1 <= d2 draws <= 6 →
  executeGameLogic deck kw draws s a = Some s' →
  Forall onBoard (players s').
Proof. apply executeGameLogic_onBoard. Qed.

Lemma intent_keeps_players_on_board_witness :
  ∃ s', Demo.run (mkDraws 3 4 2) Demo.monopoly
          (Demo.act ActionType.ROLL "alice") = Some s' ∧
    Player.position <$> players s' !! 0%nat = Some 4 ∧
    Forall onBoard (players s').
Proof.
  eexists. split; [vm_compute; reflexivity|].
  split; [reflexivity|].
  apply (intent_keeps_players_on_board Demo.deck Demo.keyword
           (mkDraws 3 4 2) Demo.monopoly
           (Demo.act ActionType.ROLL "alice"));
    [| |simpl; lia|simpl; lia|vm_compute; reflexivity].
  - apply (bool_decide_unpack _). by vm_compute.
  - apply (bool_decide_unpack _). by vm_compute.
Defined.

(** ** The turn pointer *)

Ltac pointer_cases :=
  repeat (first [ case_decide | case_match ]; unfold ret, throw in *;
          simplify_eq/=; try done).

Lemma applyChanceEffect_pointer kw s pid card dbl l s' l' :
  applyChanceEffect kw s pid card dbl l = Some (s', l') →
  currentPlayerIndex s' = currentPlayerIndex s.
Proof. unfold applyChanceEffect. unfold_M. intros H. pointer_cases. Qed.

Lemma payRent_pointer s pid pIdx player tile owner dbl l s' l' :
  payRent s pid pIdx player tile owner dbl l = Some (s', l') →
  currentPlayerIndex s' = currentPlayerIndex s.
Proof.
  unfold payRent. unfold_M.
  destruct (computeRent s tile owner l) as [[rent l1]|]; [|done].
  intros H. pointer_cases.
Qed.

Lemma handleLanding_pointer deck kw draws s pid dbl l s' l' :
  handleLanding deck kw draws s pid dbl l = Some (s', l') →
  currentPlayerIndex s' = currentPlayerIndex s.
Proof.
  unfold handleLanding. unfold_M. intros H. pointer_cases.
  all: try match goal with
           | H : payRent _ _ _ _ _ _ _ _ = Some _ |- _ =>
             by apply payRent_pointer in H
           | H : applyChanceEffect _ _ _ _ _ _ = Some _ |- _ =>
             by apply applyChanceEffect_pointer in H
           end.
Qed.

Lemma movePlayer_pointer deck kw draws s steps pid dbl l s' l' :
  movePlayer deck kw draws s steps pid dbl l = Some (s', l') →
  currentPlayerIndex s' = currentPlayerIndex s.
Proof.
  unfold movePlayer. unfold_M. intros H. pointer_cases.
  all: match goal with
       | H : handleLanding _ _ _ _ _ _ _ = Some _ |- _ =>
         by apply handleLanding_pointer in H
       end.
Qed.

Lemma processRoll_pointer deck kw draws s player l s' l' :
  processRoll deck kw draws s player l = Some (s', l') →
  currentPlayerIndex s' = currentPlayerIndex s.
Proof.
  unfold processRoll. unfold_M. intros H. pointer_cases.
  all: match goal with
       | H : movePlayer _ _ _ _ _ _ _ _ = Some _ |- _ =>
         by apply movePlayer_pointer in H
       end.
Qed.

Lemma skipBankrupt_lt ps budget i r :
  skipBankrupt ps budget i = Some r → (r < length ps)%nat.
Proof.
  revert i. induction budget as [|b IH]; intros i; simpl;
    destruct (ps !! i) as [p|] eqn:Hp; try done.
  - intros [= <-]. by eapply lookup_lt_Some.
  - destruct (Player.bankrupt p); [apply IH|].
    intros [= <-]. by eapply lookup_lt_Some.
Qed.

Lemma processEndTurn_pointer s l s' l' :
  (currentPlayerIndex s < length (players s))%nat →
  processEndTurn s l = Some (s', l') →
  (currentPlayerIndex s' < length (players s'))%nat.
Proof.
  intros Hcur. unfold processEndTurn. unfold_M.
  destruct (skipBankrupt _ _ _) as [next|] eqn:Hnext; [|done].
  apply skipBankrupt_lt in Hnext. case_decide; by intros [= <- _].
Qed.

Lemma processBuy_pointer s player l s' l' :
  processBuy s player l = Some (s', l') →
  currentPlayerIndex s' = currentPlayerIndex s.
Proof. unfold processBuy. unfold_M. intros H. pointer_cases. Qed.

Lemma processPass_pointer s player l s' l' :
  processPass s player l = Some (s', l') →
  currentPlayerIndex s' = currentPlayerIndex s.
Proof. unfold processPass. unfold_M. intros H. pointer_cases. Qed.

Lemma processPayBail_pointer s player l s' l' :
  processPayBail s player l = Some (s', l') →
  currentPlayerIndex s' = currentPlayerIndex s.
Proof. unfold processPayBail. unfold_M. intros H. pointer_cases. Qed.

Lemma processUpgrade_pointer s player l s' l' :
  processUpgrade s player l = Some (s', l') →
  currentPlayerIndex s' = currentPlayerIndex s.
Proof. unfold processUpgrade. unfold_M. intros H. pointer_cases. Qed.

Lemma processSurrender_pointer s player l s' l' :
  (currentPlayerIndex s < length (players s))%nat →
  processSurrender s player l = Some (s', l') →
  (currentPlayerIndex s' < length (players s'))%nat.
Proof.
  intros Hcur. unfold processSurrender. unfold_M. intros H.
  pointer_cases.
  all: try (rewrite length_alter; lia).
  all: match goal with
       | H : processEndTurn _ _ = Some _ |- _ =>
         apply processEndTurn_pointer in H; [done|]
       end.
  all: simpl; rewrite length_alter; lia.
Qed.

(** X11.  Only ending a turn and surrendering can move the turn pointer:
    a roll, a purchase, a refusal, a bail payment and an upgrade leave the
    turn with the same player, whatever happens on the board. *)
Theorem intent_keeps_turn deck kw draws s a s' :
  actionType a ≠ ActionType.END_TURN →
  actionType a ≠ ActionType.SURRENDER →
  executeGameLogic deck kw draws s a = Some s' →
  currentPlayerIndex s' = currentPlayerIndex s.
Proof.
  intros Hend Hquit. unfold executeGameLogic.
  destruct (findPlayer (players s) (playerId a)) as [[i player]|];
    [|by intros [= <-]].
  destruct (players s !! currentPlayerIndex s) as [current|]; [|done].
  destruct (negb _ && negb _); [by intros [= <-]|].
  destruct (actionType a); try done;
    match goal with
    | |- match ?run with _ => _ end = _ → _ =>
      destruct run as [[s1 l1]|] eqn:Hrun; [|done]
    end; intros [= <-]; simpl.
  - by eapply processRoll_pointer.
  - by eapply processBuy_pointer.
  - by eapply processPass_pointer.
  - by eapply processPayBail_pointer.
  - by eapply processUpgrade_pointer.
Qed.

Lemma intent_keeps_turn_witness :
  ∃ s', Demo.run (Demo.roll 1 2) Demo.duel
          (Demo.act ActionType.ROLL "alice") = Some s' ∧
    phase s' = GamePhase.GAME_OVER ∧ currentPlayerIndex s' = 0%nat.
Proof.
  eexists. split; [vm_compute; reflexivity|]. split; [reflexivity|].
  apply (intent_keeps_turn Demo.deck Demo.keyword (Demo.roll 1 2) Demo.duel
           (Demo.act ActionType.ROLL "alice")); [done|done|].
  vm_compute. reflexivity.
Defined.

Lemma executeGameLogic_pointer deck kw draws s a s' :
  (currentPlayerIndex s < length (players s))%nat →
  executeGameLogic deck kw draws s a = Some s' →
  (currentPlayerIndex s' < length (players s'))%nat.
Proof.
  intros Hcur Hrun.
  pose proof (executeGameLogic_evolves _ _ _ _ _ _ Hrun) as (Hp & _).
  apply Forall2_length in Hp. revert Hrun. unfold executeGameLogic.
  destruct (findPlayer (players s) (playerId a)) as [[i player]|];
    [|by intros [= <-]].
  destruct (players s !! currentPlayerIndex s) as [current|]; [|done].
  destruct (negb _ && negb _); [by intros [= <-]|].
  destruct (actionType a);
    match goal with
    | |- match ?run with _ => _ end = _ → _ =>
      destruct run as [[s1 l1]|] eqn:Hrun; [|done]
    end; intros [= <-]; simpl in *; rewrite <- ?Hp.
  - by rewrite (processRoll_pointer _ _ _ _ _ _ _ _ Hrun).
  - by rewrite (processBuy_pointer _ _ _ _ _ Hrun).
  - by rewrite (processPass_pointer _ _ _ _ _ Hrun).
  - by rewrite (processPayBail_pointer _ _ _ _ _ Hrun).
  - by rewrite (processUpgrade_pointer _ _ _ _ _ Hrun).
  - rewrite Hp. by eapply processEndTurn_pointer.
  - rewrite Hp. by eapply processSurrender_pointer.
Qed.

(** ** The host never throws *)

Lemma tileOk_keeps t t' : keepsTile t t' → tileOk t → tileOk t'.
Proof.
  intros (_ & _ & Hty & _ & Hrent & Hgroup & _ & _ & Hlevel)
         (Htiers & Hcount & Hstation).
  unfold tileOk. rewrite Hty, Hrent, Hgroup. auto.
Qed.

Lemma wellFormed_playable deck draws s :
  wellFormed deck s → fairDraws deck draws → playable deck draws s.
Proof.
  intros (Hlen & Htiles & _) (_ & _ & Hcard). split_and!; [done|..].
  - by apply lookup_lt_is_Some_2.
  - intros t Hin. rewrite Forall_forall in Htiles.
    destruct (Htiles t Hin) as (Htiers & Hcount & Hstation).
    split; [|done]. intros tiers Hrent. apply nthZ_is_Some.
    rewrite Hrent in Htiers. rewrite Htiers. lia.
Qed.

Lemma movePlayer_returns deck kw draws s steps pid dbl idx p l :
  playable deck draws s →
  findPlayer (players s) pid = Some (idx, p) →
  0 <= Player.position p + steps < 80 →
  is_Some (movePlayer deck kw draws s steps pid dbl l).
Proof.
  intros Hplay Hfind Hrange. erewrite movePlayer_lands by done.
  pose proof (findPlayer_Some _ _ _ _ Hfind) as [_ Hid].
  eapply (handleLanding_returns _ _ _ _ _ _ idx (advance steps p)).
  - done.
  - simpl. subst pid. apply findPlayer_alter_self; [|done].
    intros q. apply advance_fields.
  - rewrite advance_position by done. apply Z.mod_pos_bound. lia.
Qed.

Lemma processRoll_returns deck kw draws s player idx l :
  playable deck draws s →
  findPlayer (players s) (Player.id player) = Some (idx, player) →
  0 <= Player.position player < 40 →
  1 <= d1 draws <= 6 → 1 <= d2 draws <= 6 →
  is_Some (processRoll deck kw draws s player l).
Proof.
  intros Hplay Hfind Hpos Hd1 Hd2.
  assert (∀ f dbl l0,
    (∀ p, Player.id (f p) = Player.id p) →
    (∀ p, Player.position (f p) = Player.position p) →
    is_Some (movePlayer deck kw draws
               (set_players (alter f idx (players s)) (rolled draws s))
               (d1 draws + d2 draws) (Player.id player) dbl l0)) as Hmove.
  { intros f dbl l0 Hid Hp.
    eapply (movePlayer_returns _ _ _ _ _ _ _ idx (f player)).
    - done.
    - simpl. by apply findPlayer_alter_self.
    - rewrite Hp. lia. }
  destruct (Player.isInJail player) eqn:Hjail.
  - destruct (decide (d1 draws = d2 draws)) as [Hdbl|Hdbl].
    + erewrite processRoll_jail_double by done. by apply Hmove.
    + destruct (decide (2 <= Player.jailTurns player)).
      * erewrite processRoll_jail_forced by done. by apply Hmove.
      * erewrite processRoll_jail_failed by (done || lia). done.
  - destruct (decide ((if bool_decide (d1 draws = d2 draws)
                       then Player.consecutiveDoubles player + 1 else 0) = 3))
      as [Hthree|Hthree].
    + case_bool_decide; [|done].
      erewrite processRoll_speeding by done. done.
    + erewrite processRoll_free_move by done. by apply Hmove.
Qed.

Lemma executeGameLogic_returns deck kw draws s a :
  wellFormed deck s → fairDraws deck draws →
  is_Some (executeGameLogic deck kw draws s a).
Proof.
  intros Hwf Hfair.
  pose proof (wellFormed_playable _ _ _ Hwf Hfair) as Hplay.
  destruct Hwf as (Hlen & _ & Hcur & Hboard & _).
  destruct Hfair as (Hd1 & Hd2 & _).
  unfold executeGameLogic.
  destruct (findPlayer (players s) (playerId a)) as [[i player]|] eqn:Hfind;
    [|done].
  pose proof (findPlayer_Some _ _ _ _ Hfind) as [Hi Hid].
  rewrite <- Hid in Hfind.
  destruct (lookup_lt_is_Some_2 _ _ Hcur) as [current Hcurrent].
  rewrite Hcurrent.
  destruct (negb _ && negb _); [done|].
  assert (onBoard player) as (Hpos & _).
  { rewrite Forall_lookup in Hboard. by eapply Hboard. }
  assert (∀ r : option (GameState * list GameLog.t), is_Some r →
    is_Some match r with
            | Some (newState, logs) => Some (set_logs logs newState)
            | None => None
            end) as Hdone by (by intros [[??]|] [??]).
  apply Hdone. destruct (actionType a).
  - by eapply processRoll_returns.
  - unfold processBuy. unfold_M.
    destruct (nthZ_is_Some (tiles s) (Player.position player))
      as [tile ->]; [lia|]. simpl.
    destruct (truthyNum _); [|done]. case_decide; [done|].
    by rewrite Hfind.
  - done.
  - unfold processPayBail. unfold_M. case_decide; [done|]. by rewrite Hfind.
  - unfold processUpgrade. unfold_M. repeat case_match; try done.
    all: by rewrite Hfind in *.
  - destruct (processEndTurn_total s (logs s)) as (s' & -> & _); [lia|done].
  - unfold processSurrender. unfold_M. rewrite Hfind, Hcurrent. simpl.
    case_bool_decide; [|by case_decide].
    match goal with
    | |- is_Some (processEndTurn ?q ?l) =>
      destruct (processEndTurn_total q l) as (s' & -> & _); [|done]
    end.
    simpl. rewrite length_alter. lia.
Qed.

(** X12.  The host never throws and keeps its state well formed: on a ring
    of forty tiles with six rent tiers and building counts from 0 to 5,
    with the turn pointer inside the roster and every player on the ring,
    any intent of any player, with any dice from 1 to 6 and any card of a
    deck that keeps players on the ring, returns a state, and that state is
    of the same kind. *)
Theorem intent_keeps_well_formed deck kw draws s a :
  wellFormed deck s → fairDraws deck draws →
  ∃ s', executeGameLogic deck kw draws s a = Some s' ∧ wellFormed deck s'.
Proof.
  intros Hwf Hfair.
  destruct (executeGameLogic_returns deck kw draws s a Hwf Hfair)
    as [s' Hrun].
  exists s'. split; [done|].
  destruct Hwf as (Hlen & Htiles & Hcur & Hboard & Hdeck).
  destruct Hfair as (Hd1 & Hd2 & _).
  pose proof (executeGameLogic_evolves _ _ _ _ _ _ Hrun) as (_ & Ht & _).
  split_and!; [| | | |done].
  - by rewrite <- (Forall2_length _ _ _ Ht).
  - apply Forall_lookup. intros j t' Hj.
    destruct (Forall2_lookup_r _ _ _ _ _ Ht Hj) as (t & Hjt & Hkeep).
    rewrite Forall_lookup in Htiles. eapply tileOk_keeps; eauto.
  - by eapply executeGameLogic_pointer.
  - by eapply executeGameLogic_onBoard.
Qed.

Lemma intent_keeps_well_formed_witness :
  ∃ s', Demo.run (mkDraws 3 4 2) Demo.monopoly
          (Demo.act ActionType.ROLL "alice") = Some s' ∧
        wellFormed Demo.deck s'.
Proof.
  apply (intent_keeps_well_formed Demo.deck Demo.keyword (mkDraws 3 4 2)
           Demo.monopoly (Demo.act ActionType.ROLL "alice")).
  - apply (bool_decide_unpack _). by vm_compute.
  - unfold fairDraws. simpl. lia.
Defined.

(** ** The log is append-only *)

Lemma processRoll_appends deck kw draws s player l s' l' :
  processRoll deck kw draws s player l = Some (s', l') →
  ∃ ext, l' = l ++ ext.
Proof.
  unfold processRoll. unfold_M. intros H. logs_cases.
  all: try match goal with
           | H : movePlayer _ _ _ _ _ _ _ _ = Some _ |- _ =>
             apply movePlayer_logs in H as [ext ->]
           end.
  all: logs_done.
Qed.

Lemma processEndTurn_appends s l s' l' :
  processEndTurn s l = Some (s', l') → ∃ ext, l' = l ++ ext.
Proof.
  intros [-> _]%processEndTurn_spec. exists []. by rewrite app_nil_r.
Qed.

Lemma processSurrender_appends s player l s' l' :
  processSurrender s player l = Some (s', l') → ∃ ext, l' = l ++ ext.
Proof.
  unfold processSurrender. unfold_M. intros H. logs_cases.
  all: try match goal with
           | H : processEndTurn _ _ = Some _ |- _ =>
             apply processEndTurn_appends in H as [ext ->]
           end.
  all: logs_done.
Qed.

(** X13.  The log is append-only: whatever the intent, the log of the
    state the host returns begins with the whole log of the state it
    started from. *)
Theorem intent_appends_to_log deck kw draws s a s' :
  executeGameLogic deck kw draws s a = Some s' →
  logs s `prefix_of` logs s'.
Proof.
  unfold executeGameLogic.
  destruct (findPlayer (players s) (playerId a)) as [[i player]|];
    [|by intros [= <-]].
  destruct (players s !! currentPlayerIndex s) as [current|]; [|done].
  destruct (negb _ && negb _); [by intros [= <-]|].
  destruct (actionType a);
    match goal with
    | |- match ?run with _ => _ end = _ → _ =>
      destruct run as [[s1 l1]|] eqn:Hrun; [|done]
    end; intros [= <-]; simpl.
  - by apply processRoll_appends in Hrun.
  - revert Hrun. unfold processBuy. unfold_M. intros H. logs_cases.
    all: logs_done.
  - revert Hrun. unfold processPass. unfold_M. intros H. logs_cases.
    all: logs_done.
  - revert Hrun. unfold processPayBail. unfold_M. intros H. logs_cases.
    all: logs_done.
  - revert Hrun. unfold processUpgrade. unfold_M. intros H. logs_cases.
    all: logs_done.
  - by apply processEndTurn_appends in Hrun.
  - by apply processSurrender_appends in Hrun.
Qed.

Lemma intent_appends_to_log_witness :
  ∃ s', executeGameLogic Demo.deck Demo.keyword (Demo.roll 1 2) Demo.shopping
          (Demo.act ActionType.ROLL "alice") = Some s' ∧
    length (logs s') = 2%nat ∧
    logs Demo.shopping `prefix_of` logs s'.
Proof.
  assert (∃ s', executeGameLogic Demo.deck Demo.keyword (Demo.roll 1 2)
                  Demo.shopping (Demo.act ActionType.ROLL "alice") = Some s' ∧
                length (logs s') = 2%nat) as (s' & Hrun & Hlen)
    by (eexists; split; [vm_compute; reflexivity|reflexivity]).
  exists s'. split; [exact Hrun|]. split; [exact Hlen|].
  exact (intent_appends_to_log Demo.deck Demo.keyword (Demo.roll 1 2)
           Demo.shopping (Demo.act ActionType.ROLL "alice") s' Hrun).
Defined.

(** ** Chance cards *)

(** X14.  A chance card touches nobody but the player who drew it, and of
    that player only money, position and jail state: the tiles, the other
    players, the winner, the dice and the turn pointer stay as they are,
    and so do the drawer's identity, property list and bankruptcy flag
    (however large the fine).  A jail card puts the drawer on tile 10,
    jailed, with both counters at 0 and the money untouched, and ends the
    turn.  Any other card leaves the jail state alone and hands on to
    [ROLLING] after a double, [END_TURN] otherwise; a money card changes
    the balance by its value; a move changes the position and adds the
    $200 start bonus when it goes back to a lower tile number or past tile
    39 -- and nothing else: the tile a card moves the player to is not
    resolved (no rent, no tax, no purchase offer). *)
Theorem card_touches_only_the_drawer kw s pid card dbl idx p l s' l' :
  findPlayer (players s) pid = Some (idx, p) →
  applyChanceEffect kw s pid card dbl l = Some (s', l') →
  tiles s' = tiles s ∧ winner s' = winner s ∧ dice s' = dice s ∧
  currentPlayerIndex s' = currentPlayerIndex s ∧
  (∀ j, j ≠ idx → players s' !! j = players s !! j) ∧
  ∃ p', players s' !! idx = Some p' ∧
    playerIdentity p' = playerIdentity p ∧
    Player.properties p' = Player.properties p ∧
    Player.bankrupt p' = Player.bankrupt p ∧
    if jailCard kw card then
      jailView p' = (10, true, 0, 0) ∧ Player.money p' = Player.money p ∧
      phase s' = GamePhase.END_TURN ∧ waitingForDoublesTurn s' = false
    else
      Player.isInJail p' = Player.isInJail p ∧
      Player.jailTurns p' = Player.jailTurns p ∧
      Player.consecutiveDoubles p' = Player.consecutiveDoubles p ∧
      phase s' = (if dbl then GamePhase.ROLLING else GamePhase.END_TURN) ∧
      waitingForDoublesTurn s' = dbl ∧
      match ChanceCard.effectType card with
      | EffectType.MONEY =>
        Player.position p' = Player.position p ∧
        Player.money p' = Player.money p + ChanceCard.value card
      | EffectType.MOVE_TO =>
        Player.position p' = ChanceCard.value card ∧
        Player.money p' =
          Player.money p +
          (if decide (ChanceCard.value card < Player.position p)
           then 200 else 0)
      | EffectType.MOVE_STEPS =>
        Player.position p' =
          (if decide (40 <= Player.position p + ChanceCard.value card)
           then Player.position p + ChanceCard.value card - 40
           else if decide (Player.position p + ChanceCard.value card < 0)
           then Player.position p + ChanceCard.value card + 40
           else Player.position p + ChanceCard.value card) ∧
        Player.money p' =
          Player.money p +
          (if decide (40 <= Player.position p + ChanceCard.value card)
           then 200 else 0)
      | EffectType.GO_TO_JAIL => False
      end.
Proof.
  intros Hfind. pose proof (findPlayer_Some _ _ _ _ Hfind) as [Hidx _].
  unfold applyChanceEffect, jailCard. unfold_M. rewrite Hfind. simpl.
  destruct (ChanceCard.effectType card);
    [| destruct (bool_decide (ChanceCard.value card = 10) &&
                 includes (ChanceCard.description card) kw) | |];
    intros [= <- _]; simpl.
  all: split; [done|]; split; [done|]; split; [done|]; split; [done|].
  all: split; [intros j Hj; by rewrite list_lookup_alter_ne|].
  all: rewrite list_lookup_alter_eq, Hidx; simpl.
  all: eexists; split; [reflexivity|].
  all: unfold playerIdentity, jailView; simpl.
  all: repeat case_bool_decide; repeat case_decide; simpl;
    split_and!; (done || lia).
Qed.

Lemma card_touches_only_the_drawer_witness :
  let alice := Demo.seat "alice" "Alice" 1500 7 [] in
  let bob := Demo.seat "bob" "Bob" 1500 20 [] in
  let back := ChanceCard.mk 3 "Back" "Go back three steps"
                EffectType.MOVE_STEPS (-3) in
  ∃ s' l' p',
    applyChanceEffect Demo.keyword (Demo.game [alice; bob] Demo.board)
      "alice" back false [] = Some (s', l') ∧
    players s' !! 0%nat = Some p' ∧
    Player.position p' = 4 ∧ Player.money p' = 1500 ∧
    Tile.type <$> tiles s' !! 4%nat = Some TileType.TAX ∧
    players s' !! 1%nat = Some bob.
Proof.
  intros alice bob back.
  assert (∃ s' l',
    applyChanceEffect Demo.keyword (Demo.game [alice; bob] Demo.board)
      "alice" back false [] = Some (s', l')) as (s' & l' & Hrun)
    by (eexists _, _; vm_compute; reflexivity).
  destruct (card_touches_only_the_drawer Demo.keyword
              (Demo.game [alice; bob] Demo.board) "alice" back false 0%nat
              alice [] s' l' eq_refl Hrun)
    as (Htiles & _ & _ & _ & Hothers & p' & Hp' & _ & _ & _ & Hcard).
  simpl in Hcard. destruct Hcard as (_ & _ & _ & _ & _ & Hpos & Hmoney).
  exists s', l', p'. split; [exact Hrun|]. split; [exact Hp'|].
  split; [exact Hpos|]. split; [exact Hmoney|].
  split; [by rewrite Htiles|]. by rewrite (Hothers 1%nat).
Defined.

(** ** The purchase decision *)

Lemma payRent_phase s pid pIdx player tile owner dbl l s' l' :
  payRent s pid pIdx player tile owner dbl l = Some (s', l') →
  phase s' ≠ GamePhase.ACTION.
Proof.
  unfold payRent, landingPhase. unfold_M.
  destruct (computeRent s tile owner l) as [[rent l1]|]; [|done].
  intros H. logs_cases. all: try done. all: by destruct dbl.
Qed.

Lemma applyChanceEffect_phase kw s pid card dbl l s' l' :
  applyChanceEffect kw s pid card dbl l = Some (s', l') →
  phase s' ≠ GamePhase.ACTION.
Proof.
  unfold applyChanceEffect. unfold_M. intros H. logs_cases.
  all: try done. all: by destruct dbl.
Qed.

Lemma handleLanding_asks deck kw draws s pid dbl idx p l s' l' :
  findPlayer (players s) pid = Some (idx, p) →
  handleLanding deck kw draws s pid dbl l = Some (s', l') →
  phase s' = GamePhase.ACTION →
  players s' = players s ∧ tiles s' = tiles s ∧
  ∃ tile, nthZ (tiles s) (Player.position p) = Some tile ∧
          canBuy tile = true.
Proof.
  intros Hfind. unfold handleLanding, landingPhase, canBuy.
  rewrite Hfind. unfold_M.
  destruct (nthZ (tiles s) (Player.position p)) as [tile|]; [simpl|done].
  intros H Hphase. revert H.
  repeat case_decide;
    repeat (case_match; unfold ret in *; simplify_eq/=);
    try (intros [= <- _]; simpl in *; first [done | by destruct dbl]).
  all: try (intros Hrun; apply applyChanceEffect_phase in Hrun; done).
  all: try (intros Hrun; apply payRent_phase in Hrun; done).
  all: intros [= <- _]; simpl; split_and!; [done..|].
  all: eexists; split; [done|].
  all: match goal with H : isBuyable _ = true |- _ => rewrite H end.
  all: match goal with H : truthyStr _ = None |- _ => rewrite H end.
  all: done.
Qed.

(** X15.  The host asks for a purchase decision only where there is
    something to buy: when a roll of the player on turn ends in phase
    [ACTION], the turn is still with that player and the tile under them
    passes the purchase gate of the screen -- it is a property, a station
    or a utility, and nobody owns it. *)
Theorem roll_asks_only_on_free_tiles deck kw draws s a player s' :
  findPlayer (players s) (playerId a) = Some (currentPlayerIndex s, player) →
  actionType a = ActionType.ROLL →
  executeGameLogic deck kw draws s a = Some s' →
  phase s' = GamePhase.ACTION →
  ∃ current tile,
    players s' !! currentPlayerIndex s' = Some current ∧
    Player.id current = playerId a ∧
    nthZ (tiles s') (Player.position current) = Some tile ∧
    canBuy tile = true.
Proof.
  intros Hfind Hty. unfold executeGameLogic. rewrite Hfind, Hty.
  pose proof (findPlayer_Some _ _ _ _ Hfind) as [Hcur Hid].
  rewrite Hcur. rewrite bool_decide_eq_true_2 by done. simpl.
  rewrite <- Hid in Hfind.
  destruct (processRoll _ _ _ _ _ _) as [[s1 l1]|] eqn:Hrun; [|done].
  intros [= <-]. simpl. intros Hphase.
  pose proof (processRoll_pointer _ _ _ _ _ _ _ _ Hrun) as ->.
  revert Hrun. unfold processRoll. unfold_M. rewrite Hfind. simpl.
  set (idx := currentPlayerIndex s) in *.
  assert (∀ f dbl l0,
    (∀ q, Player.id (f q) = Player.id q) →
    (∀ q, Player.position (f q) = Player.position q) →
    movePlayer deck kw draws
      (set_players (alter f idx (players s)) (rolled draws s))
      (d1 draws + d2 draws) (Player.id player) dbl l0 = Some (s1, l1) →
    ∃ current tile,
      players s1 !! idx = Some current ∧ Player.id current = playerId a ∧
      nthZ (tiles s1) (Player.position current) = Some tile ∧
      canBuy tile = true) as Hmove.
  { intros f dbl l0 Hf Hpos Hrun.
    rewrite movePlayer_after in Hrun by done.
    eapply (handleLanding_asks _ _ _ _ _ _ idx
              (advance (d1 draws + d2 draws) (f player))) in Hrun
      as (Hp & Ht & tile & Htile & Hbuy); [| |done].
    - exists (advance (d1 draws + d2 draws) (f player)), tile.
      rewrite Hp, Ht. simpl. rewrite list_lookup_alter_eq, Hcur. simpl.
      split_and!; [done| |done..].
      destruct (advance_fields (d1 draws + d2 draws) (f player)) as [-> _].
      by rewrite Hf.
    - simpl. apply (findPlayer_alter_self (advance _ ∘ f)); [|done].
      intros q. simpl. rewrite <- (Hf q). apply advance_fields. }
  intros H. logs_cases; try done.
  all: eapply Hmove; [| |exact H]; done.
Qed.

Lemma roll_asks_only_on_free_tiles_witness :
  ∃ s' current tile,
    Demo.run (Demo.roll 1 2) Demo.shopping
      (Demo.act ActionType.ROLL "alice") = Some s' ∧
    phase s' = GamePhase.ACTION ∧
    players s' !! currentPlayerIndex s' = Some current ∧
    Player.position current = 3 ∧
    nthZ (tiles s') (Player.position current) = Some tile ∧
    canBuy tile = true.
Proof.
  assert (∃ s', Demo.run (Demo.roll 1 2) Demo.shopping
                  (Demo.act ActionType.ROLL "alice") = Some s' ∧
                phase s' = GamePhase.ACTION ∧
                Player.position <$> players s' !! currentPlayerIndex s'
                  = Some 3) as (s' & Hrun & Hphase & Hpos)
    by (eexists; split; [vm_compute; reflexivity|split; reflexivity]).
  destruct (roll_asks_only_on_free_tiles Demo.deck Demo.keyword
              (Demo.roll 1 2) Demo.shopping
              (Demo.act ActionType.ROLL "alice")
              (Demo.seat "alice" "Alice" 1500 0 []) s'
              eq_refl eq_refl Hrun Hphase)
    as (current & tile & Hcur & _ & Htile & Hbuy).
  exists s', current, tile. rewrite Hcur in Hpos. simpl in Hpos.
  split_and!; [done..|congruence|done|done].
Defined.

(** ** The control panel *)

Lemma panelButtons_spec player ph cb ty :
  ty ∈ panelButtons player ph cb →
  Player.isAI player = false ∧
  match ty with
  | ActionType.ROLL => ph = GamePhase.ROLLING
  | ActionType.PAY_BAIL =>
    ph = GamePhase.ROLLING ∧ Player.isInJail player = true ∧
    50 <= Player.money player
  | ActionType.BUY => ph = GamePhase.ACTION ∧ cb = true
  | ActionType.PASS => ph = GamePhase.ACTION
  | ActionType.END_TURN => ph = GamePhase.END_TURN
  | ActionType.UPGRADE => False
  | ActionType.SURRENDER => True
  end.
Proof.
  unfold panelButtons. destruct (Player.isAI player); simpl.
  - rewrite !andb_false_r. simpl. by intros ?%elem_of_nil.
  - rewrite !andb_true_r, !elem_of_app.
    destruct ty; repeat case_bool_decide; repeat case_match; subst;
      rewrite ?elem_of_app, ?elem_of_cons, ?elem_of_nil; naive_solver.
Qed.

(** X16.  No button of the control panel is dead.  When the player on turn
    presses any button the panel offers, the host acts on the intent: it
    appends to the log or leaves the phase the button was offered in.  For
    the buy button this needs the tile under the player to carry a price
    (the screen offers the purchase of a price-less tile, which the host
    silently drops). *)
Theorem panel_buttons_are_live deck kw draws s a current tile s' :
  findPlayer (players s) (playerId a) = Some (currentPlayerIndex s, current) →
  nthZ (tiles s) (Player.position current) = Some tile →
  (actionType a = ActionType.BUY → is_Some (truthyNum (Tile.price tile))) →
  actionType a ∈ panelButtons current (phase s) (panelCanBuy current tile) →
  executeGameLogic deck kw draws s a = Some s' →
  (length (logs s) < length (logs s'))%nat ∨ phase s' ≠ phase s.
Proof.
  intros Hfind Htile Hpriced Hbutton.
  apply panelButtons_spec in Hbutton as [_ Hbutton].
  pose proof (findPlayer_Some _ _ _ _ Hfind) as [Hcur Hid].
  unfold executeGameLogic. rewrite Hfind, Hcur.
  rewrite bool_decide_eq_true_2 by done. simpl.
  rewrite <- Hid in Hfind.
  destruct (actionType a);
    match goal with
    | |- match ?run with _ => _ end = _ → _ =>
      destruct run as [[s1 l1]|] eqn:Hrun; [|done]
    end; intros [= <-]; simpl.
  - left. by eapply processRoll_logs.
  - left. destruct Hbutton as [_ Hbuy]. revert Hrun.
    destruct (Hpriced eq_refl) as [price Hprice].
    unfold panelCanBuy in Hbuy.
    apply andb_true_iff in Hbuy as [_ Hafford%bool_decide_eq_true].
    unfold orNum in Hafford. rewrite Hprice in Hafford. simpl in Hafford.
    unfold processBuy. unfold_M. rewrite Htile. simpl. rewrite Hprice.
    rewrite decide_False by lia. rewrite Hfind. simpl.
    intros [= <- <-]. rewrite length_app. simpl. lia.
  - left. revert Hrun. unfold processPass. unfold_M.
    intros [= <- <-]. rewrite length_app. simpl. lia.
  - left. destruct Hbutton as (_ & _ & Hrich). revert Hrun.
    unfold processPayBail. unfold_M. rewrite decide_False by lia.
    rewrite Hfind. simpl.
    intros [= <- <-]. rewrite length_app. simpl. lia.
  - done.
  - right. rewrite Hbutton.
    by apply processEndTurn_spec in Hrun as (_ & [[_ ->]|[_ [? ->]]]).
  - left. revert Hrun. unfold processSurrender. unfold_M. rewrite Hfind. simpl.
    rewrite Hcur. simpl. rewrite bool_decide_eq_true_2 by done.
    intros [-> _]%processEndTurn_spec. rewrite length_app. simpl. lia.
Qed.

Lemma panel_buttons_are_live_witness :
  let asked :=
    set_phase GamePhase.ACTION
      (Demo.game [ Demo.seat "alice" "Alice" 1500 3 [];
                   Demo.seat "bob" "Bob" 1500 20 [] ] Demo.board) in
  ∃ s', Demo.run (Demo.roll 1 2) asked (Demo.act ActionType.BUY "alice")
          = Some s' ∧
    Tile.ownerId <$> tiles s' !! 3%nat = Some (Some "alice") ∧
    ((length (logs asked) < length (logs s'))%nat ∨ phase s' ≠ phase asked).
Proof.
  eexists. split; [vm_compute; reflexivity|]. split; [reflexivity|].
  apply (panel_buttons_are_live Demo.deck Demo.keyword (Demo.roll 1 2)
           (set_phase GamePhase.ACTION
              (Demo.game [ Demo.seat "alice" "Alice" 1500 3 [];
                           Demo.seat "bob" "Bob" 1500 20 [] ] Demo.board))
           (Demo.act ActionType.BUY "alice")
           (Demo.seat "alice" "Alice" 1500 3 [])
           (Demo.street 3 "Brown 2" ColorGroup.BROWN 60 4 50)).
  - reflexivity.
  - reflexivity.
  - intros _. by eexists.
  - apply (bool_decide_unpack _). by vm_compute.
  - vm_compute. reflexivity.
Defined.

(** ** Stations and utilities *)

(** X17.  The rent charged for landing on a station is $25 doubled for
    every further tile of the station group its owner holds (25, 50, 100,
    200); the rent charged for landing on a utility is the sum of the dice
    times 10 when its owner holds exactly two tiles of the utility group,
    and times 4 otherwise -- the dice being those of the roll that brought
    the visitor there: a free player who rolls [d1] and [d2] onto another
    player's utility pays [(d1 + d2)] times the factor.  Charged for
    landing: [handleLanding] logs a rent payment of that amount and moves
    it from the visitor to the owner.  Buildings and the mortgage flag
    play no part. *)
Theorem station_and_utility_rent s tile owner l :
  (Tile.type tile = TileType.STATION →
   (0 < ownedIn ColorGroup.STATION (Player.id owner) (tiles s))%nat →
   charges s tile owner l
     (25 * 2 ^ (Z.of_nat (ownedIn ColorGroup.STATION (Player.id owner)
                            (tiles s)) - 1)) ∧
   landingCharges s tile owner
     (25 * 2 ^ (Z.of_nat (ownedIn ColorGroup.STATION (Player.id owner)
                            (tiles s)) - 1))) ∧
  (Tile.type tile = TileType.UTILITY →
   ∀ factor,
     factor = (if decide (ownedIn ColorGroup.UTILITY (Player.id owner)
                            (tiles s) = 2)%nat then 10 else 4) →
     charges s tile owner l ((fst (dice s) + snd (dice s)) * factor) ∧
     landingCharges s tile owner ((fst (dice s) + snd (dice s)) * factor) ∧
     ∀ deck kw draws player idx oIdx l0,
       findPlayer (players s) (Player.id player) = Some (idx, player) →
       Player.isInJail player = false →
       (if bool_decide (d1 draws = d2 draws)
        then Player.consecutiveDoubles player + 1 else 0) ≠ 3 →
       nthZ (tiles s)
            (Player.position (advance (d1 draws + d2 draws) player))
         = Some tile →
       truthyStr (Tile.ownerId tile) = Some (Player.id owner) →
       Player.id owner ≠ Player.id player →
       findPlayer (players s) (Player.id owner) = Some (oIdx, owner) →
       Player.bankrupt owner = false →
       ∃ s' l', processRoll deck kw draws s player l0 = Some (s', l') ∧
         GameLog.mk (GameLog.RentPaid (Player.name player)
                       (Player.name owner)
                       ((d1 draws + d2 draws) * factor)) GameLog.danger
           ∈ l' ∧
         Player.money <$> players s' !! idx
           = Some (Player.money (advance (d1 draws + d2 draws) player)
                   - (d1 draws + d2 draws) * factor) ∧
         Player.money <$> players s' !! oIdx
           = Some (Player.money owner + (d1 draws + d2 draws) * factor)).
Proof.
  split.
  - intros Hty Hn.
    assert (∀ l0, ∃ l1, computeRent s tile owner l0 =
      Some (25 * 2 ^ (Z.of_nat (ownedIn ColorGroup.STATION (Player.id owner)
                                  (tiles s)) - 1), l1)) as Hdue.
    { intros l0. eexists. unfold computeRent. rewrite Hty.
      fold (ownedIn ColorGroup.STATION (Player.id owner) (tiles s)).
      rewrite decide_False by lia. reflexivity. }
    split.
    + destruct (Hdue l) as [l1 Hl1]. by eapply charges_intro.
    + apply landingCharges_intro; [by rewrite Hty|done].
  - intros Hty factor ->.
    assert (∀ q, tiles q = tiles s → ∀ l0, ∃ l1,
      computeRent q tile owner l0 =
      Some ((fst (dice q) + snd (dice q)) *
            (if decide (ownedIn ColorGroup.UTILITY (Player.id owner)
                          (tiles s) = 2)%nat then 10 else 4), l1)) as Hdue.
    { intros q Hq l0. eexists. unfold computeRent. rewrite Hty, Hq.
      unfold_M. reflexivity. }
    split_and!.
    + destruct (Hdue s eq_refl l) as [l1 Hl1]. by eapply charges_intro.
    + apply landingCharges_intro; [by rewrite Hty|by apply Hdue].
    + intros deck kw draws player idx oIdx l0
             Hfind Hfree Hthree Htile Ho Hne Hown Hactive.
      pose proof (findPlayer_Some _ _ _ _ Hfind) as [Hidx _].
      pose proof (findPlayer_Some _ _ _ _ Hown) as [Hoidx _].
      assert (idx ≠ oIdx) as Hio by (intros ->; congruence).
      erewrite processRoll_free_move by done.
      rewrite movePlayer_after by done.
      set (f := Player.set_consecutiveDoubles _).
      set (total := d1 draws + d2 draws) in *.
      set (q := set_players _ (rolled draws s)).
      assert (advance total (f player)
              = f (advance total player)) as Hmoved.
      { unfold advance, f. simpl. by repeat case_decide. }
      destruct (landingCharges_intro q tile owner
                  ((fst (dice q) + snd (dice q)) *
                   (if decide (ownedIn ColorGroup.UTILITY (Player.id owner)
                                 (tiles s) = 2)%nat then 10 else 4)))
        with (deck := deck) (kw := kw) (draws := draws)
             (pid := Player.id player) (idx := idx)
             (player := advance total (f player)) (oIdx := oIdx)
             (dbl := bool_decide (d1 draws = d2 draws))
             (l := if decide (40 <= Player.position player + total)
                   then (l0 ++ [GameLog.mk
                                  (GameLog.Rolled (Player.name player) total
                                     (d1 draws) (d2 draws)
                                     (bool_decide (d1 draws = d2 draws)))
                                  GameLog.info]) ++
                        [GameLog.mk
                           (GameLog.PassedStart (Player.name (f player)))
                           GameLog.success]
                   else l0 ++ [GameLog.mk
                                 (GameLog.Rolled (Player.name player) total
                                    (d1 draws) (d2 draws)
                                    (bool_decide (d1 draws = d2 draws)))
                                 GameLog.info])
        as (s' & l' & Hrun & Hlog & Hp & Hq).
      * by rewrite Hty.
      * by apply Hdue.
      * subst q. simpl.
        apply (findPlayer_alter_self (advance _ ∘ f)); [|done].
        intros p. simpl. destruct (advance_fields total (f p)) as [-> _].
        done.
      * subst q. simpl. by rewrite Hmoved.
      * done.
      * done.
      * subst q. simpl. apply findPlayer_alter_other; [|done|congruence].
        intros p. simpl. destruct (advance_fields total (f p)) as [-> _].
        done.
      * done.
      * exists s', l'. split; [exact Hrun|].
        assert (Player.name (advance total (f player)) = Player.name player)
          as Hname by (unfold advance, f; simpl; by repeat case_decide).
        assert (Player.money (advance total (f player))
                = Player.money (advance total player)) as Hmoney
          by (by rewrite Hmoved).
        rewrite Hname in Hlog. rewrite Hmoney in Hp.
        subst q. simpl in *. done.
Qed.

Lemma station_and_utility_rent_witness :
  let power := Tile.set_ownerId (Some "bob") (Demo.utility 12 "Power") in
  let alice := Demo.seat "alice" "Alice" 1500 5 [] in
  let bob := Demo.seat "bob" "Bob" 1500 20 [12] in
  let s := Demo.game [alice; bob] (Demo.grant "bob" [12] Demo.board) in
  ∃ s' l', processRoll Demo.deck Demo.keyword (Demo.roll 3 4) s alice []
             = Some (s', l') ∧
    GameLog.mk (GameLog.RentPaid "Alice" "Bob" 28) GameLog.danger ∈ l' ∧
    Player.money <$> players s' !! 0%nat = Some (1500 - 28) ∧
    Player.money <$> players s' !! 1%nat = Some (1500 + 28).
Proof.
  intros power alice bob s.
  destruct (station_and_utility_rent s power bob []) as [_ H].
  destruct (H eq_refl 4 eq_refl) as (_ & _ & Hroll).
  apply (Hroll Demo.deck Demo.keyword (Demo.roll 3 4) alice 0%nat 1%nat []);
    [reflexivity|reflexivity|done|reflexivity|reflexivity|done|reflexivity
    |reflexivity].
Defined.

(** ** Jail and extra rolls *)

Ltac roll_cases :=
  repeat (first [ case_decide | case_match ]; unfold ret, throw in *;
          simplify_eq/=; try done).

Lemma payRent_turn s pid pIdx player tile owner dbl l s' l' :
  payRent s pid pIdx player tile owner dbl l = Some (s', l') →
  (∀ i, Player.isInJail <$> players s' !! i
        = Player.isInJail <$> players s !! i) ∧
  (phase s' = GamePhase.ROLLING ∨ waitingForDoublesTurn s' = true →
   dbl = true ∨ waitingForDoublesTurn s = true).
Proof.
  unfold payRent, landingPhase. unfold_M.
  destruct (computeRent s tile owner l) as [[rent l1]|]; [|done].
  intros H. roll_cases.
  all: split; [intros i; by rewrite !lookup_alter_view by done|].
  all: simpl; intros [?|?]; auto; done.
Qed.

Lemma applyChanceEffect_turn kw s pid card dbl idx p l s' l' :
  findPlayer (players s) pid = Some (idx, p) →
  applyChanceEffect kw s pid card dbl l = Some (s', l') →
  (∀ p', players s' !! idx = Some p' → Player.isInJail p' = true →
         Player.isInJail p = true ∨
         phase s' = GamePhase.END_TURN ∧ waitingForDoublesTurn s' = false) ∧
  (phase s' = GamePhase.ROLLING ∨ waitingForDoublesTurn s' = true →
   dbl = true).
Proof.
  intros Hfind. pose proof (findPlayer_Some _ _ _ _ Hfind) as [Hidx _].
  unfold applyChanceEffect. unfold_M. rewrite Hfind. simpl. intros H.
  roll_cases.
  all: split; [|intros [?|?]; done].
  all: try (intros p'; rewrite list_lookup_alter_eq, Hidx; simpl;
            intros [= <-]; simpl; auto; repeat case_decide; by auto).
Qed.

Lemma handleLanding_turn deck kw draws s pid dbl idx p l s' l' :
  findPlayer (players s) pid = Some (idx, p) →
  waitingForDoublesTurn s = false →
  handleLanding deck kw draws s pid dbl l = Some (s', l') →
  (∀ p', players s' !! idx = Some p' → Player.isInJail p' = true →
         Player.isInJail p = true ∨
         phase s' = GamePhase.END_TURN ∧ waitingForDoublesTurn s' = false) ∧
  (phase s' = GamePhase.ROLLING ∨ waitingForDoublesTurn s' = true →
   dbl = true).
Proof.
  intros Hfind Hwait. pose proof (findPlayer_Some _ _ _ _ Hfind) as [Hidx _].
  unfold handleLanding, landingPhase. rewrite Hfind. unfold_M.
  destruct (nthZ (tiles s) (Player.position p)) as [tile|]; [simpl|done].
  assert (∀ q, Player.isInJail <$> players q !! idx
               = Player.isInJail <$> players s !! idx →
    ∀ p', players q !! idx = Some p' → Player.isInJail p' = true →
          Player.isInJail p = true ∨
          phase q = GamePhase.END_TURN ∧ waitingForDoublesTurn q = false)
    as Hsame.
  { intros q Hq p' Hp' Hjail. left. rewrite Hp', Hidx in Hq.
    simpl in Hq. congruence. }
  intros H. roll_cases.
  all: try match goal with
           | H : applyChanceEffect _ _ _ _ _ _ = Some _ |- _ =>
             by eapply applyChanceEffect_turn in H
           | H : payRent _ _ _ _ _ _ _ _ = Some _ |- _ =>
             apply payRent_turn in H as [Hjail Hturn];
             split; [by apply Hsame|];
             intros Hextra; destruct (Hturn Hextra); congruence
           end.
  all: split; [|simpl; intros [?|?]; done].
  all: try (apply Hsame; simpl; by rewrite ?lookup_alter_view by done).
  all: try (intros p'; rewrite list_lookup_alter_eq, Hidx; simpl;
            intros [= <-]; by auto).
  all: intros p' Hp' ?; rewrite Hidx in Hp'; left; congruence.
Qed.

Lemma processRoll_turn deck kw draws s player idx l s' l' :
  findPlayer (players s) (Player.id player) = Some (idx, player) →
  processRoll deck kw draws s player l = Some (s', l') →
  (∀ p', players s' !! idx = Some p' → Player.isInJail p' = true →
         phase s' = GamePhase.END_TURN ∧ waitingForDoublesTurn s' = false) ∧
  (phase s' = GamePhase.ROLLING ∨ waitingForDoublesTurn s' = true →
   d1 draws = d2 draws ∧ Player.isInJail player = false ∧
   Player.consecutiveDoubles player + 1 ≠ 3).
Proof.
  intros Hfind. pose proof (findPlayer_Some _ _ _ _ Hfind) as [Hidx _].
  assert (∀ f dbl l0,
    (∀ q, Player.id (f q) = Player.id q) →
    (∀ q, Player.position (f q) = Player.position q) →
    Player.isInJail (f player) = false →
    movePlayer deck kw draws
      (set_players (alter f idx (players s)) (rolled draws s))
      (d1 draws + d2 draws) (Player.id player) dbl l0 = Some (s', l') →
    (∀ p', players s' !! idx = Some p' → Player.isInJail p' = true →
           phase s' = GamePhase.END_TURN ∧ waitingForDoublesTurn s' = false) ∧
    (phase s' = GamePhase.ROLLING ∨ waitingForDoublesTurn s' = true →
     dbl = true)) as Hmove.
  { intros f dbl l0 Hf Hpos Hfree Hrun.
    rewrite movePlayer_after in Hrun by done.
    eapply (handleLanding_turn _ _ _ _ _ _ idx
              (advance (d1 draws + d2 draws) (f player))) in Hrun
      as [Hjail Hturn]; [| |done].
    - split; [|done]. intros p' Hp' Hin.
      destruct (Hjail p' Hp' Hin) as [Hwas|]; [|done].
      destruct (advance_fields (d1 draws + d2 draws) (f player))
        as (_ & Hadv & _). congruence.
    - simpl. apply (findPlayer_alter_self (advance _ ∘ f)); [|done].
      intros q. simpl. rewrite <- (Hf q). apply advance_fields. }
  destruct (Player.isInJail player) eqn:Hjail.
  - destruct (decide (d1 draws = d2 draws)) as [Hdbl|Hdbl].
    + erewrite processRoll_jail_double by done.
      intros [? Hturn]%Hmove; [|done..]. split; [done|].
      by intros ?%Hturn.
    + destruct (decide (2 <= Player.jailTurns player)).
      * erewrite processRoll_jail_forced by done.
        intros [? Hturn]%Hmove; [|done..]. split; [done|].
        by intros ?%Hturn.
      * erewrite processRoll_jail_failed by (done || lia).
        intros [= <- _]. simpl. split; [done|]. by intros [?|?].
  - destruct (decide ((if bool_decide (d1 draws = d2 draws)
                       then Player.consecutiveDoubles player + 1 else 0) = 3))
      as [Hthree|Hthree].
    + case_bool_decide; [|done].
      erewrite processRoll_speeding by done.
      intros [= <- _]. simpl. split; [done|]. by intros [?|?].
    + erewrite processRoll_free_move by done.
      intros [? Hturn]%Hmove; [|done..]. split; [done|].
      intros Hextra%Hturn. apply bool_decide_eq_true in Hextra.
      rewrite bool_decide_eq_true_2 in Hthree by done. done.
Qed.

(** X18.  Jail ends the turn.  Whenever the player who rolled is in jail
    once the roll is resolved -- a failed attempt to leave, a third double
    in a row, the go-to-jail tile or a card -- the phase is [END_TURN] and
    no further roll is pending, double or not. *)
Theorem roll_into_jail_ends_turn deck kw draws s player idx l s' l' p' :
  findPlayer (players s) (Player.id player) = Some (idx, player) →
  processRoll deck kw draws s player l = Some (s', l') →
  players s' !! idx = Some p' → Player.isInJail p' = true →
  phase s' = GamePhase.END_TURN ∧ waitingForDoublesTurn s' = false.
Proof.
  intros Hfind Hrun. by apply (processRoll_turn _ _ _ _ _ _ _ _ _ Hfind Hrun).
Qed.

Lemma roll_into_jail_ends_turn_witness :
  ∃ s' l' p',
    processRoll Demo.deck Demo.keyword (Demo.roll 3 3)
      (Demo.game [ Demo.seat "alice" "Alice" 1500 24 [];
                   Demo.seat "bob" "Bob" 1500 20 [] ] Demo.board)
      (Demo.seat "alice" "Alice" 1500 24 []) [] = Some (s', l') ∧
    players s' !! 0%nat = Some p' ∧ Player.position p' = 10 ∧
    phase s' = GamePhase.END_TURN ∧ waitingForDoublesTurn s' = false.
Proof.
  assert (∃ s' l' p',
    processRoll Demo.deck Demo.keyword (Demo.roll 3 3)
      (Demo.game [ Demo.seat "alice" "Alice" 1500 24 [];
                   Demo.seat "bob" "Bob" 1500 20 [] ] Demo.board)
      (Demo.seat "alice" "Alice" 1500 24 []) [] = Some (s', l') ∧
    players s' !! 0%nat = Some p' ∧ Player.position p' = 10 ∧
    Player.isInJail p' = true)
    as (s' & l' & p' & Hrun & Hp & Hpos & Hjail)
    by (eexists _, _, _; split; [vm_compute; reflexivity|];
        split_and!; reflexivity).
  exists s', l', p'. split_and!; [done..| |].
  all: apply (roll_into_jail_ends_turn Demo.deck Demo.keyword (Demo.roll 3 3)
           (Demo.game [ Demo.seat "alice" "Alice" 1500 24 [];
                        Demo.seat "bob" "Bob" 1500 20 [] ] Demo.board)
           (Demo.seat "alice" "Alice" 1500 24 []) 0%nat [] s' l' p'
           eq_refl Hrun Hp Hjail).
Defined.

(** X19.  Only a double earns another roll.  When a roll leaves the game
    in phase [ROLLING] or with a further roll pending, the dice were a
    double thrown by a player who was not in jail, and it was not the third
    double in a row: a double thrown to leave jail earns nothing. *)
Theorem extra_roll_only_on_double deck kw draws s player idx l s' l' :
  findPlayer (players s) (Player.id player) = Some (idx, player) →
  processRoll deck kw draws s player l = Some (s', l') →
  phase s' = GamePhase.ROLLING ∨ waitingForDoublesTurn s' = true →
  d1 draws = d2 draws ∧ Player.isInJail player = false ∧
  Player.consecutiveDoubles player + 1 ≠ 3.
Proof.
  intros Hfind Hrun. by apply (processRoll_turn _ _ _ _ _ _ _ _ _ Hfind Hrun).
Qed.

Lemma extra_roll_only_on_double_witness :
  ∃ s' l',
    processRoll Demo.deck Demo.keyword (Demo.roll 3 3) Demo.atTax
      (Demo.seat "alice" "Alice" 50 4 [1]) [] = Some (s', l') ∧
    phase s' = GamePhase.ROLLING ∧
    Player.position <$> players s' !! 0%nat = Some 10 ∧
    Player.consecutiveDoubles (Demo.seat "alice" "Alice" 50 4 [1]) + 1 ≠ 3.
Proof.
  assert (∃ s' l',
    processRoll Demo.deck Demo.keyword (Demo.roll 3 3) Demo.atTax
      (Demo.seat "alice" "Alice" 50 4 [1]) [] = Some (s', l') ∧
    phase s' = GamePhase.ROLLING ∧
    Player.position <$> players s' !! 0%nat = Some 10)
    as (s' & l' & Hrun & Hphase & Hpos)
    by (eexists _, _; split; [vm_compute; reflexivity|];
        split; reflexivity).
  exists s', l'. split_and!; [done..|].
  apply (extra_roll_only_on_double Demo.deck Demo.keyword (Demo.roll 3 3)
           Demo.atTax (Demo.seat "alice" "Alice" 50 4 [1]) 0%nat [] s' l'
           eq_refl Hrun (or_introl Hphase)).
Defined.

(** ** Ownership through every intent *)

Lemma soundCells_insert ps ts (j : nat) t t' :
  ts !! j = Some t → Tile.id t' = Tile.id t →
  Tile.ownerId t' = Tile.ownerId t →
  soundCells ps ts → soundCells ps (<[j := t']> ts).
Proof.
  intros Hj Hid Ho (Hids & Ht & Hp).
  pose proof (lookup_lt_Some _ _ _ Hj) as Hlt. split_and!; [done|..].
  - intros k u o Hk Hu. destruct (decide (j = k)) as [->|].
    + rewrite list_lookup_insert_eq in Hk by done. simplify_eq/=.
      rewrite Hid. eapply Ht; [done|congruence].
    + rewrite list_lookup_insert_ne in Hk by done. eauto.
  - intros i p tid Hi Hb Htid.
    destruct (Hp i p tid Hi Hb Htid) as (k & u & Hk & Hu & Hou).
    destruct (decide (j = k)) as [->|].
    + exists k, t'. rewrite list_lookup_insert_eq by done.
      simplify_eq/=. split_and!; congruence.
    + exists k, u. by rewrite list_lookup_insert_ne.
Qed.

Ltac sound_players :=
  repeat (apply soundCells_alter; [done..|]).

Lemma applyChanceEffect_sound kw s pid card dbl l s' l' :
  sound s → applyChanceEffect kw s pid card dbl l = Some (s', l') →
  sound s'.
Proof.
  intros Hs%sound_cells. unfold applyChanceEffect. unfold_M. intros H.
  roll_cases.
  all: apply sound_cells; simpl; sound_players; try done.
  all: apply soundCells_alter; [intros; by repeat case_decide..|done].
Qed.

Lemma payRent_sound s idx player tile owner dbl l s' l' :
  sound s →
  players s !! idx = Some player →
  payRent s (Player.id player) idx player tile owner dbl l = Some (s', l') →
  sound s'.
Proof.
  intros Hcells%sound_cells Hidx. unfold payRent. unfold_M.
  destruct (computeRent s tile owner l) as [[rent l1]|]; [|done].
  destruct (findPlayer (players s) (Player.id owner)) as [[oIdx o]|];
    [simpl|done].
  set (paid := alter _ oIdx (alter _ idx (players s))).
  assert (soundCells paid (tiles s)) as Hpaid
    by (subst paid; by sound_players).
  destruct (paid !! idx) as [payer|] eqn:Hpayer; [simpl|done].
  case_decide; [|intros [= <- _]; by apply sound_cells].
  assert (soundCells (alter (Player.set_bankrupt true) idx paid) (tiles s))
    as Hruined by (by apply soundCells_alter).
  assert (Player.id payer = Player.id player) as Hpid.
  { subst paid. apply (f_equal (fmap Player.id)) in Hpayer.
    rewrite !lookup_alter_view, Hidx in Hpayer by done. by simplify_eq/=. }
  case_decide; intros [= <- _]; apply sound_cells; simpl; [done|].
  rewrite <- Hpid.
  eapply (soundCells_release _ _ idx (Player.set_bankrupt true payer));
    [by rewrite list_lookup_alter_eq, Hpayer|done..].
Qed.

Lemma handleLanding_sound deck kw draws s pid dbl l s' l' :
  sound s → handleLanding deck kw draws s pid dbl l = Some (s', l') →
  sound s'.
Proof.
  intros Hs. pose proof (proj1 (sound_cells s) Hs) as Hcells.
  unfold handleLanding, landingPhase.
  destruct (findPlayer (players s) pid) as [[idx p]|] eqn:Hfind;
    [|by intros [= <- _]].
  pose proof (findPlayer_Some _ _ _ _ Hfind) as [Hidx Hid]. subst pid.
  unfold_M. intros H. roll_cases.
  all: try match goal with
           | H : applyChanceEffect _ _ _ _ _ _ = Some _ |- _ =>
             eapply applyChanceEffect_sound in H; [done|];
             by eapply sound_frame
           | H : payRent _ _ _ _ _ _ _ _ = Some _ |- _ =>
             by eapply payRent_sound in H
           end.
  all: apply sound_cells; simpl; by sound_players.
Qed.

Lemma movePlayer_sound deck kw draws s steps pid dbl l s' l' :
  sound s → movePlayer deck kw draws s steps pid dbl l = Some (s', l') →
  sound s'.
Proof.
  intros Hs%sound_cells. unfold movePlayer. unfold_M.
  destruct (findPlayer (players s) pid) as [[idx p]|]; [simpl|done].
  assert (sound (set_players (alter (advance steps) idx (players s)) s)).
  { apply sound_cells. simpl.
    apply soundCells_alter; [intros q; apply advance_fields..| |done].
    intros q. by destruct (advance_fields steps q) as (_ & _ & _ & _ & -> & _). }
  case_decide; by apply handleLanding_sound.
Qed.

Lemma processRoll_sound deck kw draws s player l s' l' :
  sound s → processRoll deck kw draws s player l = Some (s', l') → sound s'.
Proof.
  intros Hs%sound_cells. unfold processRoll. unfold_M. intros H.
  roll_cases.
  all: try match goal with
           | H : movePlayer _ _ _ _ _ _ _ _ = Some _ |- _ =>
             eapply movePlayer_sound in H; [done|]
           end.
  all: apply sound_cells; simpl; by sound_players.
Qed.

Lemma processSurrender_sound s player idx l s' l' :
  sound s →
  findPlayer (players s) (Player.id player) = Some (idx, player) →
  processSurrender s player l = Some (s', l') → sound s'.
Proof.
  intros Hcells%sound_cells Hfind.
  pose proof (findPlayer_Some _ _ _ _ Hfind) as [Hidx _].
  unfold processSurrender. unfold_M. rewrite Hfind. simpl.
  destruct (players s !! currentPlayerIndex s) as [current|]; [|done].
  simpl.
  set (quit := set_tiles _ (set_players _ s)).
  assert (sound quit) as Hquit.
  { apply sound_cells. subst quit. simpl.
    eapply (soundCells_release _ _ idx
              (Player.set_money 0 (Player.set_bankrupt true player)));
      [by rewrite list_lookup_alter_eq, Hidx|done|].
    by apply soundCells_alter. }
  case_bool_decide.
  - intros (_ & [[_ ->]|[_ [next ->]]])%processEndTurn_spec;
      by eapply sound_frame.
  - case_decide; intros [= <- _]; [by eapply sound_frame|done].
Qed.

(** X20.  Ownership stays sound through every intent -- a roll with
    whatever it lands on (rent, bankruptcy, tax, cards, jail), bail, an
    upgrade, the end of a turn, a surrender -- and through a purchase as
    long as the tile bought has no owner.  Sound means: player ids are
    unique, every owned tile is listed by its owner, and every tile a
    player who is not bankrupt lists is owned by that player. *)
Theorem intent_keeps_ownership_sound deck kw draws s a s' :
  sound s →
  (actionType a = ActionType.BUY →
   ∀ i p tile, findPlayer (players s) (playerId a) = Some (i, p) →
               nthZ (tiles s) (Player.position p) = Some tile →
               Tile.ownerId tile = None) →
  executeGameLogic deck kw draws s a = Some s' →
  sound s'.
Proof.
  intros Hs Hfree. pose proof (proj1 (sound_cells s) Hs) as Hcells.
  unfold executeGameLogic.
  destruct (findPlayer (players s) (playerId a)) as [[i player]|] eqn:Hfind;
    [|by intros [= <-]].
  pose proof (findPlayer_Some _ _ _ _ Hfind) as [Hi Hid].
  destruct (players s !! currentPlayerIndex s) as [current|]; [|done].
  destruct (negb _ && negb _); [by intros [= <-]|].
  destruct (actionType a);
    match goal with
    | |- match ?run with _ => _ end = _ → _ =>
      destruct run as [[s1 l1]|] eqn:Hrun; [|done]
    end; intros [= <-];
    (apply (sound_frame s1); [done..|]).
  - by eapply processRoll_sound.
  - revert Hrun. unfold processBuy. unfold_M.
    destruct (nthZ (tiles s) (Player.position player)) as [tile|] eqn:Htile;
      [simpl|done].
    specialize (Hfree eq_refl i player tile eq_refl Htile).
    destruct (truthyNum (Tile.price tile)) as [price|];
      [|by intros [= <- _]].
    case_decide; [by intros [= <- _]|].
    rewrite <- Hid in Hfind. rewrite Hfind. simpl. intros [= <- _].
    apply sound_cells. simpl. unfold setZ.
    unfold nthZ in Htile. case_decide; [|done].
    by apply soundCells_buy.
  - revert Hrun. unfold processPass. unfold_M. intros [= <- _].
    by eapply sound_frame.
  - revert Hrun. unfold processPayBail. unfold_M. intros H. roll_cases.
    apply sound_cells. simpl. by sound_players.
  - revert Hrun. unfold processUpgrade, findTile. unfold_M. intros H.
    roll_cases. apply sound_cells. simpl.
    match goal with
    | H : list_find _ _ = Some _ |- _ =>
      apply list_find_Some in H as (Htile & _ & _)
    end.
    eapply soundCells_insert; [done..|]. by sound_players.
  - apply processEndTurn_spec in Hrun as (_ & [[_ ->]|[_ [? ->]]]);
      by eapply sound_frame.
  - rewrite <- Hid in Hfind. by eapply processSurrender_sound.
Qed.

Lemma intent_keeps_ownership_sound_witness :
  ∃ s', Demo.run (Demo.roll 1 2) Demo.taxed
          (Demo.act ActionType.ROLL "alice") = Some s' ∧
    Player.money <$> players s' !! 0%nat = Some (-150) ∧
    sound s'.
Proof.
  eexists. split; [vm_compute; reflexivity|]. split; [reflexivity|].
  apply (intent_keeps_ownership_sound Demo.deck Demo.keyword (Demo.roll 1 2)
           Demo.taxed (Demo.act ActionType.ROLL "alice")).
  - apply consistent_sound.
    + apply (bool_decide_unpack _). by vm_compute.
    + apply (bool_decide_unpack _). by vm_compute.
  - discriminate.
  - vm_compute. reflexivity.
Defined.

(** ** The start of a game *)

Lemma executeGameLogic_wellFormed deck kw draws s a s' :
  wellFormed deck s → 1 <= d1 draws <= 6 → 1 <= d2 draws <= 6 →
  executeGameLogic deck kw draws s a = Some s' → wellFormed deck s'.
Proof.
  intros (Hlen & Htiles & Hcur & Hboard & Hdeck) Hd1 Hd2 Hrun.
  pose proof (executeGameLogic_evolves _ _ _ _ _ _ Hrun) as (_ & Ht & _).
  split_and!; [| | | |done].
  - by rewrite <- (Forall2_length _ _ _ Ht).
  - apply Forall_lookup. intros j t' Hj.
    destruct (Forall2_lookup_r _ _ _ _ _ Ht Hj) as (t & Hjt & Hkeep).
    rewrite Forall_lookup in Htiles. eapply tileOk_keeps; eauto.
  - by eapply executeGameLogic_pointer.
  - by eapply executeGameLogic_onBoard.
Qed.

Section StartGameProperties.

Context (INITIAL_TILES : list Tile.t) (INITIAL_MONEY : Z).
Context (icon0 icon1 icon2 icon3 aiIcon : string).
Context (startMessage : GameLog.msg).


Lemma gamePlayers_lookup room i p :
  gamePlayers INITIAL_MONEY icon0 icon1 icon2 icon3 aiIcon room !! i
    = Some p →
  ∃ rp, Room.players room !! i = Some rp ∧
    Player.id p = RoomPlayer.id rp ∧ Player.name p = RoomPlayer.name rp ∧
    Player.isAI p = RoomPlayer.isAI rp ∧
    Player.money p = INITIAL_MONEY ∧ Player.position p = 0 ∧
    Player.isInJail p = false ∧ Player.jailTurns p = 0 ∧
    Player.consecutiveDoubles p = 0 ∧ Player.properties p = [] ∧
    Player.bankrupt p = false.
Proof.
  unfold gamePlayers. rewrite list_lookup_imap.
  destruct (Room.players room !! i) as [rp|]; [|done].
  intros [= <-]. by exists rp.
Qed.

Lemma gamePlayers_ids room :
  Player.id <$> gamePlayers INITIAL_MONEY icon0 icon1 icon2 icon3 aiIcon room
    = RoomPlayer.id <$> Room.players room.
Proof.
  apply list_eq. intros i. unfold gamePlayers.
  rewrite !list_lookup_fmap, list_lookup_imap.
  by destruct (Room.players room !! i).
Qed.

End StartGameProperties.

Section StartState.

Context (INITIAL_TILES : list Tile.t) (INITIAL_MONEY : Z).
Context (icon0 icon1 icon2 icon3 aiIcon : string).
Context (startMessage : GameLog.msg).

(** X21.  The state a game starts from.  When the host's start request
    finds its room -- the first room of the lobby list with the id the
    host is in -- every client that receives the template starts from a
    well-formed state with sound ownership: the players of that room in
    their order, each with the initial money on tile 0, free, solvent and
    without property; no tile owned or built on; the first player on turn
    in phase [ROLLING]; and the client's own session kept.  This needs
    that room, and no other, to be non-empty and without duplicate ids,
    and a ring of forty well-formed tiles. *)
Theorem start_state_is_sound deck gameState rooms rid template prev i room :
  length INITIAL_TILES = 40%nat → Forall tileOk INITIAL_TILES →
  Forall fairCard deck →
  handleStartGameRequest INITIAL_TILES INITIAL_MONEY icon0 icon1 icon2 icon3
    aiIcon startMessage gameState rooms = Some (rid, template) →
  list_find (λ r, Room.id r = rid) rooms = Some (i, room) →
  Room.players room ≠ [] →
  NoDup (RoomPlayer.id <$> Room.players room) →
  wellFormed deck (game_started prev template) ∧
  sound (game_started prev template) ∧
  roomId gameState = Some rid ∧ isHost gameState = true ∧
  Player.id <$> players (game_started prev template)
    = RoomPlayer.id <$> Room.players room ∧
  Forall (λ p, Player.money p = INITIAL_MONEY ∧ Player.position p = 0 ∧
               Player.properties p = [] ∧ Player.bankrupt p = false)
         (players (game_started prev template)) ∧
  Forall (λ t, Tile.ownerId t = None ∧ Tile.houseCount t = Some 0)
         (tiles (game_started prev template)) ∧
  currentPlayerIndex (game_started prev template) = 0%nat ∧
  phase (game_started prev template) = GamePhase.ROLLING ∧
  currentUser (game_started prev template) = currentUser prev ∧
  roomId (game_started prev template) = roomId prev ∧
  isHost (game_started prev template) = isHost prev.
Proof.
  intros Hlen Htiles Hdeck. unfold handleStartGameRequest.
  destruct (truthyStr (roomId gameState)) as [r|] eqn:Hrid; [|done].
  apply truthyStr_Some in Hrid.
  destruct (isHost gameState) eqn:Hhost; [simpl|done].
  destruct (list_find _ rooms) as [[i' room']|] eqn:Hroom; [|done].
  intros [= <- <-] Hfound Hne Hids.
  rewrite Hfound in Hroom. injection Hroom as <- <-.
  assert (Forall (λ p, Player.money p = INITIAL_MONEY ∧
                       Player.position p = 0 ∧
                       Player.properties p = [] ∧ Player.bankrupt p = false)
                 (gamePlayers INITIAL_MONEY icon0 icon1 icon2 icon3 aiIcon
                    room)) as Hfresh.
  { apply Forall_lookup. intros j p Hp.
    apply gamePlayers_lookup in Hp as (rp & _ & Hp). naive_solver. }
  assert (wellFormed deck
            (game_started prev
               (initialState INITIAL_TILES INITIAL_MONEY icon0 icon1 icon2
                  icon3 aiIcon startMessage room))) as Hwf.
  { unfold wellFormed. simpl. split; [by rewrite length_fmap|].
    split; [|split; [|split; [|done]]].
    - apply Forall_fmap. eapply Forall_impl; [exact Htiles|].
      intros t (? & ? & ?). unfold tileOk. simpl. split; [done|].
      split; [|done]. unfold orNum. simpl. lia.
    - unfold gamePlayers. rewrite length_imap.
      destruct (Room.players room); [done|simpl; lia].
    - apply Forall_lookup. intros j p Hp.
      apply gamePlayers_lookup in Hp
        as (rp & _ & _ & _ & _ & _ & Hpos & Hjail & Hturns & Hdbl & _).
      unfold onBoard. rewrite Hpos, Hjail, Hturns, Hdbl.
      split_and!; (done || lia). }
  assert (sound
            (game_started prev
               (initialState INITIAL_TILES INITIAL_MONEY icon0 icon1 icon2
                  icon3 aiIcon startMessage room))) as Hsound.
  { unfold sound. simpl. split; [by rewrite gamePlayers_ids|]. split.
    - apply Forall_fmap, Forall_true. intros t. by unfold ownerLists.
    - eapply Forall_impl; [exact Hfresh|].
      intros p (_ & _ & Hp & _) _. unfold listsOwned. rewrite Hp.
      by apply Forall_nil. }
  split; [exact Hwf|]. split; [exact Hsound|].
  split; [exact Hrid|]. split; [done|].
  split; [apply gamePlayers_ids|].
  split; [exact Hfresh|]. split; [|done].
  by apply Forall_fmap, Forall_true.
Qed.

End StartState.

Lemma start_state_is_sound_witness :
  let room :=
    Room.mk "room" "Friday" "alice"
      [ RoomPlayer.mk "alice" "Alice" false true;
        RoomPlayer.mk "robot" "Robot" true false ]
      RoomStatus.WAITING 4 0 in
  let crowd :=
    Room.mk "other" "Twins" "carol"
      [ RoomPlayer.mk "carol" "Carol" false true;
        RoomPlayer.mk "carol" "Carol" false false ]
      RoomStatus.WAITING 4 0 in
  let lobby :=
    mkGameState [] 0 Demo.board (1, 1) GamePhase.ROOM_SETUP [] None None None
      false (Some ("alice", "Alice")) (Some "room") true in
  ∃ template,
    handleStartGameRequest Demo.board 1500 "car" "plane" "ship" "rocket"
      "robot" (GameLog.Declined "nobody") lobby [crowd; room]
      = Some ("room", template) ∧
    Player.icon <$> players template = ["car"; "robot"] ∧
    sound (game_started lobby template).
Proof.
  intros room crowd lobby.
  assert (∃ template,
    handleStartGameRequest Demo.board 1500 "car" "plane" "ship" "rocket"
      "robot" (GameLog.Declined "nobody") lobby [crowd; room]
      = Some ("room", template) ∧
    Player.icon <$> players template = ["car"; "robot"])
    as (template & Hstart & Hicons)
    by (eexists; split; [vm_compute; reflexivity|reflexivity]).
  assert (Forall tileOk Demo.board) as Hboard
    by (apply (bool_decide_unpack _); by vm_compute).
  assert (Forall fairCard Demo.deck) as Hdeck
    by (apply (bool_decide_unpack _); by vm_compute).
  assert (NoDup (RoomPlayer.id <$> Room.players room)) as Hids
    by (apply (bool_decide_unpack _); by vm_compute).
  assert (Room.players room ≠ []) as Hne by done.
  destruct (start_state_is_sound Demo.board 1500 "car" "plane" "ship"
              "rocket" "robot" (GameLog.Declined "nobody") Demo.deck lobby
              [crowd; room] "room" template lobby 1%nat room eq_refl Hboard
              Hdeck Hstart eq_refl Hne Hids) as (_ & Hsound & _).
  exists template. split; [exact Hstart|]. split; [exact Hicons|].
  exact Hsound.
Defined.

(** X22.  A game never makes the host throw.  From a well-formed state --
    such as the one a game starts from -- every state reached by executing
    intents, whoever sends them and whatever the dice and the cards, is
    well formed again, and the host returns a state for any further
    intent. *)
Theorem play_never_throws deck kw s0 s :
  wellFormed deck s0 → plays deck kw s0 s →
  wellFormed deck s ∧
  ∀ draws a, fairDraws deck draws →
             is_Some (executeGameLogic deck kw draws s a).
Proof.
  intros Hwf0 Hplays.
  assert (wellFormed deck s) as Hwf.
  { induction Hplays as [|s draws a s' _ IH (Hd1 & Hd2 & _) Hrun]; [done|].
    by eapply executeGameLogic_wellFormed. }
  split; [done|]. intros draws a Hfair.
  by apply executeGameLogic_returns.
Qed.

Lemma play_never_throws_witness :
  ∃ s1 s2,
    Demo.run (mkDraws 3 4 2) Demo.monopoly
      (Demo.act ActionType.ROLL "alice") = Some s1 ∧
    Demo.run (Demo.roll 1 1) s1 (Demo.act ActionType.END_TURN "alice")
      = Some s2 ∧
    currentPlayerIndex s2 = 1%nat ∧
    wellFormed Demo.deck s2 ∧
    is_Some (Demo.run (Demo.roll 6 6) s2 (Demo.act ActionType.ROLL "bob")).
Proof.
  unfold Demo.run.
  assert (fairDraws Demo.deck (mkDraws 3 4 2)) as Hfair1
    by (unfold fairDraws; simpl; lia).
  assert (fairDraws Demo.deck (Demo.roll 1 1)) as Hfair2
    by (unfold fairDraws; simpl; lia).
  assert (fairDraws Demo.deck (Demo.roll 6 6)) as Hfair3
    by (unfold fairDraws; simpl; lia).
  assert (wellFormed Demo.deck Demo.monopoly) as Hwf
    by (apply (bool_decide_unpack _); by vm_compute).
  assert (∃ s1 s2,
    executeGameLogic Demo.deck Demo.keyword (mkDraws 3 4 2) Demo.monopoly
      (Demo.act ActionType.ROLL "alice") = Some s1 ∧
    executeGameLogic Demo.deck Demo.keyword (Demo.roll 1 1) s1
      (Demo.act ActionType.END_TURN "alice") = Some s2 ∧
    currentPlayerIndex s2 = 1%nat) as (s1 & s2 & Hrun1 & Hrun2 & Hcur)
    by (eexists _, _; split; [vm_compute; reflexivity|];
        split; [vm_compute; reflexivity|reflexivity]).
  pose proof (plays_intent Demo.deck Demo.keyword Demo.monopoly s1
                (Demo.roll 1 1) (Demo.act ActionType.END_TURN "alice") s2
                (plays_intent Demo.deck Demo.keyword Demo.monopoly
                   Demo.monopoly (mkDraws 3 4 2)
                   (Demo.act ActionType.ROLL "alice") s1
                   (plays_start _ _ _) Hfair1 Hrun1)
                Hfair2 Hrun2) as Hplays.
  destruct (play_never_throws Demo.deck Demo.keyword Demo.monopoly s2
              Hwf Hplays) as [Hwf2 Hnext].
  exists s1, s2. split; [exact Hrun1|]. split; [exact Hrun2|].
  split; [exact Hcur|]. split; [exact Hwf2|].
  exact (Hnext (Demo.roll 6 6) (Demo.act ActionType.ROLL "bob") Hfair3).
Defined.

(** ** Snapshots *)

Lemma game_state_sync_host local x :
  isHost local = true → game_state_sync local x = local.
Proof. intros H. unfold game_state_sync. by rewrite H. Qed.

Lemma game_state_sync_twice local x y :
  isHost local = false →
  isHost (game_state_sync local x) = false ∧
  game_state_sync (game_state_sync local x) y = game_state_sync local y.
Proof. intros H. unfold game_state_sync. rewrite H. simpl. done. Qed.

(** X23.  The last snapshot wins.  Whatever broadcasts a guest has
    received, its state is the last one with the guest's own session
    (user, room, guest flag); a host ignores them all. *)
Theorem sync_last_snapshot_wins local snapshots last :
  foldl game_state_sync local (snapshots ++ [last]) =
  if isHost local then local else game_state_sync local last.
Proof.
  revert local. induction snapshots as [|x xs IH]; intros local; simpl.
  - destruct (isHost local) eqn:Hl; [by apply game_state_sync_host|done].
  - rewrite IH. destruct (isHost local) eqn:Hl.
    + rewrite game_state_sync_host by done. by rewrite Hl.
    + by destruct (game_state_sync_twice local x last Hl) as [-> ->].
Qed.

(** ** The computer player *)

(** X24.  The computer player buys only what leaves it solvent.  When the
    rule-based decision for the computer player on turn is [BUY], the hook
    sends exactly one buy intent in that player's name; the tile under the
    player is a property, a station or a utility, and if it carries a price
    the host accepts the purchase, the tile becomes the player's and the
    player is left with a positive balance. *)
Theorem ai_purchase_leaves_money deck kw draws s current tile price :
  isHost s = true → phase s = GamePhase.ACTION →
  findPlayer (players s) (Player.id current)
    = Some (currentPlayerIndex s, current) →
  Player.isAI current = true → Player.bankrupt current = false →
  nthZ (tiles s) (Player.position current) = Some tile →
  truthyNum (Tile.price tile) = Some price →
  getAIDecision s current = Some AIAction.BUY →
  runAITurn s = Some [mkAction ActionType.BUY (Player.id current) None] ∧
  isBuyable (Tile.type tile) = true ∧
  ∃ s' p',
    executeGameLogic deck kw draws s
      (mkAction ActionType.BUY (Player.id current) None) = Some s' ∧
    players s' !! currentPlayerIndex s = Some p' ∧
    Player.money p' = Player.money current - price ∧
    0 < Player.money p' ∧
    Tile.ownerId <$> nthZ (tiles s') (Player.position current)
      = Some (Some (Player.id current)).
Proof.
  intros Hhost Hphase Hfind Hai Hsolvent Htile Hprice Hdecision.
  pose proof (findPlayer_Some _ _ _ _ Hfind) as [Hcur _].
  assert (isBuyable (Tile.type tile) = true ∧ price < Player.money current)
    as [Hbuyable Hafford].
  { revert Hdecision. unfold getAIDecision. rewrite decide_True by done.
    rewrite Htile. simpl. unfold orNum. rewrite Hprice. simpl.
    destruct (isBuyable (Tile.type tile)); [|done].
    repeat case_decide; repeat case_match; try done; intros _.
    all: split; [done|].
    all: repeat match goal with
                | H : _ && _ = true |- _ => apply andb_true_iff in H as [??]
                | H : bool_decide _ = true |- _ =>
                  apply bool_decide_eq_true in H
                end; lia. }
  split_and!; [|done|].
  - unfold runAITurn. rewrite Hhost, Hphase, Hcur, Hai, Hsolvent. simpl.
    by rewrite Hdecision.
  - unfold executeGameLogic. simpl. rewrite Hfind, Hcur.
    rewrite bool_decide_eq_true_2 by done. simpl.
    unfold processBuy. unfold_M. rewrite Htile. simpl. rewrite Hprice.
    rewrite decide_False by lia. rewrite Hfind. simpl.
    eexists _, _. split; [done|]. simpl.
    rewrite list_lookup_alter_eq, Hcur. simpl.
    split_and!; [done|done|simpl; lia|].
    unfold nthZ, setZ in *. case_decide; [|done].
    rewrite list_lookup_insert_eq by (by eapply lookup_lt_Some). done.
Qed.

Lemma ai_purchase_leaves_money_witness :
  let robot := Player.mk "robot" "Robot" "#3b82f6" "robot" true 120 3
                 false 0 0 [1] false in
  let s := set_phase GamePhase.ACTION
             (Demo.game [ robot; Demo.seat "bob" "Bob" 1500 20 [] ]
                (Demo.grant "robot" [1] Demo.board)) in
  getAIDecision s robot = Some AIAction.BUY ∧
  ∃ s' p', Demo.run (Demo.roll 1 1) s (Demo.act ActionType.BUY "robot")
             = Some s' ∧
    players s' !! 0%nat = Some p' ∧ Player.money p' = 60.
Proof.
  intros robot s. unfold Demo.run.
  destruct (ai_purchase_leaves_money Demo.deck Demo.keyword (Demo.roll 1 1)
              s robot (Demo.street 3 "Brown 2" ColorGroup.BROWN 60 4 50) 60)
    as (_ & _ & s' & p' & Hrun & Hp & Hmoney & _);
    [reflexivity..|].
  split; [reflexivity|]. exists s', p'. split_and!; [exact Hrun|exact Hp|].
  rewrite Hmoney. reflexivity.
Defined.

(** ** The board layout *)

(** X25.  Every tile of the ring gets a cell on the border of the 11 x 11
    grid, no two tiles get the same cell, and an id outside the ring gets
    no cell. *)
Theorem getGridStyle_lays_out_the_ring id :
  (0 <= id <= 39 →
   ∃ column row, getGridStyle id = Some (column, row) ∧
     1 <= column <= 11 ∧ 1 <= row <= 11 ∧
     (column = 1 ∨ column = 11 ∨ row = 1 ∨ row = 11) ∧
     ∀ id', getGridStyle id' = Some (column, row) → id' = id) ∧
  (¬ 0 <= id <= 39 → getGridStyle id = None).
Proof.
  unfold getGridStyle. split.
  - intros Hid. repeat case_decide; try lia.
    all: eexists _, _; split; [reflexivity|].
    all: split_and!; try lia.
    all: intros id'; repeat case_decide; intros [=]; lia.
  - intros Hid. repeat case_decide; (done || lia).
Qed.

Lemma getGridStyle_lays_out_the_ring_witness :
  getGridStyle 0 = Some (11, 11) ∧ getGridStyle 10 = Some (1, 11) ∧
  getGridStyle 20 = Some (1, 1) ∧ getGridStyle 30 = Some (11, 1) ∧
  ∀ id', getGridStyle id' = Some (1, 2) → id' = 19.
Proof.
  split_and!; [reflexivity..|].
  destruct (getGridStyle_lays_out_the_ring 19) as [H _].
  destruct H as (column & row & Hcell & _ & _ & _ & Hone); [lia|].
  vm_compute in Hcell. injection Hcell as <- <-. exact Hone.
Defined.

(** ** Landing without rent *)

(** X26.  No rent is due on one's own tile, on the tile of a bankrupt
    owner, or on a tile whose owner reference names nobody in the game:
    the landing is logged, the phase moves on ([ROLLING] after a double,
    [END_TURN] otherwise), and nothing else changes -- no money moves and
    no purchase is offered. *)
Theorem landing_without_rent deck kw draws s pid dbl idx p tile o l :
  findPlayer (players s) pid = Some (idx, p) →
  nthZ (tiles s) (Player.position p) = Some tile →
  isBuyable (Tile.type tile) = true →
  truthyStr (Tile.ownerId tile) = Some o →
  o = pid ∨
  (∃ oIdx owner, findPlayer (players s) o = Some (oIdx, owner) ∧
                 Player.bankrupt owner = true) ∨
  findPlayer (players s) o = None →
  handleLanding deck kw draws s pid dbl l =
  Some (landingPhase dbl s,
        l ++ [GameLog.mk (GameLog.Arrived (Player.name p) (Tile.name tile))
                         GameLog.info]).
Proof.
  intros Hfind Htile Hbuyable Ho Hfree.
  assert (Tile.type tile ≠ TileType.GO_TO_JAIL ∧
          Tile.type tile ≠ TileType.CHANCE ∧
          Tile.type tile ≠ TileType.COMMUNITY_CHEST ∧
          Tile.type tile ≠ TileType.TAX) as (Hj & Hc & Hcc & Htax).
  { unfold isBuyable in Hbuyable. apply bool_decide_eq_true in Hbuyable.
    split_and!; intros Hty; rewrite Hty in Hbuyable; naive_solver. }
  unfold handleLanding. rewrite Hfind, Htile. unfold_M. simpl.
  rewrite decide_False by done.
  rewrite decide_False by (by intros [|]).
  rewrite Hbuyable, Ho. rewrite (decide_False (P := _ = TileType.TAX)) by done.
  destruct Hfree as [->|[(oIdx & owner & Hown & Hbroke)|Hnone]].
  - by rewrite decide_True.
  - case_decide; [done|]. by rewrite Hown, Hbroke.
  - case_decide; [done|]. by rewrite Hnone.
Qed.

Lemma landing_without_rent_witness :
  let home := Demo.game [ Demo.seat "alice" "Alice" 3 1 [1];
                          Demo.seat "bob" "Bob" 1500 20 [3] ]
                (Demo.grant "bob" [3] (Demo.grant "alice" [1] Demo.board)) in
  ∃ s' l', handleLanding Demo.deck Demo.keyword (Demo.roll 1 2) home
             "alice" true [] = Some (s', l') ∧
    players s' = players home ∧ tiles s' = tiles home ∧
    phase s' = GamePhase.ROLLING.
Proof.
  intros home. eexists _, _. split.
  - apply (landing_without_rent Demo.deck Demo.keyword (Demo.roll 1 2) home
             "alice" true 0%nat (Demo.seat "alice" "Alice" 3 1 [1])
             (Tile.set_ownerId (Some "alice")
                (Demo.street 1 "Brown 1" ColorGroup.BROWN 60 2 50))
             "alice" []);
      [reflexivity|reflexivity|reflexivity|reflexivity|by left].
  - split_and!; reflexivity.
Defined.
